(** * stock_report: the financial-news collector (bin/finance_news_collect.py)

    A shallow embedding of the collection-and-deduplication engine and the
    properties its specification states about it.

    Conventions of the embedding.

    - A Python [str] is a [string]: the bytes of its UTF-8 encoding.  Its
      characters, the code points [len], indexing, [strip], [re] and
      [SequenceMatcher] work on, are what [PyStr.chars] cuts it into.
      White space is Unicode's.  [lower] is computed on ASCII strings; on
      the others it is the library's, of which nothing is assumed.
    - A Python [float] is a [pyfloat]: a finite value, taken as the
      rational it stands for, an infinity or NaN, with [==], [<] and [<=]
      as Python has them (every comparison with NaN is false).  The one
      arithmetic operation on floats in the modelled code, the division in
      [ratio], is exact here; conversions to float ([float(int)],
      [float(str)]) are left to the platform.
    - [sorted] is Python's: the class [PyLib] says what the language
      promises of it, a permutation of its argument, in decreasing order
      and stable whenever [<] orders the keys at hand consistently.  With
      a NaN weight among the keys the comparisons need not be consistent;
      what the result is then is not promised, and nothing below assumes
      it.  The class also holds [str.lower] for strings that are not
      ASCII.
    - A [datetime] made timezone-aware in UTC is an instant, a [Z] (in
      microseconds).
    - A value read from the configuration file is a [pyval]: what the YAML
      loader returns, with its truth value, its [==] and the test of [in].
      Mapping keys are strings; a mapping is the list of its entries in
      file order.  A NaN carries the name of its object, since [in] takes
      an object to be equal to itself where [==] does not.
    - A [dict] with a fixed set of keys is a record; a key that may be absent
      is an [option] field.  Every element of a list of items is a dict
      object of its own, as [_collect_one] builds them.
    - The set [seen_url] is a [gset string].
    - An exception (an instance of [Exception], what [except Exception]
      catches) is an [exn], a computation that may raise returns a
      [result]; the code that reads the clock or the network runs in the
      monad [M], over the state of the outside world and the list of the
      URLs requested so far.
    - Calls that leave the repository (HTTP, the clock, the date parsers and
      formatters of the Python library) are fields of the class
      [Platform]. *)

From Stdlib Require Import ZArith QArith Qround List String Ascii Bool Lia.
From Stdlib Require Import Permutation Sorted OrderedTypeEx DecimalString.
From stdpp Require Import base decidable gmap strings sorting.
Import ListNotations.

#[local] Open Scope string_scope.
#[local] Open Scope list_scope.
#[local] Open Scope nat_scope.

Set Warnings "-register-all".

(* ===================================================================== *)
(** * Python strings *)
(* ===================================================================== *)

Module PyStr.

(** A [str] is the [string] of the bytes of its UTF-8 encoding, and one of
    its characters (a code point) the string of the bytes that encode it.
    [==] and [<] on [str] are [String.eqb] and [String.ltb]: UTF-8 keeps
    the order of the code points. *)

(** A continuation byte, 10xxxxxx: it does not begin a character. *)
Definition is_cont (c : ascii) : bool :=
  let n := N_of_ascii c in ((128 <=? n) && (n <? 192))%N.

(** [s] goes on with the bytes of the character before it. *)
Definition continues (s : string) : bool :=
  match s with
  | EmptyString => false
  | String d _ => is_cont d
  end.

(** The characters of [s], in order: [list(s)]. *)
Fixpoint chars (s : string) : list string :=
  match s with
  | EmptyString => []
  | String c r =>
      match chars r with
      | [] => [String c EmptyString]
      | ch :: cs =>
          if continues r then String c ch :: cs
          else String c EmptyString :: ch :: cs
      end
  end.

(** [''.join(l)] *)
Definition join (l : list string) : string := fold_right append "" l.

(** [ord(ch)]: the code point that the bytes of [ch] encode. *)
Definition ord (ch : string) : N :=
  match ch with
  | EmptyString => 0%N
  | String c r =>
      let n := N_of_ascii c in
      let first :=
        (if n <? 128 then n              (* 0xxxxxxx *)
         else if n <? 224 then n mod 32  (* 110xxxxx *)
         else if n <? 240 then n mod 16  (* 1110xxxx *)
         else n mod 8)%N in              (* 11110xxx *)
      fold_left (fun acc d => (acc * 64 + N_of_ascii d mod 64)%N)
        (list_ascii_of_string r) first
  end.

(** [str.isspace] on a code point, which is also the class [\s] of [re] on
    [str] patterns: the characters of bidirectional type WS, B or S and of
    category Zs. *)
Definition isspace_ord (n : N) : bool :=
  ((9 <=? n) && (n <=? 13) || (28 <=? n) && (n <=? 32)
   || (n =? 133) || (n =? 160) || (n =? 5760)
   || (8192 <=? n) && (n <=? 8202)
   || (n =? 8232) || (n =? 8233) || (n =? 8239) || (n =? 8287)
   || (n =? 12288))%N.

Definition isspace (ch : string) : bool := isspace_ord (ord ch).

(** [s.isascii()] *)
Fixpoint is_ascii (s : string) : bool :=
  match s with
  | EmptyString => true
  | String c r => (N_of_ascii c <? 128)%N && is_ascii r
  end.

Definition lower_char (c : ascii) : ascii :=
  let n := N_of_ascii c in
  if ((65 <=? n) && (n <=? 90))%N then ascii_of_N (n + 32) else c.

(** [s.lower()] on a string of ASCII characters: the letters A to Z become
    a to z. *)
Fixpoint lower_ascii (s : string) : string :=
  match s with
  | EmptyString => EmptyString
  | String c r => String (lower_char c) (lower_ascii r)
  end.

Fixpoint lstrip_chars (l : list string) : list string :=
  match l with
  | [] => []
  | ch :: r => if isspace ch then lstrip_chars r else l
  end.

Fixpoint rstrip_chars (l : list string) : list string :=
  match l with
  | [] => []
  | ch :: r =>
      match rstrip_chars r with
      | [] => if isspace ch then [] else [ch]
      | r' => ch :: r'
      end
  end.

(** [s.strip()] *)
Definition strip (s : string) : string :=
  join (rstrip_chars (lstrip_chars (chars s))).

(** [re.sub(r"\s+", " ", s)]: every maximal run of white space becomes one
    blank.  [in_run] tells that the previous character was white space. *)
Fixpoint sub_spaces_from (in_run : bool) (l : list string) : list string :=
  match l with
  | [] => []
  | ch :: r =>
      if isspace ch
      then if in_run then sub_spaces_from true r
           else " " :: sub_spaces_from true r
      else ch :: sub_spaces_from false r
  end.

Definition sub_spaces (s : string) : string :=
  join (sub_spaces_from false (chars s)).

(** Truth value of a string: [bool(s)]. *)
Definition truthy (s : string) : bool :=
  match s with EmptyString => false | _ => true end.

(** [s.replace(old, new)] for a one-character [old], an ASCII one. *)
Fixpoint replace_char (old : ascii) (new : string) (s : string) : string :=
  match s with
  | EmptyString => EmptyString
  | String c r =>
      if Ascii.eqb c old then new ++ replace_char old new r
      else String c (replace_char old new r)
  end.

End PyStr.

(* ===================================================================== *)
(** * difflib.SequenceMatcher, as [title_sim] uses it *)
(* ===================================================================== *)

(** [SequenceMatcher(None, a, b)]: no junk predicate, [autojunk] on.  Only
    what [ratio()] needs is embedded: [__chain_b], [find_longest_match],
    [get_matching_blocks] and [_calculate_ratio]. *)
Module Difflib.

Section Matcher.

(** The elements of the two sequences, with their [==]; [dflt] stands for
    an element at an index out of range, which the code never reads. *)
Context {A : Type} (eqb : A -> A -> bool) (dflt : A).

Variables a b : list A.

Definition at_ (l : list A) (i : nat) : A := nth i l dflt.

Fixpoint indices_from (c : A) (l : list A) (i : nat) : list nat :=
  match l with
  | [] => []
  | x :: r =>
      if eqb x c then i :: indices_from c r (S i)
      else indices_from c r (S i)
  end.

(** [b2j.get(c, [])] after [__chain_b]: the positions of [c] in [b], in
    increasing order; when [b] has 200 elements or more, an element that
    occurs more than [n // 100 + 1] times is popular and has no entry. *)
Definition b2j (c : A) : list nat :=
  let idxs := indices_from c b 0 in
  let n := length b in
  if (200 <=? n) && (n / 100 + 1 <? length idxs) then [] else idxs.

(** No junk predicate was given: [bjunk] is empty. *)
Definition isbjunk (c : A) : bool := false.

(** [j2len.get(j, 0)] *)
Fixpoint j2len_get (j2len : list (nat * nat)) (j : nat) : nat :=
  match j2len with
  | [] => 0
  | (j', k) :: r => if j' =? j then k else j2len_get r j
  end.

(** A match [(besti, bestj, bestsize)]. *)
Definition Match : Type := nat * nat * nat.

(** The loop [for j in b2j.get(a[i], nothing)] of [find_longest_match]. *)
Fixpoint scan_row (j2len : list (nat * nat)) (i blo bhi : nat)
    (js : list nat) (newj2len : list (nat * nat)) (best : Match)
    : list (nat * nat) * Match :=
  match js with
  | [] => (newj2len, best)
  | j :: rest =>
      if j <? blo then scan_row j2len i blo bhi rest newj2len best
      else if bhi <=? j then (newj2len, best)
      else
        let k := S (match j with 0 => 0 | S j' => j2len_get j2len j' end) in
        let best' :=
          let '(_, _, bestsize) := best in
          if bestsize <? k then (i + 1 - k, j + 1 - k, k) else best in
        scan_row j2len i blo bhi rest ((j, k) :: newj2len) best'
  end.

(** The loop [for i in range(alo, ahi)]: [n] rows are left, from row [i]. *)
Fixpoint scan_rows (n i blo bhi : nat) (j2len : list (nat * nat))
    (best : Match) : Match :=
  match n with
  | 0 => best
  | S n' =>
      let '(newj2len, best') :=
        scan_row j2len i blo bhi (b2j (at_ a i)) [] best in
      scan_rows n' (S i) blo bhi newj2len best'
  end.

(** The test of [while besti > alo and bestj > blo and ... and
    a[besti-1] == b[bestj-1]], with [isbjunk(b[bestj-1])] required to be
    [junk] ([not isbjunk(...)] in the first pair of loops, [isbjunk(...)] in
    the second). *)
Definition can_extend_left (junk : bool) (alo blo : nat) (m : Match) : bool :=
  let '(besti, bestj, _) := m in
  (alo <? besti) && (blo <? bestj)
  && Bool.eqb (isbjunk (at_ b (bestj - 1))) junk
  && eqb (at_ a (besti - 1)) (at_ b (bestj - 1)).

(** That loop: it grows the match to the left. *)
Fixpoint extend_left (fuel : nat) (junk : bool) (alo blo : nat) (m : Match)
    : Match :=
  match fuel with
  | 0 => m
  | S fuel' =>
      if can_extend_left junk alo blo m
      then
        let '(besti, bestj, bestsize) := m in
        extend_left fuel' junk alo blo (besti - 1, bestj - 1, S bestsize)
      else m
  end.

(** The test of [while besti+bestsize < ahi and bestj+bestsize < bhi and
    ... and a[besti+bestsize] == b[bestj+bestsize]]. *)
Definition can_extend_right (junk : bool) (ahi bhi : nat) (m : Match)
    : bool :=
  let '(besti, bestj, bestsize) := m in
  (besti + bestsize <? ahi) && (bestj + bestsize <? bhi)
  && Bool.eqb (isbjunk (at_ b (bestj + bestsize))) junk
  && eqb (at_ a (besti + bestsize)) (at_ b (bestj + bestsize)).

(** That loop: it grows the match to the right. *)
Fixpoint extend_right (fuel : nat) (junk : bool) (ahi bhi : nat) (m : Match)
    : Match :=
  match fuel with
  | 0 => m
  | S fuel' =>
      if can_extend_right junk ahi bhi m
      then
        let '(besti, bestj, bestsize) := m in
        extend_right fuel' junk ahi bhi (besti, bestj, S bestsize)
      else m
  end.

(** [find_longest_match(alo, ahi, blo, bhi)].  Each [while] loop moves an
    index of [a] by one inside [alo, ahi), so [ahi] rounds are enough for it
    to run until its test fails (see [find_longest_match_loops]). *)
Definition find_longest_match (alo ahi blo bhi : nat) : Match :=
  let m := scan_rows (ahi - alo) alo blo bhi [] (alo, blo, 0) in
  let m := extend_left ahi false alo blo m in
  let m := extend_right ahi false ahi bhi m in
  let m := extend_left ahi true alo blo m in
  extend_right ahi true ahi bhi m.

(** The [while queue] loop of [get_matching_blocks].  [queue] is used as a
    stack: its head here is the last element of the Python list, the one
    [queue.pop()] takes, and [queue.append] conses.  [blocks] collects the
    matches found, latest first.  [None]: the rounds allowed by [fuel] are
    used up (see [matching_loop_total]). *)
Fixpoint matching_loop (fuel : nat) (queue : list (nat * nat * nat * nat))
    (blocks : list Match) : option (list Match) :=
  match queue with
  | [] => Some blocks
  | (alo, ahi, blo, bhi) :: queue' =>
      match fuel with
      | 0 => None
      | S fuel' =>
          let '(i, j, k) := find_longest_match alo ahi blo bhi in
          if k =? 0 then matching_loop fuel' queue' blocks
          else
            let q1 :=
              if (alo <? i) && (blo <? j)
              then (alo, i, blo, j) :: queue' else queue' in
            let q2 :=
              if (i + k <? ahi) && (j + k <? bhi)
              then (i + k, ahi, j + k, bhi) :: q1 else q1 in
            matching_loop fuel' q2 ((i, j, k) :: blocks)
      end
  end.

(** The blocks [get_matching_blocks] finds before it sorts them and merges
    adjacent ones; neither step changes the sum of the sizes, which is all
    [ratio] reads.  A window of [n] elements of [a] costs at most [2n+1]
    rounds. *)
Definition get_matching_blocks : option (list Match) :=
  matching_loop (2 * length a + 1) [(0, length a, 0, length b)] [].

(** [sum(triple[-1] for triple in self.get_matching_blocks())] *)
Definition matches : nat :=
  match get_matching_blocks with
  | Some blocks => list_sum (map (fun m : Match => snd m) blocks)
  | None => 0
  end.

(** [_calculate_ratio(matches, length)]: [2.0 * matches / length], and [1.0]
    when [length] is 0. *)
Definition calculate_ratio (matches length : nat) : Q :=
  match length with
  | 0 => 1%Q
  | S _ => (2 * inject_Z (Z.of_nat matches) / inject_Z (Z.of_nat length))%Q
  end.

(** [SequenceMatcher(None, a, b).ratio()] *)
Definition ratio : Q := calculate_ratio matches (length a + length b).

End Matcher.

End Difflib.

(* ===================================================================== *)
(** * Python floats *)
(* ===================================================================== *)

(** A [float]: a finite value, an infinity ([negative] for [-inf]) or NaN. *)
Inductive pyfloat : Type :=
| FNum (q : Q)
| FInf (negative : bool)
| FNaN.

Coercion FNum : Q >-> pyfloat.
Bind Scope Q_scope with pyfloat.

(** [a < b] on finite floats. *)
Definition Qltb (a b : Q) : bool :=
  match (a ?= b)%Q with Lt => true | _ => false end.

(** [a < b] *)
Definition flt (a b : pyfloat) : bool :=
  match a, b with
  | FNaN, _ | _, FNaN => false
  | FNum x, FNum y => Qltb x y
  | FNum _, FInf negative => negb negative
  | FInf negative, FNum _ => negative
  | FInf n1, FInf n2 => n1 && negb n2
  end.

(** [a == b] *)
Definition feq (a b : pyfloat) : bool :=
  match a, b with
  | FNum x, FNum y => Qeq_bool x y
  | FInf n1, FInf n2 => Bool.eqb n1 n2
  | _, _ => false
  end.

(** [a <= b] *)
Definition fle (a b : pyfloat) : bool := flt a b || feq a b.

(** The float is a number or an infinity. *)
Definition not_nan (a : pyfloat) : Prop := a <> FNaN.

(* ===================================================================== *)
(** * Python values, exceptions *)
(* ===================================================================== *)

(** A value of the configuration, as [yaml.safe_load] (or [json.loads])
    returns it.  A [float] is [PFloat], [PInf] or [PNaN]; [obj] names the
    object of a NaN, which is what tells two of them apart: a NaN is [==]
    to nothing, and [in] and the [==] of lists and mappings take an object
    to be equal to itself. *)
Inductive pyval : Type :=
| PNone
| PBool (b : bool)
| PInt (z : Z)
| PFloat (q : Q)
| PInf (negative : bool)
| PNaN (obj : nat)
| PStr (s : string)
| PList (l : list pyval)
| PDict (d : list (string * pyval)).

(** [d.get(key)] on the entries of a mapping. *)
Fixpoint dict_lookup (key : string) (d : list (string * pyval))
    : option pyval :=
  match d with
  | [] => None
  | (k, v) :: r => if String.eqb k key then Some v else dict_lookup key r
  end.

(** The number a [bool], [int] or [float] stands for. *)
Definition num_of (v : pyval) : option pyfloat :=
  match v with
  | PBool b => Some (FNum (if b then 1%Q else 0%Q))
  | PInt z => Some (FNum (inject_Z z))
  | PFloat q => Some (FNum q)
  | PInf negative => Some (FInf negative)
  | PNaN _ => Some FNaN
  | _ => None
  end.

(** [bool(v)] *)
Definition py_truthy (v : pyval) : bool :=
  match v with
  | PNone => false
  | PBool b => b
  | PInt z => negb (Z.eqb z 0)
  | PFloat q => negb (Qeq_bool q 0)
  | PInf _ | PNaN _ => true
  | PStr s => PyStr.truthy s
  | PList l => match l with [] => false | _ => true end
  | PDict d => match d with [] => false | _ => true end
  end.

(** [a is b or a == b], the test [in] and the [==] of lists and mappings
    make on elements: the same NaN object, or numbers equal by value,
    strings and lists by content, mappings by their entries whatever the
    order. *)
Fixpoint py_same (a b : pyval) {struct a} : bool :=
  match a, b with
  | PNone, PNone => true
  | PNaN i, PNaN j => Nat.eqb i j
  | PStr s, PStr t => String.eqb s t
  | PList l, PList m =>
      (fix all2 (l : list pyval) (m : list pyval) : bool :=
         match l, m with
         | [], [] => true
         | x :: l', y :: m' => py_same x y && all2 l' m'
         | _, _ => false
         end) l m
  | PDict d, PDict e =>
      (length d =? length e)
      && (fix all_in (d : list (string * pyval)) : bool :=
            match d with
            | [] => true
            | (k, v) :: d' =>
                match dict_lookup k e with
                | Some w => py_same v w
                | None => false
                end && all_in d'
            end) d
  | PBool _, _ | PInt _, _ | PFloat _, _ | PInf _, _ | PNaN _, _ =>
      match num_of a, num_of b with
      | Some x, Some y => feq x y
      | _, _ => false
      end
  | _, _ => false
  end.

(** [v] is a float NaN. *)
Definition is_nan (v : pyval) : bool :=
  match v with PNaN _ => true | _ => false end.

(** [a == b]: a NaN is equal to nothing, itself included. *)
Definition py_eqb (a b : pyval) : bool := negb (is_nan a) && py_same a b.

(** [x in l]: some element of [l] is [x] or equal to [x]. *)
Definition py_in (x : pyval) (l : list pyval) : bool :=
  existsb (fun y => py_same y x) l.

(** [type(v).__name__] *)
Definition type_name (v : pyval) : string :=
  match v with
  | PNone => "NoneType"
  | PBool _ => "bool"
  | PInt _ => "int"
  | PFloat _ | PInf _ | PNaN _ => "float"
  | PStr _ => "str"
  | PList _ => "list"
  | PDict _ => "dict"
  end.

(** An exception: its class and [str(e)]. *)
Record exn : Type := Exn { exn_class : string; exn_message : string }.

Inductive result (A : Type) : Type :=
| Ok (a : A)
| Raise (e : exn).

Arguments Ok {A} a.
Arguments Raise {A} e.

(** [v.attr] on a value that has no such attribute. *)
Definition AttributeError (v : pyval) (attr : string) : exn :=
  Exn "AttributeError"
    ("'" ++ type_name v ++ "' object has no attribute '" ++ attr ++ "'").

(* ===================================================================== *)
(** * News items and the deduplicator *)
(* ===================================================================== *)

(** The dict [_collect_one] builds for an entry, with the two keys [_dedup]
    may add.  [source], [source_id], [language], [tags] and [feed_url] are
    values of the configuration; [alt_links] and [alt_sources] are absent
    until a merge sets them. *)
Record Item : Type := mkItem {
  title : string;
  link : string;
  published_at : string;
  source : pyval;
  source_id : pyval;
  language : pyval;
  weight : pyfloat;
  tags : list pyval;
  raw_summary : string;
  feed_url : pyval;
  alt_links : option (list string);
  alt_sources : option (list pyval)
}.

Definition set_alt_links (l : list string) (k : Item) : Item :=
  mkItem (title k) (link k) (published_at k) (source k) (source_id k)
    (language k) (weight k) (tags k) (raw_summary k) (feed_url k)
    (Some l) (alt_sources k).

Definition set_alt_sources (l : list pyval) (k : Item) : Item :=
  mkItem (title k) (link k) (published_at k) (source k) (source_id k)
    (language k) (weight k) (tags k) (raw_summary k) (feed_url k)
    (alt_links k) (Some l).

(** [x in l] on a list of strings. *)
Definition str_in (x : string) (l : list string) : bool :=
  existsb (String.eqb x) l.

(** The sort key [(x.get("published_at", ""), x.get("weight", 0.0))]. *)
Definition sort_key (x : Item) : string * pyfloat :=
  (published_at x, weight x).

(** [k1 < k2] on such tuples: the first components that are not [==]
    decide, by [<].  A NaN weight is [==] to nothing and [<] nothing. *)
Definition key_ltb (k1 k2 : string * pyfloat) : bool :=
  if negb (String.eqb (fst k1) (fst k2)) then String.ltb (fst k1) (fst k2)
  else if negb (feq (snd k1) (snd k2)) then flt (snd k1) (snd k2)
  else false.

(** The list in decreasing order of the keys, items of equal keys in the
    order they have in the argument: what a stable sort with
    [reverse=True] returns when [<] orders the keys consistently.
    [insert_by key x l] puts [x], which stood before every element of [l],
    in front of the first element that is not above it. *)
Fixpoint insert_by (key : Item -> string * pyfloat) (x : Item)
    (l : list Item) : list Item :=
  match l with
  | [] => [x]
  | y :: r =>
      if key_ltb (key x) (key y) then y :: insert_by key x r else x :: l
  end.

Definition sorted_by (key : Item -> string * pyfloat) (items : list Item)
    : list Item :=
  fold_right (insert_by key) [] items.

(** The same for the key of [_dedup]. *)
Fixpoint insert_desc (x : Item) (l : list Item) : list Item :=
  match l with
  | [] => [x]
  | y :: r =>
      if key_ltb (sort_key x) (sort_key y) then y :: insert_desc x r
      else x :: l
  end.

Definition sorted_desc (items : list Item) : list Item :=
  fold_right insert_desc [] items.

(** [<] orders the keys of [l] consistently: "not below" is transitive on
    them (with irreflexivity and asymmetry, which [key_ltb] always has,
    this makes [<] a strict weak order on the keys of [l]). *)
Definition consistent (key : Item -> string * pyfloat) (l : list Item)
    : Prop :=
  forall x y z, In x l -> In y l -> In z l ->
    key_ltb (key x) (key y) = false -> key_ltb (key y) (key z) = false ->
    key_ltb (key x) (key z) = false.

(** What the Python library does and the embedding does not compute.

    [py_sorted key items] is [sorted(items, key=key, reverse=True)].  The
    result is a permutation of [items]; it is [sorted_by key items] when
    [<] orders the keys of [items] consistently.  Otherwise (a NaN weight
    next to two weights that differ, under one [published_at]) the result
    depends on how the sort proceeds, which is not modelled.

    [unicode_lower s] is [s.lower()] for a string [s] that has a character
    outside ASCII: the case mapping of the Unicode database, of which
    nothing is assumed. *)
Class PyLib : Type := {
  py_sorted : (Item -> string * pyfloat) -> list Item -> list Item;
  py_sorted_perm : forall key l, Permutation (py_sorted key l) l;
  py_sorted_consistent :
    forall key l, consistent key l -> py_sorted key l = sorted_by key l;
  unicode_lower : string -> string
}.

(** [s.lower()]: on a string that is not ASCII it is the library's. *)
Definition lower `{S : PyLib} (s : string) : string :=
  if PyStr.is_ascii s then PyStr.lower_ascii s else unicode_lower s.

(** [title_norm]: trimmed, lower case, white space collapsed. *)
Definition title_norm `{S : PyLib} (s : string) : string :=
  PyStr.sub_spaces (lower (PyStr.strip s)).

(** [title_sim]: 0.0 when a normalized title is empty, else the ratio of
    [SequenceMatcher] on the two sequences of characters. *)
Definition title_sim `{S : PyLib} (a b : string) : Q :=
  let a2 := title_norm a in
  let b2 := title_norm b in
  if negb (PyStr.truthy a2) || negb (PyStr.truthy b2) then 0%Q
  else Difflib.ratio String.eqb "" (PyStr.chars a2) (PyStr.chars b2).

(** The body of [if title_sim(...) >= threshold:], on the kept item [k]
    (the dict is updated in place), for the item [it] of link [u]. *)
Definition merge_into (it : Item) (k : Item) : Item :=
  let u := link it in
  (* k.setdefault("alt_links", []) *)
  let links := match alt_links k with Some l => l | None => [] end in
  let links' :=
    if PyStr.truthy u && negb (str_in u links) && negb (String.eqb u (link k))
    then links ++ [u] else links in
  (* k.setdefault("alt_sources", []) *)
  let sources := match alt_sources k with Some l => l | None => [] end in
  let s := source it in
  let sources' :=
    if py_truthy s && negb (py_in s sources) && negb (py_eqb s (source k))
    then sources ++ [s] else sources in
  set_alt_sources sources' (set_alt_links links' k).

(** [title_sim(it.get("title", ""), k.get("title", "")) >= threshold] *)
Definition similar `{S : PyLib} (threshold : pyfloat) (it k : Item) : bool :=
  fle threshold (FNum (title_sim (title it) (title k))).

(** The loop [for k in kept]: the first kept item that is similar enough
    takes the merge and the loop breaks.  [None] is [is_dup = False]. *)
Fixpoint merge_first `{S : PyLib} (threshold : pyfloat) (it : Item) (kept : list Item)
    : option (list Item) :=
  match kept with
  | [] => None
  | k :: rest =>
      if similar threshold it k then Some (merge_into it k :: rest)
      else
        match merge_first threshold it rest with
        | Some rest' => Some (k :: rest')
        | None => None
        end
  end.

(** The state of the outer loop: [seen_url] and [kept]. *)
Definition DedupState : Type := gset string * list Item.

(** One round of [for it in sorted(...)]. *)
Definition dedup_step `{S : PyLib} (threshold : pyfloat) (st : DedupState) (it : Item)
    : DedupState :=
  let '(seen_url, kept) := st in
  let u := link it in
  if PyStr.truthy u && bool_decide (u ∈ seen_url) then st
  else
    match merge_first threshold it kept with
    | Some kept' => (seen_url, kept')
    | None =>
        (if PyStr.truthy u then {[u]} ∪ seen_url else seen_url, kept ++ [it])
    end.

Definition dedup_loop `{S : PyLib} (threshold : pyfloat) (its : list Item)
    (st : DedupState) : DedupState :=
  fold_left (dedup_step threshold) its st.

(** [_dedup], with the [threshold] of the enclosing [collect]. *)
Definition _dedup `{S : PyLib} (threshold : pyfloat) (items : list Item)
    : list Item :=
  snd (dedup_loop threshold (py_sorted sort_key items) (∅, [])).

(* ===================================================================== *)
(** * Feeds: the XML tree and the entries read from it *)
(* ===================================================================== *)

(** An [xml.etree.ElementTree.Element]: its tag ("{namespace}local" or
    "local"), attributes, text and children. *)
Inductive Element : Type :=
| mkElement (tag : string) (attrib : list (string * string))
    (text : option string) (children : list Element).

Definition tag (e : Element) : string :=
  match e with mkElement t _ _ _ => t end.

Definition attrib (e : Element) : list (string * string) :=
  match e with mkElement _ a _ _ => a end.

Definition text (e : Element) : option string :=
  match e with mkElement _ _ t _ => t end.

Definition children (e : Element) : list Element :=
  match e with mkElement _ _ _ c => c end.

(** [attrib.get(key)] *)
Fixpoint attrib_get (key : string) (a : list (string * string))
    : option string :=
  match a with
  | [] => None
  | (k, v) :: r => if String.eqb k key then Some v else attrib_get key r
  end.

(** [_text]: the trimmed text of an element, [""] when there is none. *)
Definition _text (el : option Element) : string :=
  match el with
  | Some e => match text e with Some t => PyStr.strip t | None => "" end
  | None => ""
  end.

Fixpoint after_first (c : ascii) (s : string) : option string :=
  match s with
  | EmptyString => None
  | String x r => if Ascii.eqb x c then Some r else after_first c r
  end.

(** [strip_ns]: [tag.split('}', 1)[-1] if '}' in tag else tag]. *)
Definition strip_ns (tag : string) : string :=
  match after_first "}" tag with Some r => r | None => tag end.

(** [next((c for c in el if strip_ns(c.tag) in names), None)] *)
Definition first_child (names : list string) (el : Element)
    : option Element :=
  List.find (fun c => str_in (strip_ns (tag c)) names) (children el).

(** [[c for c in el if strip_ns(c.tag) == name]] *)
Definition children_named (name : string) (el : Element) : list Element :=
  List.filter (fun c => String.eqb (strip_ns (tag c)) name) (children el).

Definition ends_with (suffix s : string) : bool :=
  let n := String.length s in
  let m := String.length suffix in
  (m <=? n) && String.eqb (substring (n - m) m s) suffix.

(** [el.findall('./{*}link')]: the children whose tag is "link" in any
    namespace or in none. *)
Definition findall_link (el : Element) : list Element :=
  List.filter
    (fun c => String.eqb (tag c) "link" || ends_with "}link" (tag c))
    (children el).

(** An entry as [parse_items] returns it. *)
Module Entry.
Record t : Type := mk {
  title : string;
  link : string;
  published_at : option string;
  raw_summary : string
}.
End Entry.

(** A source of the configuration: the dataclass [Source]. *)
Module Source.
Record t : Type := mk {
  id : pyval;
  name : pyval;
  type : pyval;
  url : pyval;
  url_template : pyval;
  query : pyval;
  language : pyval;
  weight : pyfloat;
  tags : list pyval
}.
End Source.

(** An entry [{"source": ..., "error": ...}] of a region's error list. *)
Module ErrorEntry.
Record t : Type := mk { source : pyval; error : string }.
End ErrorEntry.

(** What [collect] returns for a region, and as a whole. *)
Module Region.
Record t : Type := mk {
  items : list Item;
  errors : list ErrorEntry.t;
  sources : list pyval
}.
End Region.

Module Collection.
Record t : Type := mk {
  generated_at : string;
  window_hours : pyfloat;
  cutoff_utc : string;
  regions : list (string * Region.t)
}.
End Collection.

(* ===================================================================== *)
(** * The outside world *)
(* ===================================================================== *)

(** What the collector asks of the Python library and of the world.  An
    instant is a number of microseconds. *)
Class Platform : Type := {
  (** the state of the clock and of the network *)
  World : Type;
  (** [datetime.now(timezone.utc)] *)
  clock_now : World -> Z * World;
  (** [requests.get(url, headers=..., timeout=25)], [r.raise_for_status()]
      and [ET.fromstring(r.content)] *)
  http_get_xml : pyval -> World -> result Element * World;
  (** [now - timedelta(hours=h)] *)
  minus_hours : Z -> pyfloat -> result Z;
  (** [dt.isoformat()] *)
  isoformat : Z -> string;
  (** [parsedate_to_datetime(s)], taken as UTC when it has no zone, as an
      instant; [None] when one of the calls raises *)
  parsedate_utc : string -> option Z;
  (** [datetime.fromisoformat(s)], taken as UTC when it has no zone *)
  fromisoformat_utc : string -> option Z;
  (** [datetime.fromisoformat(s).astimezone(timezone.utc)] *)
  fromisoformat_astimezone : string -> option Z;
  (** [float(s)] for a [str] *)
  float_of_str : string -> result pyfloat;
  (** [float(n)] for an [int] *)
  float_of_int : Z -> result pyfloat;
  (** [template.format(query=quote(query, safe=""))] *)
  format_query : pyval -> pyval -> result pyval;
  (** [f"{v}"] *)
  py_str : pyval -> string
}.

Section Collector.

Context `{P : Platform} `{S : PyLib}.

(** ** Computations that may raise *)

Definition bindR {A B : Type} (r : result A) (f : A -> result B)
    : result B :=
  match r with Ok a => f a | Raise e => Raise e end.

(** The state of a run: the world, and the URLs requested so far. *)
Record RunState : Type := mkRun {
  world : World;
  requested : list pyval
}.

Definition M (A : Type) : Type := RunState -> result A * RunState.

Definition ret {A : Type} (a : A) : M A := fun st => (Ok a, st).

Definition bind {A B : Type} (m : M A) (f : A -> M B) : M B :=
  fun st =>
    match m st with
    | (Ok a, st') => f a st'
    | (Raise e, st') => (Raise e, st')
    end.

Definition lift {A : Type} (r : result A) : M A := fun st => (r, st).

(** [try: ... except Exception as e: ...]: the outcome of [m], as a value. *)
Definition try_ {A : Type} (m : M A) : M (result A) :=
  fun st => let '(r, st') := m st in (Ok r, st').

(** [now_utc] *)
Definition now_utc : M Z :=
  fun st =>
    let '(t, w) := clock_now (world st) in (Ok t, mkRun w (requested st)).

(** [fetch_xml] *)
Definition fetch_xml (url : pyval) : M Element :=
  fun st =>
    let '(r, w) := http_get_xml url (world st) in
    (r, mkRun w (requested st ++ [url])).

(** ** Normalization *)

(** [parse_dt_str] *)
Definition parse_dt_str (s : string) : option Z :=
  let s := PyStr.strip s in
  if negb (PyStr.truthy s) then None
  else
    match parsedate_utc s with
    | Some dt => Some dt
    | None => fromisoformat_utc (PyStr.replace_char "Z" "+00:00" s)
    end.

(** The loop [for l in it.findall('./{*}link')] of [parse_items]. *)
Fixpoint atom_alternate (links : list Element) : string :=
  match links with
  | [] => ""
  | l :: rest =>
      let href := attrib_get "href" (attrib l) in
      let rel :=
        match attrib_get "rel" (attrib l) with
        | Some r => r
        | None => "alternate"
        end in
      match href with
      | Some h =>
          if PyStr.truthy h && String.eqb rel "alternate" then h
          else atom_alternate rest
      | None => atom_alternate rest
      end
  end.

Definition atom_link (it : Element) : string :=
  let link := atom_alternate (findall_link it) in
  if negb (PyStr.truthy link) then
    match findall_link it with
    | l :: _ =>
        match attrib_get "href" (attrib l) with
        | Some h => if PyStr.truthy h then h else link
        | None => link
        end
    | [] => link
    end
  else link.

(** The loop [for key in ("pubDate", "published", "updated")]. *)
Fixpoint first_date (keys : list string) (it : Element) : option Z :=
  match keys with
  | [] => None
  | key :: rest =>
      match parse_dt_str (_text (first_child [key] it)) with
      | Some dt => Some dt
      | None => first_date rest it
      end
  end.

(** [parse_items] *)
Definition parse_items (root : Element) : list Entry.t :=
  let is_feed := String.eqb (strip_ns (tag root)) "feed" in
  let candidates :=
    if String.eqb (strip_ns (tag root)) "rss" then
      match first_child ["channel"] root with
      | Some channel => children_named "item" channel
      | None => []
      end
    else if is_feed then children_named "entry" root
    else [] in
  flat_map
    (fun it =>
       let title := _text (first_child ["title"] it) in
       let link :=
         if is_feed then atom_link it
         else _text (first_child ["link"] it) in
       let dt := first_date ["pubDate"; "published"; "updated"] it in
       let summary :=
         _text (first_child ["description"; "summary"; "content"] it) in
       if negb (PyStr.truthy title) && negb (PyStr.truthy link) then []
       else [Entry.mk title link (option_map isoformat dt) summary])
    candidates.

(** ** The configuration *)

(** [v.get(key, default)]: a mapping answers, anything else has no [get]. *)
Definition dict_get (v : pyval) (key : string) (default : pyval)
    : result pyval :=
  match v with
  | PDict d =>
      Ok (match dict_lookup key d with Some x => x | None => default end)
  | _ => Raise (AttributeError v "get")
  end.

(** [v[1]] *)
Definition subscript_1 (v : pyval) : result pyval :=
  match v with
  | PList l =>
      match nth_error l 1 with
      | Some x => Ok x
      | None => Raise (Exn "IndexError" "list index out of range")
      end
  | PStr s =>
      match nth_error (PyStr.chars s) 1 with
      | Some ch => Ok (PStr ch)
      | None => Raise (Exn "IndexError" "string index out of range")
      end
  | PDict _ => Raise (Exn "KeyError" "1")
  | _ =>
      Raise (Exn "TypeError"
               ("'" ++ type_name v ++ "' object is not subscriptable"))
  end.

(** [float(v)] *)
Definition py_float (v : pyval) : result pyfloat :=
  match v with
  | PFloat q => Ok (FNum q)
  | PInf negative => Ok (FInf negative)
  | PNaN _ => Ok FNaN
  | PInt z => float_of_int z
  | PBool b => Ok (FNum (if b then 1%Q else 0%Q))
  | PStr s => float_of_str s
  | _ =>
      Raise (Exn "TypeError"
               ("float() argument must be a string or a real number, not '"
                ++ type_name v ++ "'"))
  end.

(** [list(v)], and the elements [for s in v] visits. *)
Definition py_list (v : pyval) : result (list pyval) :=
  match v with
  | PList l => Ok l
  | PStr s =>
      Ok (map PStr (PyStr.chars s))
  | PDict d => Ok (map (fun kv => PStr (fst kv)) d)
  | _ =>
      Raise (Exn "TypeError" ("'" ++ type_name v ++ "' object is not iterable"))
  end.

(** [v or []] *)
Definition or_empty_list (v : pyval) : pyval :=
  if py_truthy v then v else PList [].

(** The threshold of [collect]:
    [float(cfg.get("global", {}).get("deduplication", {})
              .get("rules", [{}, {}])[1].get("threshold", 0.9))]. *)
Definition get_threshold (cfg : pyval) : result pyfloat :=
  bindR (dict_get cfg "global" (PDict [])) (fun g =>
  bindR (dict_get g "deduplication" (PDict [])) (fun d =>
  bindR (dict_get d "rules" (PList [PDict []; PDict []])) (fun rules =>
  bindR (subscript_1 rules) (fun rule =>
  bindR (dict_get rule "threshold" (PFloat (9 # 10))) py_float)))).

(** [Source(id=s.get("id"), ..., weight=float(s.get("weight", 1.0)),
    tags=list(s.get("tags", []) or []))] *)
Definition read_source (s : pyval) : result Source.t :=
  bindR (dict_get s "id" PNone) (fun id =>
  bindR (dict_get s "name" PNone) (fun name =>
  bindR (dict_get s "type" PNone) (fun type =>
  bindR (dict_get s "url" PNone) (fun url =>
  bindR (dict_get s "url_template" PNone) (fun url_template =>
  bindR (dict_get s "query" PNone) (fun query =>
  bindR (dict_get s "language" PNone) (fun language =>
  bindR (dict_get s "weight" (PFloat 1)) (fun w =>
  bindR (py_float w) (fun weight =>
  bindR (dict_get s "tags" (PList [])) (fun t =>
  bindR (py_list (or_empty_list t)) (fun tags =>
  Ok (Source.mk id name type url url_template query language weight
        tags)))))))))))).

Fixpoint read_sources (l : list pyval) : result (list Source.t) :=
  match l with
  | [] => Ok []
  | s :: rest =>
      bindR (read_source s) (fun src =>
      bindR (read_sources rest) (fun srcs => Ok (src :: srcs)))
  end.

(** The loop [for tier in block.values()] of [_read_block]. *)
Fixpoint read_tiers (tiers : list pyval) : result (list Source.t) :=
  match tiers with
  | [] => Ok []
  | tier :: rest =>
      match tier with
      | PDict _ =>
          bindR (dict_get tier "sources" (PList [])) (fun v =>
          bindR (py_list (or_empty_list v)) (fun l =>
          bindR (read_sources l) (fun out1 =>
          bindR (read_tiers rest) (fun out2 => Ok (out1 ++ out2)))))
      | _ => read_tiers rest
      end
  end.

Definition _read_block (block : pyval) : result (list Source.t) :=
  match block with
  | PDict d => read_tiers (map snd d)
  | _ => Raise (AttributeError block "values")
  end.

(** [load_sources]: the sources of the two regions, in the order of the
    dict it returns. *)
Definition load_sources (cfg : pyval)
    : result (list (string * list Source.t)) :=
  bindR (dict_get cfg "taiwan" (PDict [])) (fun b1 =>
  bindR (_read_block b1) (fun taiwan =>
  bindR (dict_get cfg "global_markets" (PDict [])) (fun b2 =>
  bindR (_read_block b2) (fun global =>
  Ok [("taiwan", taiwan); ("global", global)])))).

(** [build_url] *)
Definition build_url (src : Source.t) : result pyval :=
  if negb (py_eqb (Source.type src) (PStr "rss")) then
    Raise (Exn "ValueError"
             ("Unsupported source type: " ++ py_str (Source.type src)))
  else if py_truthy (Source.url src) then Ok (Source.url src)
  else if py_truthy (Source.url_template src)
          && negb (py_eqb (Source.query src) PNone)
  then format_query (Source.url_template src) (Source.query src)
  else
    Raise (Exn "ValueError"
             ("Source " ++ py_str (Source.id src)
              ++ " missing url or url_template")).

(** ** Collection *)

(** [canonical_url] *)
Definition canonical_url (u : string) : string := PyStr.strip u.

(** The date of an entry, as [_collect_one] reads it back: [None] when
    [published_at] is missing, empty or does not parse. *)
Definition entry_date (e : Entry.t) : option Z :=
  match Entry.published_at e with
  | Some s =>
      if PyStr.truthy s
      then fromisoformat_astimezone (PyStr.replace_char "Z" "+00:00" s)
      else None
  | None => None
  end.

(** One round of [for e in parsed]: the item appended, if any. *)
Definition keep_entry (cutoff : Z) (src : Source.t) (url : pyval)
    (e : Entry.t) : option Item :=
  match entry_date e with
  | None => None
  | Some dt =>
      if (dt <? cutoff)%Z then None
      else
        Some (mkItem (PyStr.strip (Entry.title e))
                (canonical_url (Entry.link e))
                (isoformat dt)
                (Source.name src) (Source.id src) (Source.language src)
                (Source.weight src) (Source.tags src)
                (PyStr.strip (Entry.raw_summary e))
                url None None)
  end.

Fixpoint keep_entries (cutoff : Z) (src : Source.t) (url : pyval)
    (parsed : list Entry.t) : list Item :=
  match parsed with
  | [] => []
  | e :: rest =>
      match keep_entry cutoff src url e with
      | Some it => it :: keep_entries cutoff src url rest
      | None => keep_entries cutoff src url rest
      end
  end.

(** [_collect_one], with the [cutoff] of the enclosing [collect]. *)
Definition _collect_one (cutoff : Z) (src : Source.t) : M (list Item) :=
  bind (lift (build_url src)) (fun url =>
  bind (fetch_xml url) (fun root =>
  ret (keep_entries cutoff src url (parse_items root)))).

(** The loop [for src in srcs], with its [try] and [except Exception]. *)
Fixpoint collect_sources (cutoff : Z) (srcs : list Source.t)
    (all_items : list Item) (errors : list ErrorEntry.t)
    : M (list Item * list ErrorEntry.t) :=
  match srcs with
  | [] => ret (all_items, errors)
  | src :: rest =>
      bind (try_ (_collect_one cutoff src)) (fun r =>
      match r with
      | Ok its => collect_sources cutoff rest (all_items ++ its) errors
      | Raise e =>
          collect_sources cutoff rest all_items
            (errors ++ [ErrorEntry.mk (Source.id src) (exn_message e)])
      end)
  end.

(** The loop [for region, srcs in sources.items()]. *)
Fixpoint collect_regions (threshold : pyfloat) (cutoff : Z)
    (sources : list (string * list Source.t))
    : M (list (string * Region.t)) :=
  match sources with
  | [] => ret []
  | (region, srcs) :: rest =>
      bind (collect_sources cutoff srcs [] []) (fun '(all_items, errors) =>
      bind (collect_regions threshold cutoff rest) (fun regions =>
      ret ((region,
            Region.mk (_dedup threshold all_items) errors
              (map Source.id srcs)) :: regions)))
  end.

(** [collect], from the configuration [_load_yaml] returned. *)
Definition collect (cfg : pyval) (window_hours : pyfloat)
    : M Collection.t :=
  bind (lift (get_threshold cfg)) (fun threshold =>
  bind (lift (load_sources cfg)) (fun sources =>
  bind now_utc (fun now =>
  bind (lift (minus_hours now window_hours)) (fun cutoff =>
  bind now_utc (fun generated =>
  bind (collect_regions threshold cutoff sources) (fun regions =>
  ret (Collection.mk (isoformat generated) window_hours (isoformat cutoff)
         regions))))))).

End Collector.

(* ===================================================================== *)
(** * The matcher returns *)
(* ===================================================================== *)

(** The rounds [get_matching_blocks] allows are never used up: a match found
    in a window lies inside the window, so that the two windows it leaves
    are smaller by the size of the match. *)
Section MatcherFacts.

Context {A : Type} (eqb : A -> A -> bool) (dflt : A).

Variables a b : list A.

(** A match that lies in the rows [alo .. i-1] of [a]. *)
Definition inside (alo i : nat) (m : Difflib.Match) : Prop :=
  let '(besti, _, bestsize) := m in alo <= besti /\ besti + bestsize <= i.

(** No match recorded in [j2len] is longer than [n]. *)
Definition lengths_le (n : nat) (j2len : list (nat * nat)) : Prop :=
  forall j, Difflib.j2len_get j2len j <= n.

Lemma scan_row_inside j2len alo i blo bhi js : forall newj2len best,
  alo <= i ->
  lengths_le (i - alo) j2len ->
  lengths_le (S i - alo) newj2len ->
  inside alo (S i) best ->
  lengths_le (S i - alo)
    (fst (Difflib.scan_row j2len i blo bhi js newj2len best))
  /\ inside alo (S i)
       (snd (Difflib.scan_row j2len i blo bhi js newj2len best)).
Proof.
  induction js as [|j rest IH]; intros newj2len best Hi Hj Hn Hb; simpl.
  - auto.
  - destruct (j <? blo); [apply IH; assumption|].
    destruct (bhi <=? j); [auto|].
    set (k := S (match j with 0 => 0 | S j' => Difflib.j2len_get j2len j' end)).
    assert (Hk : k <= S i - alo).
    { unfold k. destruct j as [|j']; [lia|].
      specialize (Hj j'). lia. }
    apply IH; try assumption.
    + intros j0. simpl. destruct (j =? j0); [exact Hk|apply Hn].
    + destruct best as [[besti bestj] bestsize].
      destruct (bestsize <? k); [|exact Hb].
      unfold inside. lia.
Qed.

Lemma scan_rows_inside n : forall i alo blo bhi j2len best,
  alo <= i ->
  lengths_le (i - alo) j2len ->
  inside alo i best ->
  inside alo (i + n) (Difflib.scan_rows eqb dflt a b n i blo bhi j2len best).
Proof.
  induction n as [|n IH]; intros i alo blo bhi j2len best Hi Hj Hb; simpl.
  - rewrite Nat.add_0_r. exact Hb.
  - destruct (Difflib.scan_row j2len i blo bhi
                (Difflib.b2j eqb b (Difflib.at_ dflt a i)) [] best)
      as [newj2len best'] eqn:E.
    assert (Hb' : inside alo (S i) best).
    { destruct best as [[besti bestj] bestsize]. unfold inside in *. lia. }
    pose proof (scan_row_inside j2len alo i blo bhi
                  (Difflib.b2j eqb b (Difflib.at_ dflt a i)) [] best Hi Hj
                  (fun j => Nat.le_0_l _) Hb') as [H1 H2].
    rewrite E in H1, H2. simpl in H1, H2.
    replace (i + S n) with (S i + n) by lia.
    apply IH; [lia|assumption|assumption].
Qed.

Lemma extend_left_inside fuel : forall junk alo blo ahi m,
  inside alo ahi m ->
  inside alo ahi (Difflib.extend_left eqb dflt a b fuel junk alo blo m).
Proof.
  induction fuel as [|fuel IH]; intros junk alo blo ahi m Hm; simpl;
    [exact Hm|].
  destruct (Difflib.can_extend_left eqb dflt a b junk alo blo m) eqn:E; [|exact Hm].
  destruct m as [[besti bestj] bestsize]. unfold Difflib.can_extend_left in E.
  rewrite !andb_true_iff in E. destruct E as [[[E _] _] _].
  apply Nat.ltb_lt in E. apply IH. unfold inside in *. lia.
Qed.

Lemma extend_right_inside fuel : forall junk alo ahi bhi m,
  inside alo ahi m ->
  inside alo ahi (Difflib.extend_right eqb dflt a b fuel junk ahi bhi m).
Proof.
  induction fuel as [|fuel IH]; intros junk alo ahi bhi m Hm; simpl;
    [exact Hm|].
  destruct (Difflib.can_extend_right eqb dflt a b junk ahi bhi m) eqn:E; [|exact Hm].
  destruct m as [[besti bestj] bestsize]. unfold Difflib.can_extend_right in E.
  rewrite !andb_true_iff in E. destruct E as [[[E _] _] _].
  apply Nat.ltb_lt in E. apply IH. unfold inside in *. lia.
Qed.

(** With as many rounds as there are rows above the match, the loop to the
    left runs until its test fails. *)
Lemma extend_left_stops fuel : forall junk alo blo m,
  fst (fst m) <= alo + fuel ->
  Difflib.can_extend_left eqb dflt a b junk alo blo
    (Difflib.extend_left eqb dflt a b fuel junk alo blo m) = false.
Proof.
  induction fuel as [|fuel IH]; intros junk alo blo m Hm; simpl.
  - destruct m as [[besti bestj] bestsize]. simpl in *.
    replace (alo <? besti) with false
      by (symmetry; apply Nat.ltb_ge; lia).
    reflexivity.
  - destruct (Difflib.can_extend_left eqb dflt a b junk alo blo m) eqn:E; [|exact E].
    destruct m as [[besti bestj] bestsize]. unfold Difflib.can_extend_left in E.
    rewrite !andb_true_iff in E. destruct E as [[[E _] _] _].
    apply Nat.ltb_lt in E. apply IH. simpl in *. lia.
Qed.

(** Likewise to the right, with as many rounds as there are rows below. *)
Lemma extend_right_stops fuel : forall junk ahi bhi m,
  ahi <= fst (fst m) + snd m + fuel ->
  Difflib.can_extend_right eqb dflt a b junk ahi bhi
    (Difflib.extend_right eqb dflt a b fuel junk ahi bhi m) = false.
Proof.
  induction fuel as [|fuel IH]; intros junk ahi bhi m Hm; simpl.
  - destruct m as [[besti bestj] bestsize]. simpl in *.
    replace (besti + bestsize <? ahi) with false
      by (symmetry; apply Nat.ltb_ge; lia).
    reflexivity.
  - destruct (Difflib.can_extend_right eqb dflt a b junk ahi bhi m) eqn:E; [|exact E].
    destruct m as [[besti bestj] bestsize]. unfold Difflib.can_extend_right in E.
    rewrite !andb_true_iff in E. destruct E as [[[E _] _] _].
    apply Nat.ltb_lt in E. apply IH. simpl in *. lia.
Qed.

Lemma find_longest_match_inside alo ahi blo bhi :
  alo <= ahi ->
  inside alo ahi (Difflib.find_longest_match eqb dflt a b alo ahi blo bhi).
Proof.
  intros H. unfold Difflib.find_longest_match.
  apply extend_right_inside, extend_left_inside, extend_right_inside,
    extend_left_inside.
  replace ahi with (alo + (ahi - alo)) at 1 by lia.
  apply scan_rows_inside; [lia| |unfold inside; lia].
  intros j. simpl. lia.
Qed.

(** The four [while] loops of [find_longest_match] run to their end. *)
Lemma find_longest_match_loops alo ahi blo bhi :
  alo <= ahi ->
  let m1 := Difflib.scan_rows eqb dflt a b (ahi - alo) alo blo bhi [] (alo, blo, 0) in
  let m2 := Difflib.extend_left eqb dflt a b ahi false alo blo m1 in
  let m3 := Difflib.extend_right eqb dflt a b ahi false ahi bhi m2 in
  let m4 := Difflib.extend_left eqb dflt a b ahi true alo blo m3 in
  let m5 := Difflib.extend_right eqb dflt a b ahi true ahi bhi m4 in
  Difflib.find_longest_match eqb dflt a b alo ahi blo bhi = m5
  /\ Difflib.can_extend_left eqb dflt a b false alo blo m2 = false
  /\ Difflib.can_extend_right eqb dflt a b false ahi bhi m3 = false
  /\ Difflib.can_extend_left eqb dflt a b true alo blo m4 = false
  /\ Difflib.can_extend_right eqb dflt a b true ahi bhi m5 = false.
Proof.
  intros H m1 m2 m3 m4 m5.
  assert (H1 : inside alo ahi m1).
  { unfold m1. replace ahi with (alo + (ahi - alo)) at 1 by lia.
    apply scan_rows_inside; [lia| |unfold inside; lia].
    intros j. simpl. lia. }
  assert (H2 : inside alo ahi m2) by apply extend_left_inside, H1.
  assert (H3 : inside alo ahi m3) by apply extend_right_inside, H2.
  assert (H4 : inside alo ahi m4) by apply extend_left_inside, H3.
  split; [reflexivity|].
  repeat split.
  - apply extend_left_stops. destruct m1 as [[i j] k]. simpl in *. lia.
  - apply extend_right_stops. lia.
  - apply extend_left_stops. destruct m3 as [[i j] k]. simpl in *. lia.
  - apply extend_right_stops. lia.
Qed.

(** The rounds a queue of windows can cost. *)
Definition queue_cost (queue : list (nat * nat * nat * nat)) : nat :=
  list_sum (map (fun w => let '(alo, ahi, _, _) := w in 2 * (ahi - alo) + 1)
              queue).

Definition window_ok (w : nat * nat * nat * nat) : Prop :=
  let '(alo, ahi, _, _) := w in alo <= ahi.

Lemma queue_cost_cons alo ahi blo bhi queue :
  queue_cost ((alo, ahi, blo, bhi) :: queue)
  = 2 * (ahi - alo) + 1 + queue_cost queue.
Proof. reflexivity. Qed.

Lemma matching_loop_enough fuel : forall queue blocks,
  Forall window_ok queue -> queue_cost queue <= fuel ->
  exists r, Difflib.matching_loop eqb dflt a b fuel queue blocks = Some r.
Proof.
  induction fuel as [|fuel IH]; intros queue blocks Hq Hc.
  - destruct queue as [|[[[alo ahi] blo] bhi] queue]; simpl.
    + eauto.
    + rewrite queue_cost_cons in Hc. lia.
  - destruct queue as [|[[[alo ahi] blo] bhi] queue]; simpl; [eauto|].
    inversion Hq as [|? ? Hw Hq']; subst. simpl in Hw.
    rewrite queue_cost_cons in Hc.
    pose proof (find_longest_match_inside alo ahi blo bhi Hw) as Hin.
    destruct (Difflib.find_longest_match eqb dflt a b alo ahi blo bhi)
      as [[i j] k]. simpl in Hin.
    destruct (k =? 0) eqn:Ek; [apply IH; [assumption|lia]|].
    apply Nat.eqb_neq in Ek. apply IH.
    + destruct ((i + k <? ahi) && (j + k <? bhi)) eqn:E2;
        destruct ((alo <? i) && (blo <? j)) eqn:E1;
        repeat constructor; simpl; try assumption; lia.
    + destruct ((i + k <? ahi) && (j + k <? bhi)) eqn:E2;
        destruct ((alo <? i) && (blo <? j)) eqn:E1;
        rewrite ?queue_cost_cons; lia.
Qed.

(** [get_matching_blocks] returns. *)
Lemma matching_loop_total :
  exists blocks, Difflib.get_matching_blocks eqb dflt a b = Some blocks.
Proof.
  unfold Difflib.get_matching_blocks. apply matching_loop_enough.
  - repeat constructor. simpl. lia.
  - unfold queue_cost. simpl. lia.
Qed.

End MatcherFacts.

(* ===================================================================== *)
(** * Facts about the order of sort keys *)
(* ===================================================================== *)

Section KeyOrder.

Implicit Types k : string * pyfloat.

Lemma String_ltb_lt (s1 s2 : string) :
  String.ltb s1 s2 = true <-> String_as_OT.lt s1 s2.
Proof.
  unfold String.ltb. rewrite <- String_as_OT.cmp_lt. unfold String_as_OT.cmp.
  destruct (String.compare s1 s2); split; congruence.
Qed.

Lemma String_lt_cases (s1 s2 : string) :
  String_as_OT.lt s1 s2 \/ s1 = s2 \/ String_as_OT.lt s2 s1.
Proof.
  destruct (String_as_OT.compare s1 s2) as [H|H|H]; auto.
Qed.

Lemma String_lt_irrefl (s : string) : ~ String_as_OT.lt s s.
Proof. intros H. exact (String_as_OT.lt_not_eq _ _ H eq_refl). Qed.

Lemma Qltb_lt (a b : Q) : Qltb a b = true <-> (a < b)%Q.
Proof.
  unfold Qltb. rewrite Qlt_alt. destruct (a ?= b)%Q; split; congruence.
Qed.

Lemma Qltb_false (a b : Q) : Qltb a b = false <-> (b <= a)%Q.
Proof.
  rewrite <- not_true_iff_false, Qltb_lt. split.
  - apply Qnot_lt_le.
  - intros H H'. exact (Qlt_not_le _ _ H' H).
Qed.

(** ** Floats *)

Lemma feq_flt (a b : pyfloat) : feq a b = true -> flt a b = false.
Proof.
  destruct a as [x|n1|], b as [y|n2|]; simpl; try congruence.
  - intros H. apply Qeq_bool_iff in H. apply Qltb_false.
    rewrite H. apply Qle_refl.
  - destruct n1, n2; simpl; congruence.
Qed.

Lemma flt_asym (a b : pyfloat) : flt a b = true -> flt b a = false.
Proof.
  destruct a as [x|n1|], b as [y|n2|]; simpl; try congruence.
  - rewrite Qltb_lt, Qltb_false. apply Qlt_le_weak.
  - destruct n2; simpl; congruence.
  - destruct n1; simpl; congruence.
  - destruct n1, n2; simpl; congruence.
Qed.

Lemma flt_irrefl (a : pyfloat) : flt a a = false.
Proof.
  destruct a as [x|n|]; simpl; [|destruct n|]; try reflexivity.
  apply Qltb_false, Qle_refl.
Qed.

(** "Not below" is transitive through a float that is not NaN. *)
Lemma fge_trans (a b c : pyfloat) :
  not_nan b -> flt a b = false -> flt b c = false -> flt a c = false.
Proof.
  unfold not_nan.
  destruct a as [x|n1|], b as [y|n2|], c as [z|n3|]; simpl;
    try congruence; try (destruct n1); try (destruct n2); try (destruct n3);
    simpl; try congruence.
  rewrite !Qltb_false. intros _ H1 H2. exact (Qle_trans _ _ _ H2 H1).
Qed.

(** ** Keys *)

(** [key_ltb] is the lexicographic comparison. *)
Lemma key_ltb_spec k1 k2 :
  key_ltb k1 k2 = true <->
  String_as_OT.lt (fst k1) (fst k2)
  \/ (fst k1 = fst k2 /\ flt (snd k1) (snd k2) = true).
Proof.
  destruct k1 as [p1 w1], k2 as [p2 w2]; unfold key_ltb; simpl.
  destruct (String.eqb_spec p1 p2) as [->|Hne]; simpl.
  - destruct (feq w1 w2) eqn:Hw; simpl.
    + apply feq_flt in Hw. split; [discriminate|].
      intros [H|[_ H]]; [destruct (String_lt_irrefl _ H)|congruence].
    + split; [auto|].
      intros [H|[_ H]]; [destruct (String_lt_irrefl _ H)|assumption].
  - rewrite String_ltb_lt. split; [auto|]. intros [H|[H _]]; [assumption|].
    contradiction.
Qed.

Lemma key_ltb_false k1 k2 :
  key_ltb k1 k2 = false <->
  String_as_OT.lt (fst k2) (fst k1)
  \/ (fst k1 = fst k2 /\ flt (snd k1) (snd k2) = false).
Proof.
  rewrite <- not_true_iff_false, key_ltb_spec.
  destruct (String_lt_cases (fst k1) (fst k2)) as [H|[H|H]].
  - split; [tauto|]. intros [H'|[H' _]].
    + destruct (String_lt_irrefl _ (String_as_OT.lt_trans _ _ _ H H')).
    + rewrite H' in H. destruct (String_lt_irrefl _ H).
  - rewrite H. split.
    + intros Hn. right. split; [reflexivity|].
      apply not_true_iff_false. tauto.
    + intros [H'|[_ H']] [H''|[_ H'']];
        try (eapply String_lt_irrefl; eassumption).
      congruence.
  - split; [tauto|]. intros _ [H'|[H' _]].
    + destruct (String_lt_irrefl _ (String_as_OT.lt_trans _ _ _ H H')).
    + rewrite H' in H. destruct (String_lt_irrefl _ H).
Qed.

Lemma key_ltb_irrefl k : key_ltb k k = false.
Proof. apply key_ltb_false. right. split; [reflexivity|apply flt_irrefl]. Qed.

Lemma key_ltb_asym k1 k2 : key_ltb k1 k2 = true -> key_ltb k2 k1 = false.
Proof.
  rewrite key_ltb_spec, key_ltb_false. intros [H|[H1 H2]]; [auto|].
  right. split; [auto|]. apply flt_asym; assumption.
Qed.

(** "Not below" is transitive through a key whose weight is not NaN. *)
Lemma key_geb_trans k1 k2 k3 :
  not_nan (snd k2) ->
  key_ltb k1 k2 = false -> key_ltb k2 k3 = false -> key_ltb k1 k3 = false.
Proof.
  rewrite !key_ltb_false.
  intros Hn [H12|[E12 W12]] [H23|[E23 W23]].
  - left. exact (String_as_OT.lt_trans _ _ _ H23 H12).
  - left. rewrite <- E23. assumption.
  - left. rewrite E12. assumption.
  - right. split; [congruence|]. exact (fge_trans _ _ _ Hn W12 W23).
Qed.

End KeyOrder.

(** Two keys are equivalent when neither is below the other. *)
Definition key_eqb (k1 k2 : string * pyfloat) : bool :=
  negb (key_ltb k1 k2) && negb (key_ltb k2 k1).

(** [x] stands before [y] in a list sorted by decreasing keys. *)
Definition key_geq (x y : Item) : Prop :=
  key_ltb (sort_key x) (sort_key y) = false.

(** The items of [l] that have the key of [x], in their order. *)
Definition same_key (x : Item) (l : list Item) : list Item :=
  List.filter (fun y => key_eqb (sort_key x) (sort_key y)) l.

Section SortFacts.

Lemma key_eqb_refl k : key_eqb k k = true.
Proof. unfold key_eqb. rewrite key_ltb_irrefl. reflexivity. Qed.

Lemma key_eqb_true k1 k2 :
  key_eqb k1 k2 = true <-> key_ltb k1 k2 = false /\ key_ltb k2 k1 = false.
Proof.
  unfold key_eqb. rewrite andb_true_iff, !negb_true_iff. reflexivity.
Qed.

(** ** Lists whose keys are ordered consistently *)

Lemma consistent_keys key (l l' : list Item) :
  (forall x, In x l' -> exists y, In y l /\ key y = key x) ->
  consistent key l -> consistent key l'.
Proof.
  intros Hk Hc x y z Hx Hy Hz.
  destruct (Hk x Hx) as (x' & Hx' & <-).
  destruct (Hk y Hy) as (y' & Hy' & <-).
  destruct (Hk z Hz) as (z' & Hz' & <-).
  apply Hc; assumption.
Qed.

Lemma consistent_incl key (l l' : list Item) :
  incl l' l -> consistent key l -> consistent key l'.
Proof.
  intros Hi. apply consistent_keys. intros x Hx. exists x. auto.
Qed.

Lemma consistent_perm key (l l' : list Item) :
  Permutation l l' -> consistent key l -> consistent key l'.
Proof.
  intros Hp. apply consistent_incl. intros x Hx.
  exact (Permutation_in _ (Permutation_sym Hp) Hx).
Qed.

(** No NaN among the weights: the order of the keys is total. *)
Lemma not_nan_consistent key (l : list Item) :
  Forall (fun x => not_nan (snd (key x))) l -> consistent key l.
Proof.
  intros H x y z _ Hy _. rewrite List.Forall_forall in H.
  apply key_geb_trans. exact (H y Hy).
Qed.

(** Items of distinct dates: their weights are never compared. *)
Lemma distinct_dates_consistent key (l : list Item) :
  (forall x y, In x l -> In y l -> fst (key x) = fst (key y) -> x = y) ->
  consistent key l.
Proof.
  intros Hd x y z Hx Hy Hz. rewrite !key_ltb_false.
  intros [H12|[E12 W12]] [H23|[E23 W23]].
  - left. exact (String_as_OT.lt_trans _ _ _ H23 H12).
  - left. rewrite <- E23. assumption.
  - left. rewrite E12. assumption.
  - rewrite (Hd x y Hx Hy E12) in *. right. auto.
Qed.

(** ** The reference sort *)

Lemma insert_by_sort_key x l : insert_by sort_key x l = insert_desc x l.
Proof.
  induction l as [|y r IH]; simpl; [reflexivity|]. rewrite IH. reflexivity.
Qed.

Lemma sorted_by_sort_key l : sorted_by sort_key l = sorted_desc l.
Proof.
  unfold sorted_by, sorted_desc.
  induction l as [|x l IH]; simpl; [reflexivity|].
  rewrite IH. apply insert_by_sort_key.
Qed.

Lemma insert_desc_perm x l : Permutation (insert_desc x l) (x :: l).
Proof.
  induction l as [|y r IH]; simpl; [reflexivity|].
  destruct (key_ltb (sort_key x) (sort_key y)); [|reflexivity].
  rewrite IH. apply perm_swap.
Qed.

Lemma sorted_desc_perm l : Permutation (sorted_desc l) l.
Proof.
  induction l as [|x l IH]; simpl; [reflexivity|].
  rewrite insert_desc_perm. constructor. exact IH.
Qed.

Lemma insert_by_perm key x l : Permutation (insert_by key x l) (x :: l).
Proof.
  induction l as [|y r IH]; simpl; [reflexivity|].
  destruct (key_ltb (key x) (key y)); [|reflexivity].
  rewrite IH. apply perm_swap.
Qed.

Lemma sorted_by_perm key l : Permutation (sorted_by key l) l.
Proof.
  induction l as [|x l IH]; simpl; [reflexivity|].
  rewrite insert_by_perm. constructor. exact IH.
Qed.

Lemma insert_desc_sorted u x l :
  consistent sort_key u -> In x u -> incl l u ->
  StronglySorted key_geq l -> StronglySorted key_geq (insert_desc x l).
Proof.
  intros Hc Hx Hl Hs. induction Hs as [|y r Hr IH Hy]; simpl.
  - repeat constructor.
  - assert (Hyu : In y u) by (apply Hl; left; reflexivity).
    assert (Hru : incl r u) by (intros z Hz; apply Hl; right; exact Hz).
    destruct (key_ltb (sort_key x) (sort_key y)) eqn:E.
    + constructor; [exact (IH Hru)|].
      rewrite List.Forall_forall in *. intros z Hz.
      apply (Permutation_in _ (insert_desc_perm x r)) in Hz.
      destruct Hz as [<-|Hz]; [|auto].
      apply key_ltb_asym. assumption.
    + constructor; [constructor; assumption|].
      constructor; [exact E|].
      rewrite List.Forall_forall in *. intros z Hz.
      exact (Hc x y z Hx Hyu (Hru z Hz) E (Hy z Hz)).
Qed.

Lemma sorted_desc_sorted_in u l :
  consistent sort_key u -> incl l u ->
  StronglySorted key_geq (sorted_desc l).
Proof.
  intros Hc. induction l as [|x l IH]; intros Hl; simpl; [constructor|].
  assert (Hl' : incl l u) by (intros z Hz; apply Hl; right; exact Hz).
  apply (insert_desc_sorted u); [assumption|apply Hl; left; reflexivity| |auto].
  intros z Hz. apply Hl'.
  exact (Permutation_in _ (sorted_desc_perm l) Hz).
Qed.

(** On keys ordered consistently the reference sort sorts. *)
Lemma sorted_desc_sorted l :
  consistent sort_key l -> StronglySorted key_geq (sorted_desc l).
Proof. intros Hc. apply (sorted_desc_sorted_in l); [assumption|]. intros x; auto. Qed.

(** The sort is stable: the items of one key keep their order. *)
Lemma insert_desc_stable u k x l :
  consistent sort_key u -> In k u -> In x u -> incl l u ->
  same_key k (insert_desc x l) = same_key k (x :: l).
Proof.
  intros Hc Hk Hx. unfold same_key.
  induction l as [|y r IH]; intros Hl; [reflexivity|].
  assert (Hyu : In y u) by (apply Hl; left; reflexivity).
  assert (Hru : incl r u) by (intros z Hz; apply Hl; right; exact Hz).
  simpl insert_desc.
  destruct (key_ltb (sort_key x) (sort_key y)) eqn:E; [|reflexivity].
  simpl in *. rewrite (IH Hru).
  destruct (key_eqb (sort_key k) (sort_key x)) eqn:Ex; [|reflexivity].
  destruct (key_eqb (sort_key k) (sort_key y)) eqn:Ey; [|reflexivity].
  apply key_eqb_true in Ex, Ey. destruct Ex as [_ Ex], Ey as [Ey _].
  rewrite (Hc x k y Hx Hk Hyu Ex Ey) in E. discriminate.
Qed.

Lemma sorted_desc_stable_in u k l :
  consistent sort_key u -> In k u -> incl l u ->
  same_key k (sorted_desc l) = same_key k l.
Proof.
  intros Hc Hk. induction l as [|x l IH]; intros Hl; [reflexivity|].
  assert (Hl' : incl l u) by (intros z Hz; apply Hl; right; exact Hz).
  simpl sorted_desc. rewrite (insert_desc_stable u); try assumption.
  - unfold same_key in *. simpl. rewrite (IH Hl'). reflexivity.
  - apply Hl. left. reflexivity.
  - intros z Hz. apply Hl'.
    exact (Permutation_in _ (sorted_desc_perm l) Hz).
Qed.

Lemma sorted_desc_stable k l :
  consistent sort_key l -> In k l ->
  same_key k (sorted_desc l) = same_key k l.
Proof.
  intros Hc Hk. apply (sorted_desc_stable_in l); [assumption..|].
  intros x; auto.
Qed.

(** A list already in decreasing order is left as it is. *)
Lemma sorted_desc_fixed l : StronglySorted key_geq l -> sorted_desc l = l.
Proof.
  induction 1 as [|x l Hl IH Hx]; [reflexivity|].
  simpl. rewrite IH. destruct l as [|y r]; [reflexivity|].
  simpl. inversion Hx as [|? ? Hxy _]; subst.
  unfold key_geq in Hxy. rewrite Hxy. reflexivity.
Qed.

(** Two lists in decreasing order with the same items of each key, in the
    same order, are the same list. *)
Lemma sorted_determined l1 : forall l2,
  StronglySorted key_geq l1 -> StronglySorted key_geq l2 ->
  (forall x, In x l1 \/ In x l2 -> same_key x l1 = same_key x l2) ->
  l1 = l2.
Proof.
  unfold same_key.
  induction l1 as [|a l1 IH]; intros l2 S1 S2 Hf.
  - destruct l2 as [|b l2]; [reflexivity|].
    specialize (Hf b (or_intror (or_introl eq_refl))). simpl in Hf.
    rewrite key_eqb_refl in Hf. discriminate.
  - destruct l2 as [|b l2].
    + specialize (Hf a (or_introl (or_introl eq_refl))). simpl in Hf.
      rewrite key_eqb_refl in Hf. discriminate.
    + inversion S1 as [|? ? S1' Ha]; subst.
      inversion S2 as [|? ? S2' Hb]; subst.
      rewrite List.Forall_forall in Ha, Hb.
      assert (Hab : key_geq a b).
      { assert (Hin : In b (a :: l1)).
        { pose proof (Hf b (or_intror (or_introl eq_refl))) as H.
          simpl in H. rewrite (key_eqb_refl (sort_key b)) in H.
          assert (Hb' : In b (List.filter
                     (fun y => key_eqb (sort_key b) (sort_key y)) (a :: l1))).
          { simpl. rewrite H. left. reflexivity. }
          apply List.filter_In in Hb'. tauto. }
        destruct Hin as [->|Hin]; [apply key_ltb_irrefl|auto]. }
      assert (Hba : key_geq b a).
      { assert (Hin : In a (b :: l2)).
        { pose proof (Hf a (or_introl (or_introl eq_refl))) as H.
          simpl in H. rewrite (key_eqb_refl (sort_key a)) in H.
          assert (Ha' : In a (List.filter
                     (fun y => key_eqb (sort_key a) (sort_key y)) (b :: l2))).
          { simpl. rewrite <- H. left. reflexivity. }
          apply List.filter_In in Ha'. tauto. }
        destruct Hin as [->|Hin]; [apply key_ltb_irrefl|auto]. }
      assert (Eab : a = b).
      { pose proof (Hf a (or_introl (or_introl eq_refl))) as H.
        simpl in H. rewrite key_eqb_refl in H.
        assert (E : key_eqb (sort_key a) (sort_key b) = true)
          by (apply key_eqb_true; split; assumption).
        rewrite E in H. congruence. }
      subst b. f_equal. apply IH; [assumption..|].
      intros x Hx.
      assert (Hx' : In x (a :: l1) \/ In x (a :: l2))
        by (destruct Hx; [left|right]; right; assumption).
      specialize (Hf x Hx'). simpl in Hf.
      destruct (key_eqb (sort_key x) (sort_key a)); congruence.
Qed.

(** ** What [sorted] returns *)

Context `{S : PyLib}.

Lemma py_sorted_desc l :
  consistent sort_key l -> py_sorted sort_key l = sorted_desc l.
Proof.
  intros Hc. rewrite (py_sorted_consistent _ _ Hc). apply sorted_by_sort_key.
Qed.

Lemma py_sorted_In key l x : In x (py_sorted key l) <-> In x l.
Proof.
  split; intros H.
  - exact (Permutation_in _ (py_sorted_perm key l) H).
  - exact (Permutation_in _ (Permutation_sym (py_sorted_perm key l)) H).
Qed.

Lemma py_sorted_sorted l :
  consistent sort_key l -> StronglySorted key_geq (py_sorted sort_key l).
Proof.
  intros Hc. rewrite (py_sorted_desc _ Hc). apply sorted_desc_sorted, Hc.
Qed.

Lemma py_sorted_stable k l :
  consistent sort_key l -> In k l ->
  same_key k (py_sorted sort_key l) = same_key k l.
Proof.
  intros Hc Hk. rewrite (py_sorted_desc _ Hc). apply sorted_desc_stable; auto.
Qed.

End SortFacts.

(* ===================================================================== *)
(** * Facts about one round of the deduplicator *)
(* ===================================================================== *)

(** The fields [_dedup] never writes: an item without its merge records. *)
Definition core (k : Item) : Item :=
  mkItem (title k) (link k) (published_at k) (source k) (source_id k)
    (language k) (weight k) (tags k) (raw_summary k) (feed_url k) None None.

(** The merge records, [[]] when the key is absent. *)
Definition alt_links_of (k : Item) : list string :=
  match alt_links k with Some l => l | None => [] end.

Definition alt_sources_of (k : Item) : list pyval :=
  match alt_sources k with Some l => l | None => [] end.

(** [t'] is the title of an item kept before the item of title [t], which
    did not reach the threshold against it. *)
Definition below `{S : PyLib} (threshold : pyfloat) (t' t : string) : Prop :=
  fle threshold (FNum (title_sim t t')) = false.

Section StepFacts.

Variable threshold : pyfloat.

Context `{S : PyLib}.

Lemma truthy_iff (s : string) : PyStr.truthy s = true <-> s <> "".
Proof. destruct s; simpl; split; congruence. Qed.

Lemma str_in_In (x : string) (l : list string) :
  str_in x l = true <-> In x l.
Proof.
  unfold str_in. rewrite existsb_exists. split.
  - intros (y & Hy & E). apply String.eqb_eq in E. subst. assumption.
  - intros H. exists x. split; [assumption|apply String.eqb_refl].
Qed.

Lemma merge_into_core it k : core (merge_into it k) = core k.
Proof. reflexivity. Qed.

Lemma core_title k k' : core k = core k' -> title k = title k'.
Proof. intros H. exact (f_equal title H). Qed.

Lemma core_link k k' : core k = core k' -> link k = link k'.
Proof. intros H. exact (f_equal link H). Qed.

Lemma core_sort_key k k' : core k = core k' -> sort_key k = sort_key k'.
Proof. intros H. exact (f_equal sort_key H). Qed.

Lemma merge_first_None it kept :
  merge_first threshold it kept = None <->
  Forall (fun k => similar threshold it k = false) kept.
Proof.
  induction kept as [|k rest IH]; simpl.
  - split; [constructor|reflexivity].
  - destruct (similar threshold it k) eqn:E.
    + split; [discriminate|]. intros H. inversion H; congruence.
    + destruct (merge_first threshold it rest).
      * split; [discriminate|]. intros H. inversion H; subst.
        apply IH in H3. discriminate.
      * split; [|reflexivity]. intros _. constructor; [assumption|].
        apply IH. reflexivity.
Qed.

Lemma merge_first_Some it kept kept' :
  merge_first threshold it kept = Some kept' <->
  exists pre k post,
    kept = pre ++ k :: post
    /\ Forall (fun k' => similar threshold it k' = false) pre
    /\ similar threshold it k = true
    /\ kept' = pre ++ merge_into it k :: post.
Proof.
  revert kept'. induction kept as [|k rest IH]; intros kept'; simpl.
  - split; [discriminate|]. intros (pre & k & post & E & _).
    destruct pre; discriminate.
  - destruct (similar threshold it k) eqn:E.
    + split.
      * intros [= <-]. exists [], k, rest. repeat split; auto.
      * intros (pre & k0 & post & Ek & Hpre & Hk & ->).
        destruct pre as [|p pre]; simpl in Ek; injection Ek as -> ->.
        -- reflexivity.
        -- inversion Hpre; congruence.
    + destruct (merge_first threshold it rest) as [rest'|] eqn:M.
      * split.
        -- intros [= <-]. destruct (proj1 (IH rest') eq_refl)
             as (pre & k0 & post & -> & Hpre & Hk & ->).
           exists (k :: pre), k0, post. repeat split; auto.
        -- intros (pre & k0 & post & Ek & Hpre & Hk & ->).
           destruct pre as [|p pre]; simpl in Ek; injection Ek as -> ->.
           ++ congruence.
           ++ inversion Hpre; subst. f_equal. simpl. f_equal.
              assert (H : Some rest' = Some (pre ++ merge_into it k0 :: post)).
              { apply IH. exists pre, k0, post. auto. }
              congruence.
      * split; [discriminate|].
        intros (pre & k0 & post & Ek & Hpre & Hk & ->).
        destruct pre as [|p pre]; simpl in Ek; injection Ek as -> ->.
        -- congruence.
        -- inversion Hpre; subst.
           assert (H : None = Some (pre ++ merge_into it k0 :: post)).
           { apply IH. exists pre, k0, post. auto. }
           discriminate.
Qed.

Lemma merge_first_core it kept kept' :
  merge_first threshold it kept = Some kept' ->
  map core kept' = map core kept.
Proof.
  intros H. apply merge_first_Some in H.
  destruct H as (pre & k & post & -> & _ & _ & ->).
  rewrite !map_app. simpl. rewrite merge_into_core. reflexivity.
Qed.

Lemma map_core_eq (A : Type) (f : Item -> A) (l l' : list Item) :
  (forall k, f (core k) = f k) -> map core l = map core l' ->
  map f l = map f l'.
Proof.
  intros Hf H.
  assert (E : forall l0, map f l0 = map f (map core l0)).
  { intros l0. rewrite map_map. apply map_ext. intros k. symmetry. apply Hf. }
  rewrite (E l), (E l'), H. reflexivity.
Qed.

(** What one round does, by cases. *)
Lemma dedup_step_cases seen kept it :
  (link it <> "" /\ link it ∈ seen
   /\ dedup_step threshold (seen, kept) it = (seen, kept))
  \/ ((link it = "" \/ link it ∉ seen)
      /\ exists kept', merge_first threshold it kept = Some kept'
         /\ dedup_step threshold (seen, kept) it = (seen, kept'))
  \/ ((link it = "" \/ link it ∉ seen)
      /\ merge_first threshold it kept = None
      /\ dedup_step threshold (seen, kept) it =
         (if PyStr.truthy (link it) then {[link it]} ∪ seen else seen,
          kept ++ [it])).
Proof.
  unfold dedup_step.
  destruct (PyStr.truthy (link it)) eqn:T; simpl.
  - destruct (bool_decide (link it ∈ seen)) eqn:B.
    + left. apply bool_decide_eq_true in B. apply truthy_iff in T. auto.
    + apply bool_decide_eq_false in B. right.
      destruct (merge_first threshold it kept) as [kept'|].
      * left. split; [auto|]. exists kept'. auto.
      * right. auto.
  - assert (E : link it = "") by (destruct (link it); [reflexivity|discriminate]).
    right. destruct (merge_first threshold it kept) as [kept'|].
    + left. split; [auto|]. exists kept'. auto.
    + right. auto.
Qed.

(** The invariant of the outer loop. *)
Record LoopInv (st : DedupState) : Prop := mkLoopInv {
  inv_seen : forall u, u ∈ fst st <-> u <> "" /\ In u (map link (snd st));
  inv_links : NoDup (List.filter PyStr.truthy (map link (snd st)));
  inv_titles : StronglySorted (below threshold) (map title (snd st))
}.

Lemma LoopInv_init : LoopInv (∅, []).
Proof.
  split; simpl.
  - intros u. split; [intros H; destruct (not_elem_of_empty (C:=gset string) _ H)|tauto].
  - constructor.
  - constructor.
Qed.

Lemma dedup_step_inv st it : LoopInv st -> LoopInv (dedup_step threshold st it).
Proof.
  destruct st as [seen kept]. intros [Hs Hl Ht]. simpl in Hs, Hl, Ht.
  destruct (dedup_step_cases seen kept it)
    as [(_ & _ & ->)|[(Hu & kept' & M & ->)|(Hu & M & ->)]].
  - split; assumption.
  - pose proof (merge_first_core _ _ _ M) as C.
    assert (El : map link kept' = map link kept)
      by (apply map_core_eq; [reflexivity|assumption]).
    assert (Et : map title kept' = map title kept)
      by (apply map_core_eq; [reflexivity|assumption]).
    split; simpl; rewrite ?El, ?Et; assumption.
  - apply merge_first_None in M.
    split; simpl.
    + intros u. rewrite map_app, in_app_iff. simpl.
      destruct (PyStr.truthy (link it)) eqn:T.
      * rewrite elem_of_union, elem_of_singleton, Hs.
        apply truthy_iff in T. split.
        -- intros [->|[? ?]]; auto.
        -- intros [? [?|[?|[]]]]; auto.
      * assert (E : link it = "")
          by (destruct (link it); [reflexivity|discriminate]).
        rewrite Hs, E. split.
        -- intros [? ?]; auto.
        -- intros [? [?|[?|[]]]]; [auto|congruence].
    + rewrite map_app, List.filter_app. simpl.
      destruct (PyStr.truthy (link it)) eqn:T; [|rewrite app_nil_r; assumption].
      apply NoDup_app. split; [assumption|]. split; [|apply NoDup_singleton].
      intros u Hin Hu'. apply list_elem_of_In in Hin, Hu'.
      destruct Hu' as [<-|[]].
      apply List.filter_In in Hin. destruct Hin as [Hin _].
      apply truthy_iff in T.
      destruct Hu as [Hu|Hu]; [contradiction|]. apply Hu, Hs. auto.
    + rewrite map_app. simpl. apply StronglySorted_app.
      split; [|split; [assumption|repeat constructor]].
      intros t' t Ht' Htt. apply list_elem_of_In in Ht', Htt.
      destruct Htt as [<-|[]].
      apply in_map_iff in Ht'. destruct Ht' as (k & <- & Hk).
      rewrite List.Forall_forall in M. exact (M k Hk).
Qed.

Lemma dedup_loop_cons it its st :
  dedup_loop threshold (it :: its) st =
  dedup_loop threshold its (dedup_step threshold st it).
Proof. reflexivity. Qed.

Lemma dedup_loop_inv its : forall st,
  LoopInv st -> LoopInv (dedup_loop threshold its st).
Proof.
  induction its as [|it its IH]; intros st H; [assumption|].
  rewrite dedup_loop_cons. apply IH, dedup_step_inv, H.
Qed.

(** The kept items are, up to their merge records, some of the items
    processed, in the order they were processed. *)
Lemma dedup_loop_sorted its : forall st,
  StronglySorted (fun a b => key_ltb a b = false)
    (map sort_key (snd st ++ its)) ->
  StronglySorted (fun a b => key_ltb a b = false)
    (map sort_key (snd (dedup_loop threshold its st))).
Proof.
  induction its as [|it its IH]; intros [seen kept] H; simpl in H.
  - rewrite app_nil_r in H. assumption.
  - rewrite dedup_loop_cons. apply IH.
    destruct (dedup_step_cases seen kept it)
      as [(_ & _ & ->)|[(Hu & kept' & M & ->)|(Hu & M & ->)]]; simpl.
    + rewrite map_app in *. simpl in H.
      apply StronglySorted_app in H. destruct H as (H1 & H2 & H3).
      apply StronglySorted_app. split; [|split; [assumption|]].
      * intros x y Hx Hy. apply H1; [assumption|]. right. assumption.
      * inversion H3; assumption.
    + pose proof (merge_first_core _ _ _ M) as C.
      assert (Ek : map sort_key kept' = map sort_key kept)
        by (apply map_core_eq; [reflexivity|assumption]).
      rewrite map_app in *. rewrite Ek. simpl in H.
      apply StronglySorted_app in H. destruct H as (H1 & H2 & H3).
      apply StronglySorted_app. split; [|split; [assumption|]].
      * intros x y Hx Hy. apply H1; [assumption|]. right. assumption.
      * inversion H3; assumption.
    + rewrite <- app_assoc. exact H.
Qed.

Lemma key_sorted_map l :
  StronglySorted key_geq l <->
  StronglySorted (fun a b => key_ltb a b = false) (map sort_key l).
Proof.
  induction l as [|x l IH]; simpl.
  - split; constructor.
  - rewrite !StronglySorted_cons, IH, Forall_map. reflexivity.
Qed.

(** Running the loop again over a kept list changes nothing. *)
Lemma dedup_loop_replay rest : forall pre seen,
  (forall u, u ∈ seen <-> u <> "" /\ In u (map link pre)) ->
  NoDup (List.filter PyStr.truthy (map link (pre ++ rest))) ->
  StronglySorted (below threshold) (map title (pre ++ rest)) ->
  snd (dedup_loop threshold rest (seen, pre)) = pre ++ rest.
Proof.
  induction rest as [|x rest IH]; intros pre seen Hs Hl Ht.
  - rewrite app_nil_r. reflexivity.
  - rewrite dedup_loop_cons.
    assert (Hx : link x = "" \/ link x ∉ seen).
    { destruct (PyStr.truthy (link x)) eqn:T.
      - right. intros Hin. apply Hs in Hin. destruct Hin as [_ Hin].
        rewrite map_app, List.filter_app in Hl. simpl in Hl. rewrite T in Hl.
        apply NoDup_app in Hl. destruct Hl as (_ & Hl & _).
        apply (Hl (link x)); [|left].
        apply list_elem_of_In, List.filter_In. auto.
      - left. destruct (link x); [reflexivity|discriminate]. }
    assert (Hm : merge_first threshold x pre = None).
    { apply merge_first_None. rewrite map_app in Ht. simpl in Ht.
      apply StronglySorted_app in Ht. destruct Ht as (H1 & _ & _).
      apply List.Forall_forall. intros k Hk. apply (H1 (title k) (title x)).
      - apply list_elem_of_In, in_map, Hk.
      - left. }
    destruct (dedup_step_cases seen pre x)
      as [(Hne & Hin & _)|[(_ & kept' & M & _)|(_ & _ & E)]].
    + destruct Hx; contradiction.
    + congruence.
    + assert (Hinv : LoopInv (dedup_step threshold (seen, pre) x)).
      { apply dedup_step_inv. split; simpl; [assumption|..].
        - rewrite map_app, List.filter_app in Hl.
          apply NoDup_app in Hl. tauto.
        - rewrite map_app in Ht. apply StronglySorted_app in Ht. tauto. }
      rewrite E in Hinv |- *. destruct Hinv as [Hs' _ _]. simpl in Hs'.
      replace (pre ++ x :: rest) with ((pre ++ [x]) ++ rest) in *
        by (rewrite <- app_assoc; reflexivity).
      apply IH; assumption.
Qed.

End StepFacts.

(* ===================================================================== *)
(** * Properties of [_dedup] *)
(* ===================================================================== *)

(** Insertion from the right: an instance of [PyLib], to run [_dedup]
    on the lists of the examples.  On a list of up to three items, as the
    examples have, this is the list Python's sort returns, whatever the
    keys, NaN weights included; on longer lists with NaN weights the two
    can differ, and no example has one.  The titles of the examples are
    ASCII ones, for which [lower] does not read [unicode_lower]. *)
Definition insertion : PyLib := {|
  py_sorted := sorted_by;
  py_sorted_perm := sorted_by_perm;
  py_sorted_consistent := fun key l _ => eq_refl;
  unicode_lower := fun s => s
|}.

(** A property of kept items that a merge preserves holds of the whole
    output when it holds of the input. *)
Lemma dedup_loop_Forall `{S : PyLib} (P : Item -> Prop) threshold :
  (forall it k, P k -> P (merge_into it k)) ->
  forall its st, Forall P its -> Forall P (snd st) ->
  Forall P (snd (dedup_loop threshold its st)).
Proof.
  intros HP. induction its as [|it its IH]; intros [seen kept] Hits Hk.
  - exact Hk.
  - rewrite dedup_loop_cons. inversion Hits as [|? ? Hit Hits']; subst.
    apply IH; [assumption|].
    destruct (dedup_step_cases threshold seen kept it)
      as [(_ & _ & ->)|[(_ & kept' & M & ->)|(_ & _ & ->)]]; simpl.
    + exact Hk.
    + apply merge_first_Some in M.
      destruct M as (pre & k & post & -> & _ & _ & ->). simpl in Hk.
      apply Forall_app in Hk. destruct Hk as [H1 H2].
      inversion H2; subst. apply Forall_app. split; [assumption|].
      constructor; [apply HP|]; assumption.
    + apply Forall_app. split; [assumption|]. constructor; [assumption|].
      constructor.
Qed.

Section DedupFacts.

Context `{S : PyLib}.

Lemma dedup_final_inv threshold items :
  LoopInv threshold
    (dedup_loop threshold (py_sorted sort_key items) (∅, [])).
Proof. apply dedup_loop_inv, LoopInv_init. Qed.

Lemma dedup_Forall (P : Item -> Prop) threshold items :
  (forall it k, P k -> P (merge_into it k)) ->
  Forall P items -> Forall P (_dedup threshold items).
Proof.
  intros HP H. unfold _dedup. apply dedup_loop_Forall; [assumption| |constructor].
  apply List.Forall_forall. intros x Hx.
  rewrite List.Forall_forall in H. apply H.
  apply py_sorted_In in Hx. exact Hx.
Qed.

(** Every kept item has the key of an input item. *)
Lemma dedup_keys threshold items x :
  In x (_dedup threshold items) ->
  exists y, In y items /\ sort_key y = sort_key x.
Proof.
  intros Hx.
  assert (H : Forall (fun k => exists y, In y items /\ sort_key y = sort_key k)
                (_dedup threshold items)).
  { apply dedup_Forall.
    - intros it k (y & Hy & E). exists y. auto.
    - apply List.Forall_forall. intros y Hy. exists y. auto. }
  rewrite List.Forall_forall in H. exact (H x Hx).
Qed.

Lemma py_sorted_nil key : py_sorted key [] = [].
Proof.
  apply Permutation_nil, Permutation_sym, py_sorted_perm.
Qed.

Lemma dedup_nil threshold : _dedup threshold [] = [].
Proof. unfold _dedup. rewrite py_sorted_nil. reflexivity. Qed.

Lemma dedup_consistent threshold items :
  consistent sort_key items -> consistent sort_key (_dedup threshold items).
Proof. apply consistent_keys. intros x. apply dedup_keys. Qed.

Lemma dedup_sorted threshold items :
  consistent sort_key items ->
  StronglySorted key_geq (_dedup threshold items).
Proof.
  intros Hc. apply key_sorted_map. unfold _dedup. apply dedup_loop_sorted.
  simpl. apply key_sorted_map, py_sorted_sorted, Hc.
Qed.

End DedupFacts.

(** Three items of one date.  The second has the link of the first and a
    weight that is NaN; the third has the greatest weight. *)
Definition nan_first : Item :=
  mkItem "Fed cuts rates" "https://reuters.example/fed"
    "2024-05-01T12:00:00+00:00" (PStr "Reuters") (PStr "reuters") PNone 1 []
    "" (PStr "https://reuters.example/rss") None None.

Definition nan_second : Item :=
  mkItem "Fed cuts rates" "https://reuters.example/fed"
    "2024-05-01T12:00:00+00:00" (PStr "Mirror") (PStr "mirror") PNone FNaN []
    "" (PStr "https://mirror.example/rss") None None.

Definition nan_third : Item :=
  mkItem "Oil prices climb" "https://wire.example/oil"
    "2024-05-01T12:00:00+00:00" (PStr "Wire") (PStr "wire") PNone 2 []
    "" (PStr "https://wire.example/rss") None None.

(** C2, as stated, fails.  With the three items above, no item is below
    the one before it ([1.0 < nan] and [nan < 2.0] are false), so that the
    sort leaves the list as it is: [_dedup] keeps the first and, the second
    being dropped for its link, the third.  Run again on these two, it
    returns them by decreasing weight, in the other order. *)
Lemma dedup_idempotent_counterexample :
  py_sorted (PyLib := insertion) sort_key
    [nan_first; nan_second; nan_third]
  = [nan_first; nan_second; nan_third]
  /\ _dedup (S := insertion) (9 # 10) [nan_first; nan_second; nan_third]
     = [nan_first; nan_third]
  /\ _dedup (S := insertion) (9 # 10) [nan_first; nan_third]
     = [nan_third; nan_first]
  /\ _dedup (S := insertion) (9 # 10)
       (_dedup (S := insertion) (9 # 10) [nan_first; nan_second; nan_third])
     <> _dedup (S := insertion) (9 # 10) [nan_first; nan_second; nan_third].
Proof.
  split; [vm_compute; reflexivity|]. split; [vm_compute; reflexivity|].
  split; [vm_compute; reflexivity|]. vm_compute. discriminate.
Qed.

(** C2, amended. On a list whose keys [<] orders consistently (as when no
    weight is NaN), deduplication is idempotent: running [_dedup] on its
    own output gives the same kept list, item for item, merge records
    included. *)
Theorem dedup_idempotent `{S : PyLib} (threshold : pyfloat)
    (items : list Item) :
  consistent sort_key items ->
  _dedup threshold (_dedup threshold items) = _dedup threshold items.
Proof.
  intros Hc.
  pose proof (dedup_final_inv threshold items) as [_ Hl Ht].
  pose proof (dedup_sorted threshold items Hc) as Hk.
  fold (_dedup threshold items) in Hl, Ht.
  unfold _dedup at 1.
  rewrite (py_sorted_desc _ (dedup_consistent threshold items Hc)).
  rewrite (sorted_desc_fixed _ Hk).
  apply (dedup_loop_replay threshold (_dedup threshold items) [] ∅);
    simpl; try assumption.
  intros u. split.
  - intros H. destruct (not_elem_of_empty (C:=gset string) _ H).
  - tauto.
Qed.

(** Two items of the same publication time and weight that tell the same
    story, from two sources. *)
Definition tie_reuters : Item :=
  mkItem "Fed cuts rates" "https://reuters.example/fed"
    "2024-05-01T12:00:00+00:00" (PStr "Reuters") (PStr "reuters") PNone 1 []
    "" (PStr "https://reuters.example/rss") None None.

Definition tie_cnbc : Item :=
  mkItem "Fed cuts rates" "https://cnbc.example/fed"
    "2024-05-01T12:00:00+00:00" (PStr "CNBC") (PStr "cnbc") PNone 1 []
    "" (PStr "https://cnbc.example/rss") None None.

(** C3, as stated, fails: with the two items above in the two possible
    orders, the item that came first is the one kept. *)
Lemma dedup_order_counterexample :
  Permutation [tie_reuters; tie_cnbc] [tie_cnbc; tie_reuters]
  /\ map source (_dedup (S := insertion) (9 # 10) [tie_reuters; tie_cnbc])
     = [PStr "Reuters"]
  /\ map source (_dedup (S := insertion) (9 # 10) [tie_cnbc; tie_reuters])
     = [PStr "CNBC"].
Proof.
  split; [apply perm_swap|]. split; vm_compute; reflexivity.
Qed.

(** C3, amended. On lists whose keys [<] orders consistently (as when no
    weight is NaN), the output does not depend on the order of the input
    as long as the items of equal [(published_at, weight)] keep their
    relative order: for two such lists that are permutations of each other
    and list the items of every key in the same order, [_dedup] gives the
    same result. *)
Theorem dedup_order_independent `{S : PyLib} (threshold : pyfloat)
    (l1 l2 : list Item) :
  consistent sort_key l1 ->
  Permutation l1 l2 ->
  (forall x, In x l1 -> same_key x l1 = same_key x l2) ->
  _dedup threshold l1 = _dedup threshold l2.
Proof.
  intros Hc Hp Hf. unfold _dedup.
  assert (Hc2 : consistent sort_key l2) by exact (consistent_perm _ _ _ Hp Hc).
  rewrite (py_sorted_desc _ Hc), (py_sorted_desc _ Hc2).
  rewrite (sorted_determined (sorted_desc l1) (sorted_desc l2));
    [reflexivity|apply sorted_desc_sorted; assumption..|].
  intros x Hx.
  assert (H1 : In x l1).
  { destruct Hx as [Hx|Hx].
    - exact (Permutation_in _ (sorted_desc_perm l1) Hx).
    - apply (Permutation_in _ (Permutation_sym Hp)).
      exact (Permutation_in _ (sorted_desc_perm l2) Hx). }
  rewrite (sorted_desc_stable x l1 Hc H1).
  rewrite (sorted_desc_stable x l2 Hc2 (Permutation_in _ Hp H1)).
  apply Hf, H1.
Qed.

(** The scenario of the specification: the same story from two sources, a
    minute apart. *)
Definition fed_a : Item :=
  mkItem "Fed cuts rates" "https://reuters.example/fed"
    "2024-05-01T12:00:00+00:00" (PStr "Reuters") (PStr "reuters") PNone 1 []
    "" (PStr "https://reuters.example/rss") None None.

Definition fed_b : Item :=
  mkItem "Fed Cuts Rates by 25bps" "https://cnbc.example/fed-25"
    "2024-05-01T11:59:00+00:00" (PStr "CNBC") (PStr "cnbc") PNone 1 []
    "" (PStr "https://cnbc.example/rss") None None.

Lemma dedup_idempotent_witness :
  _dedup (S := insertion) (6 # 10)
    (_dedup (S := insertion) (6 # 10) [fed_b; fed_a])
  = _dedup (S := insertion) (6 # 10) [fed_b; fed_a].
Proof.
  apply (dedup_idempotent (S := insertion) (6 # 10) [fed_b; fed_a]).
  apply not_nan_consistent. repeat constructor; discriminate.
Defined.

Lemma dedup_order_independent_witness :
  _dedup (S := insertion) (6 # 10) [fed_a; fed_b]
  = _dedup (S := insertion) (6 # 10) [fed_b; fed_a].
Proof.
  apply (dedup_order_independent (S := insertion) (6 # 10)
           [fed_a; fed_b] [fed_b; fed_a]).
  - apply not_nan_consistent. repeat constructor; discriminate.
  - apply perm_swap.
  - intros x [<-|[<-|[]]]; vm_compute; reflexivity.
Defined.

(** Three items: the third one has the title of the first and the link of
    the second. *)
Definition story_1 : Item :=
  mkItem "Fed cuts rates" "https://reuters.example/fed"
    "2024-05-01T12:00:00+00:00" (PStr "Reuters") (PStr "reuters") PNone 1 []
    "" (PStr "https://reuters.example/rss") None None.

Definition story_2 : Item :=
  mkItem "Oil prices climb" "https://wire.example/oil"
    "2024-05-01T11:00:00+00:00" (PStr "Wire") (PStr "wire") PNone 1 []
    "" (PStr "https://wire.example/rss") None None.

Definition story_3 : Item :=
  mkItem "Fed cuts rates" "https://wire.example/oil"
    "2024-05-01T10:00:00+00:00" (PStr "Portal") (PStr "portal") PNone 1 []
    "" (PStr "https://portal.example/rss") None None.

(** Two items without a link and with unrelated titles. *)
Definition nolink_1 : Item :=
  mkItem "Oil prices climb" "" "2024-05-01T12:00:00+00:00" (PStr "Wire") (PStr "wire") PNone 1 [] "" (PStr "https://wire.example/rss") None None.

Definition nolink_2 : Item :=
  mkItem "TSMC posts record revenue" "" "2024-05-01T11:00:00+00:00"
    (PStr "Wire") (PStr "wire") PNone 1 [] "" (PStr "https://wire.example/rss")
    None None.

(** C4, as stated, fails: two items whose links are equal, both empty,
    are both kept. *)
Lemma dedup_links_counterexample :
  _dedup (S := insertion) (9 # 10) [nolink_1; nolink_2]
  = [nolink_1; nolink_2]
  /\ link nolink_1 = link nolink_2.
Proof. split; vm_compute; reflexivity. Qed.

(** C4, amended. No two kept items have the same non-empty link; and at
    any point of the loop (after the items [done]) an item whose non-empty
    link is the link of a kept item is dropped with the state left as it
    is: nothing is kept and nothing is recorded. *)
Theorem dedup_links_distinct `{S : PyLib} (threshold : pyfloat)
    (items : list Item) :
  List.NoDup (List.filter PyStr.truthy (map link (_dedup threshold items)))
  /\ forall (done : list Item) (it : Item),
       let st := dedup_loop threshold done (∅, []) in
       link it <> "" -> In (link it) (map link (snd st)) ->
       dedup_step threshold st it = st.
Proof.
  split.
  - apply NoDup_ListNoDup.
    exact (inv_links _ _ (dedup_final_inv threshold items)).
  - intros done it st Hne Hin.
    assert (Hinv : LoopInv threshold st)
      by apply dedup_loop_inv, LoopInv_init.
    destruct st as [seen kept]. simpl in Hin.
    assert (Hs : link it ∈ seen) by (apply (inv_seen _ _ Hinv); auto).
    destruct (dedup_step_cases threshold seen kept it)
      as [(_ & _ & E)|[([?|?] & _)|([?|?] & _)]]; tauto.
Qed.

Lemma dedup_links_distinct_witness :
  dedup_step (S := insertion) (9 # 10)
    (dedup_loop (S := insertion) (9 # 10) [story_1; story_2] (∅, [])) story_3
  = dedup_loop (S := insertion) (9 # 10) [story_1; story_2] (∅, []).
Proof.
  apply (proj2 (dedup_links_distinct (S := insertion) (9 # 10) [])
           [story_1; story_2] story_3).
  - discriminate.
  - vm_compute. right. left. reflexivity.
Defined.

Lemma item_ext (a b : Item) :
  core a = core b -> alt_links a = alt_links b ->
  alt_sources a = alt_sources b -> a = b.
Proof.
  destruct a, b. unfold core. simpl. intros [= -> -> -> -> -> -> -> -> -> ->].
  intros -> ->. reflexivity.
Qed.

Lemma sorted_desc_pair (a b : Item) :
  key_ltb (sort_key b) (sort_key a) = true ->
  sorted_desc [a; b] = [a; b] /\ sorted_desc [b; a] = [a; b].
Proof.
  intros H. unfold sorted_desc. simpl.
  rewrite H, (key_ltb_asym _ _ H). auto.
Qed.

(** Two items, one below the other: their keys are ordered. *)
Lemma pair_consistent (a b : Item) (l : list Item) :
  key_ltb (sort_key b) (sort_key a) = true ->
  l = [a; b] \/ l = [b; a] -> consistent sort_key l.
Proof.
  intros H Hl x y z Hx Hy Hz H1 H2.
  assert (M : forall v, In v l -> v = a \/ v = b).
  { intros v Hv. destruct Hl as [-> | ->];
      destruct Hv as [<-|[<-|[]]]; auto. }
  destruct (M x Hx) as [-> | ->], (M y Hy) as [-> | ->],
    (M z Hz) as [-> | ->];
    try apply key_ltb_irrefl; try (apply key_ltb_asym; exact H);
    congruence.
Qed.

Lemma py_sorted_pair `{S : PyLib} (a b : Item) (l : list Item) :
  key_ltb (sort_key b) (sort_key a) = true ->
  l = [a; b] \/ l = [b; a] -> py_sorted sort_key l = [a; b].
Proof.
  intros H Hl. rewrite (py_sorted_desc _ (pair_consistent a b l H Hl)).
  destruct (sorted_desc_pair a b H) as [S1 S2].
  destruct Hl as [-> | ->]; assumption.
Qed.

(** C6. With threshold 0.6, an item A titled "Fed cuts rates" and an item B
    titled "Fed Cuts Rates by 25bps" that was published before A (its
    [published_at] string is below that of A) and has another, non-empty
    link: whatever the order of the two in the input, [_dedup] returns one
    item, which is A, with [alt_links = [link B]]. *)
Theorem dedup_fed_scenario `{S : PyLib} (A B : Item) :
  title A = "Fed cuts rates" ->
  title B = "Fed Cuts Rates by 25bps" ->
  String.ltb (published_at B) (published_at A) = true ->
  link B <> "" -> link B <> link A ->
  alt_links A = None ->
  forall items, items = [A; B] \/ items = [B; A] ->
  exists k, _dedup (6 # 10) items = [k]
            /\ core k = core A /\ alt_links k = Some [link B].
Proof.
  intros TA TB Hlt HB Hne HA items Hitems.
  assert (Hk : key_ltb (sort_key B) (sort_key A) = true).
  { apply key_ltb_spec. left. apply String_ltb_lt. exact Hlt. }
  assert (Hs : py_sorted sort_key items = [A; B])
    by exact (py_sorted_pair A B items Hk Hitems).
  exists (merge_into B A). unfold _dedup. rewrite Hs.
  assert (Hsim : similar (6 # 10) B A = true).
  { unfold similar. rewrite TA, TB. vm_compute. reflexivity. }
  rewrite !dedup_loop_cons.
  destruct (dedup_step_cases (6 # 10) ∅ [] A)
    as [(_ & Hin & _)|[(_ & kept' & M & _)|(_ & _ & ->)]].
  - destruct (not_elem_of_empty (C:=gset string) _ Hin).
  - discriminate.
  - simpl app.
    destruct (dedup_step_cases (6 # 10)
                (if PyStr.truthy (link A) then {[link A]} ∪ ∅ else ∅) [A] B)
      as [(_ & Hin & _)|[(_ & kept' & M & ->)|(_ & M & _)]].
    + destruct (PyStr.truthy (link A)).
      * apply elem_of_union in Hin. destruct Hin as [Hin|Hin].
        -- apply elem_of_singleton in Hin. contradiction.
        -- destruct (not_elem_of_empty (C:=gset string) _ Hin).
      * destruct (not_elem_of_empty (C:=gset string) _ Hin).
    + simpl in M. rewrite Hsim in M. injection M as <-. simpl.
      split; [reflexivity|]. split; [reflexivity|].
      unfold merge_into. simpl. rewrite HA. simpl.
      apply truthy_iff in HB. rewrite HB.
      apply String.eqb_neq in Hne. rewrite Hne. reflexivity.
    + simpl in M. rewrite Hsim in M. discriminate.
Qed.

Lemma dedup_fed_scenario_witness :
  exists k, _dedup (S := insertion) (6 # 10) [fed_b; fed_a] = [k]
            /\ core k = core fed_a /\ alt_links k = Some [link fed_b].
Proof.
  apply (dedup_fed_scenario (S := insertion) fed_a fed_b); try reflexivity.
  - discriminate.
  - discriminate.
  - right. reflexivity.
Defined.









Lemma merge_into_alt_links it k :
  alt_links_of (merge_into it k) = alt_links_of k
  \/ (link it <> "" /\ alt_links_of (merge_into it k) = alt_links_of k ++ [link it]).
Proof.
  unfold merge_into, alt_links_of. simpl.
  destruct (PyStr.truthy (link it)) eqn:T; simpl; [|left; reflexivity].
  apply truthy_iff in T.
  destruct (negb _ && negb _); [right|left]; auto.
Qed.

(** C9. Items with an empty link pass the exact-link check: two of them
    can both be kept; the empty string never enters [seen_url], whatever
    items were processed; and a merge appends a link only when it is not
    empty, so that the empty string is in no [alt_links] of the output
    unless an input item had it there. *)
Theorem dedup_empty_link `{S : PyLib} :
  (exists threshold x y,
      link x = "" /\ link y = "" /\ x <> y
      /\ _dedup threshold [x; y] = [x; y])
  /\ (forall threshold done,
        "" ∉ fst (dedup_loop threshold done (∅, [])))
  /\ (forall it k,
        alt_links_of (merge_into it k) = alt_links_of k
        \/ (link it <> ""
            /\ alt_links_of (merge_into it k) = alt_links_of k ++ [link it]))
  /\ (forall threshold items,
        Forall (fun k => ~ In "" (alt_links_of k)) items ->
        Forall (fun k => ~ In "" (alt_links_of k)) (_dedup threshold items)).
Proof.
  split; [|split; [|split]].
  - exists (FNum (9 # 10)), nolink_1, nolink_2.
    split; [reflexivity|]. split; [reflexivity|]. split; [discriminate|].
    unfold _dedup. rewrite py_sorted_desc.
    + vm_compute. reflexivity.
    + apply not_nan_consistent. repeat constructor; discriminate.
  - intros threshold done Hin.
    assert (Hinv : LoopInv threshold (dedup_loop threshold done (∅, [])))
      by apply dedup_loop_inv, LoopInv_init.
    apply (inv_seen _ _ Hinv) in Hin. tauto.
  - exact merge_into_alt_links.
  - intros threshold items. apply dedup_Forall. intros it k Hk.
    destruct (merge_into_alt_links it k) as [->|[Hne ->]]; [assumption|].
    rewrite in_app_iff. simpl. intros [H|[H|[]]]; [exact (Hk H)|congruence].
Qed.

Lemma dedup_empty_link_witness :
  Forall (fun k => ~ In "" (alt_links_of k))
    (_dedup (S := insertion) (6 # 10) [fed_b; fed_a]).
Proof.
  apply (proj2 (proj2 (proj2 (dedup_empty_link (S := insertion))))
           (6 # 10) [fed_b; fed_a]).
  repeat constructor; simpl; tauto.
Defined.

(* ===================================================================== *)
(** * The clustering process, as the specification words it *)
(* ===================================================================== *)

(** [l'] is [l] with [x] appended at its end, unless [skip] holds. *)
Definition appended_unless {A : Type} (skip : Prop) (x : A) (l l' : list A)
    : Prop :=
  (skip /\ l' = l) \/ (~ skip /\ l' = l ++ [x]).

(** [k'] is the primary [k] after the item [it] was merged into it: the link
    of [it] is appended to [alt_links] unless it is empty, is the link of [k]
    or is there already; likewise the source name of [it] to [alt_sources]
    (empty: of truth value false; the same: equal by [==]); nothing else
    changes. *)
Definition Merged (it k k' : Item) : Prop :=
  core k' = core k
  /\ (exists l', alt_links k' = Some l'
        /\ appended_unless
             (link it = "" \/ link it = link k \/ In (link it) (alt_links_of k))
             (link it) (alt_links_of k) l')
  /\ (exists l', alt_sources k' = Some l'
        /\ appended_unless
             (py_truthy (source it) = false
              \/ py_eqb (source it) (source k) = true
              \/ py_in (source it) (alt_sources_of k) = true)
             (source it) (alt_sources_of k) l').

(** The exact-link check lets [it] through: its link is empty or is the
    link of no kept item. *)
Definition link_is_new (it : Item) (kept : list Item) : Prop :=
  link it = "" \/ ~ In (link it) (map link kept).

(** The similarity of the title of [it] against that of the kept item [p]
    is [>= threshold].  When it is not, and the threshold is a number, the
    similarity is strictly below it (see [sim_ge_number]). *)
Definition sim_ge `{S : PyLib} (threshold : pyfloat) (it p : Item) : bool :=
  fle threshold (FNum (title_sim (title it) (title p))).

(** [Clusters threshold kept its out]: from the kept list [kept], the items
    [its], taken in order, lead to the kept list [out]. *)
Inductive Clusters `{S : PyLib} (threshold : pyfloat)
    : list Item -> list Item -> list Item -> Prop :=
| Cl_done kept :
    Clusters threshold kept [] kept
| Cl_drop kept it its out :
    (* the link of [it] is the link of a kept item: [it] is discarded *)
    link it <> "" -> In (link it) (map link kept) ->
    Clusters threshold kept its out ->
    Clusters threshold kept (it :: its) out
| Cl_merge pre k post k' it its out :
    (* [k] is the first kept item whose title is similar enough *)
    link_is_new it (pre ++ k :: post) ->
    Forall (fun p => sim_ge threshold it p = false) pre ->
    sim_ge threshold it k = true ->
    Merged it k k' ->
    Clusters threshold (pre ++ k' :: post) its out ->
    Clusters threshold (pre ++ k :: post) (it :: its) out
| Cl_keep kept it its out :
    (* no kept item is similar enough: [it] is a new primary *)
    link_is_new it kept ->
    Forall (fun p => sim_ge threshold it p = false) kept ->
    Clusters threshold (kept ++ [it]) its out ->
    Clusters threshold kept (it :: its) out.

(** For a threshold that is a number, [>=] and its failure are the
    comparisons of the values. *)
Lemma fle_number (q s : Q) :
  (fle (FNum q) (FNum s) = true <-> (q <= s)%Q)
  /\ (fle (FNum q) (FNum s) = false <-> (s < q)%Q).
Proof.
  assert (H : fle (FNum q) (FNum s) = true <-> (q <= s)%Q).
  { unfold fle. simpl. rewrite orb_true_iff, Qltb_lt, Qeq_bool_iff. split.
    - intros [H|H]; [apply Qlt_le_weak, H|rewrite H; apply Qle_refl].
    - intros H. destruct (Qlt_le_dec q s) as [H'|H']; [left; exact H'|].
      right. apply Qle_antisym; assumption. }
  split; [exact H|]. rewrite <- not_true_iff_false, H. split.
  - apply Qnot_le_lt.
  - intros H1 H2. exact (Qlt_not_le _ _ H1 H2).
Qed.

Lemma sim_ge_number `{S : PyLib} (q : Q) it p :
  (sim_ge (FNum q) it p = true <->
   (q <= title_sim (title it) (title p))%Q)
  /\ (sim_ge (FNum q) it p = false <->
      (title_sim (title it) (title p) < q)%Q).
Proof. apply fle_number. Qed.

Section ClusterFacts.

Variable threshold : pyfloat.

Context `{S : PyLib}.

Lemma similar_true it k :
  similar threshold it k = true <-> sim_ge threshold it k = true.
Proof. reflexivity. Qed.

Lemma Forall_similar_false it kept :
  Forall (fun k => similar threshold it k = false) kept <->
  Forall (fun p => sim_ge threshold it p = false) kept.
Proof. reflexivity. Qed.

Lemma merged_merge_into it k k' : Merged it k k' <-> k' = merge_into it k.
Proof.
  split.
  - intros (Hc & (l & El & Hl) & (l' & Es & Hs)).
    apply item_ext; [rewrite merge_into_core; exact Hc|..].
    + rewrite El. unfold merge_into. simpl. f_equal.
      fold (alt_links_of k).
      destruct (PyStr.truthy (link it)) eqn:T; simpl.
      * apply truthy_iff in T.
        destruct (str_in (link it) (alt_links_of k)) eqn:I; simpl.
        -- apply str_in_In in I. destruct Hl as [[_ ->]|[Hn _]]; tauto.
        -- assert (~ In (link it) (alt_links_of k))
             by (rewrite <- str_in_In; congruence).
           destruct (String.eqb_spec (link it) (link k)); simpl;
             destruct Hl as [[? ->]|[Hn ->]]; tauto.
      * assert (link it = "")
          by (destruct (link it); [reflexivity|discriminate]).
        destruct Hl as [[_ ->]|[Hn _]]; tauto.
    + rewrite Es. unfold merge_into. simpl. f_equal.
      fold (alt_sources_of k).
      destruct (py_truthy (source it)); simpl;
        [|destruct Hs as [[_ ->]|[Hn _]];
          [reflexivity|exfalso; apply Hn; auto]].
      destruct (py_in (source it) (alt_sources_of k)); simpl;
        [destruct Hs as [[_ ->]|[Hn _]];
          [reflexivity|exfalso; apply Hn; auto]|].
      destruct (py_eqb (source it) (source k)); simpl;
        destruct Hs as [[H ->]|[Hn ->]]; try reflexivity.
      * exfalso. apply Hn. auto.
      * destruct H as [H|[H|H]]; discriminate.
  - intros ->. split; [apply merge_into_core|]. split.
    + eexists. split; [reflexivity|]. fold (alt_links_of k).
      unfold appended_unless.
      destruct (PyStr.truthy (link it)) eqn:T; simpl.
      * apply truthy_iff in T.
        destruct (str_in (link it) (alt_links_of k)) eqn:I; simpl.
        -- apply str_in_In in I. left. auto.
        -- assert (~ In (link it) (alt_links_of k))
             by (rewrite <- str_in_In; congruence).
           destruct (String.eqb_spec (link it) (link k)); simpl;
             [left; auto|right; split; [tauto|reflexivity]].
      * left. split; [|reflexivity]. left.
        destruct (link it); [reflexivity|discriminate].
    + eexists. split; [reflexivity|]. fold (alt_sources_of k).
      unfold appended_unless.
      destruct (py_truthy (source it)); simpl; [|left; auto].
      destruct (py_in (source it) (alt_sources_of k)); simpl; [left; auto|].
      destruct (py_eqb (source it) (source k)); simpl; [left; auto|].
      right. split; [|reflexivity]. intros [H|[H|H]]; discriminate.
Qed.

Lemma link_is_new_seen seen kept it :
  LoopInv threshold (seen, kept) ->
  link_is_new it kept <-> (link it = "" \/ link it ∉ seen).
Proof.
  intros Hinv. pose proof (inv_seen _ _ Hinv (link it)) as Hs. simpl in Hs.
  unfold link_is_new. split; intros [H|H]; auto.
  - destruct (String.eqb_spec (link it) ""); [auto|]. right.
    intros Hin. apply Hs in Hin. tauto.
  - destruct (String.eqb_spec (link it) ""); [auto|]. right.
    intros Hin. apply H, Hs. auto.
Qed.

Lemma dedup_step_drop seen kept it :
  link it <> "" -> link it ∈ seen ->
  dedup_step threshold (seen, kept) it = (seen, kept).
Proof.
  intros Hne Hin.
  destruct (dedup_step_cases threshold seen kept it)
    as [(_ & _ & E)|[([?|?] & _)|([?|?] & _)]]; tauto.
Qed.

Lemma dedup_step_merge seen kept kept' it :
  link it = "" \/ link it ∉ seen ->
  merge_first threshold it kept = Some kept' ->
  dedup_step threshold (seen, kept) it = (seen, kept').
Proof.
  intros Hu M.
  destruct (dedup_step_cases threshold seen kept it)
    as [(? & ? & _)|[(_ & kept'' & M' & E)|(_ & M' & _)]].
  - tauto.
  - congruence.
  - congruence.
Qed.

Lemma dedup_step_keep seen kept it :
  link it = "" \/ link it ∉ seen ->
  merge_first threshold it kept = None ->
  snd (dedup_step threshold (seen, kept) it) = kept ++ [it].
Proof.
  intros Hu M.
  destruct (dedup_step_cases threshold seen kept it)
    as [(? & ? & _)|[(_ & kept'' & M' & E)|(_ & _ & ->)]].
  - tauto.
  - congruence.
  - reflexivity.
Qed.

(** The loop of [_dedup] follows the process. *)
Lemma clusters_complete its : forall st,
  LoopInv threshold st ->
  Clusters threshold (snd st) its (snd (dedup_loop threshold its st)).
Proof.
  induction its as [|it its IH]; intros [seen kept] Hinv.
  - constructor.
  - rewrite dedup_loop_cons.
    pose proof (dedup_step_inv threshold _ it Hinv) as Hinv'.
    specialize (IH _ Hinv').
    destruct (dedup_step_cases threshold seen kept it)
      as [(Hne & Hin & E)|[(Hu & kept' & M & E)|(Hu & M & E)]];
      rewrite E in IH |- *; simpl in IH |- *.
    + apply Cl_drop; [assumption| |assumption].
      apply (inv_seen _ _ Hinv). assumption.
    + apply merge_first_Some in M.
      destruct M as (pre & k & post & -> & Hpre & Hk & ->).
      apply Cl_merge with (k' := merge_into it k).
      * apply (link_is_new_seen seen); assumption.
      * apply Forall_similar_false. assumption.
      * apply similar_true. assumption.
      * apply merged_merge_into. reflexivity.
      * assumption.
    + apply Cl_keep.
      * apply (link_is_new_seen seen); assumption.
      * apply Forall_similar_false, merge_first_None. assumption.
      * assumption.
Qed.

(** The process has one outcome, that of the loop. *)
Lemma clusters_sound kept its out :
  Clusters threshold kept its out ->
  forall seen, LoopInv threshold (seen, kept) ->
  out = snd (dedup_loop threshold its (seen, kept)).
Proof.
  induction 1 as [kept|kept it its out Hne Hin _ IH
                 |pre k post k' it its out Hnew Hpre Hk Hm _ IH
                 |kept it its out Hnew Hall _ IH]; intros seen Hinv.
  - reflexivity.
  - rewrite dedup_loop_cons, dedup_step_drop; [apply IH; assumption|assumption|].
    apply (inv_seen _ _ Hinv). auto.
  - rewrite dedup_loop_cons.
    pose proof (dedup_step_inv threshold _ it Hinv) as Hinv'.
    apply merged_merge_into in Hm. subst k'.
    rewrite (dedup_step_merge seen _ (pre ++ merge_into it k :: post)) in *.
    + apply IH. assumption.
    + apply (link_is_new_seen seen) in Hnew; assumption.
    + apply merge_first_Some. exists pre, k, post.
      repeat split; [apply Forall_similar_false|apply similar_true]; assumption.
    + apply (link_is_new_seen seen) in Hnew; assumption.
    + apply merge_first_Some. exists pre, k, post.
      repeat split; [apply Forall_similar_false|apply similar_true]; assumption.
  - rewrite dedup_loop_cons.
    pose proof (dedup_step_inv threshold _ it Hinv) as Hinv'.
    assert (Hu : link it = "" \/ link it ∉ seen)
      by (apply (link_is_new_seen seen) in Hnew; assumption).
    assert (M : merge_first threshold it kept = None)
      by (apply merge_first_None, Forall_similar_false; assumption).
    pose proof (dedup_step_keep seen kept it Hu M) as E.
    destruct (dedup_step threshold (seen, kept) it) as [seen' kept'].
    simpl in E. subst kept'. apply IH. assumption.
Qed.

End ClusterFacts.

(** The link of [story_2] again, under another title. *)
Definition story_4 : Item :=
  mkItem "TSMC posts record revenue" "https://wire.example/oil"
    "2024-05-01T10:00:00+00:00" (PStr "Portal") (PStr "portal") PNone 1 []
    "" (PStr "https://portal.example/rss") None None.

(** C1, as stated, fails: [story_4] comes after [story_2] and its
    similarity against [story_2], the one kept item, is below the
    threshold; yet it is not appended as a new primary, because its link
    is the link of [story_2].  Likewise [story_3] reaches the threshold
    against the kept [story_1], but nothing is appended to [story_1]. *)
Lemma dedup_clusters_counterexample :
  (py_sorted (PyLib := insertion) sort_key [story_2; story_4]
   = [story_2; story_4]
   /\ similar (S := insertion) (9 # 10) story_4 story_2 = false
   /\ _dedup (S := insertion) (9 # 10) [story_2; story_4] = [story_2])
  /\ (py_sorted (PyLib := insertion) sort_key
        [story_1; story_2; story_3]
      = [story_1; story_2; story_3]
      /\ similar (S := insertion) (9 # 10) story_3 story_1 = true
      /\ link story_3 <> link story_1
      /\ _dedup (S := insertion) (9 # 10) [story_1; story_2; story_3]
         = [story_1; story_2]
      /\ alt_links story_1 = None).
Proof.
  split.
  - repeat split; vm_compute; reflexivity.
  - split; [vm_compute; reflexivity|]. split; [vm_compute; reflexivity|].
    split; [discriminate|]. split; [vm_compute; reflexivity|reflexivity].
Qed.

(** C1, amended. [_dedup] takes the items in the order [sorted] returns
    them, which is by decreasing [(published_at, weight)], items of equal
    keys in input order, whenever [<] orders the keys consistently (as
    when no weight is NaN); and its result is the one outcome of this
    process: an item whose non-empty link is the link of a kept item is
    discarded; otherwise, if its similarity against some kept item is
    >= threshold, it is not kept and the first such kept item, in kept
    order, gets its link appended to [alt_links] (unless empty, equal to
    that primary's link or already there) and its source name to
    [alt_sources] (unless empty, equal or already there); otherwise, its
    similarity against every kept item not being >= threshold (strictly
    below it, for a threshold that is a number), it is appended to the
    kept list as a new primary. *)
Theorem dedup_clusters `{S : PyLib} (threshold : pyfloat)
    (items : list Item) :
  Permutation (py_sorted sort_key items) items
  /\ (consistent sort_key items ->
      StronglySorted key_geq (py_sorted sort_key items)
      /\ forall x, In x items ->
           same_key x (py_sorted sort_key items) = same_key x items)
  /\ (forall out,
        Clusters threshold [] (py_sorted sort_key items) out
        <-> out = _dedup threshold items)
  /\ (forall (q : Q) it p,
        (sim_ge q it p = true <-> (q <= title_sim (title it) (title p))%Q)
        /\ (sim_ge q it p = false <->
            (title_sim (title it) (title p) < q)%Q)).
Proof.
  split; [apply py_sorted_perm|]. split; [|split].
  - intros Hc. split; [apply py_sorted_sorted, Hc|].
    intros x Hx. apply py_sorted_stable; assumption.
  - intros out. split.
    + intros H.
      exact (clusters_sound threshold _ _ _ H ∅ (LoopInv_init threshold)).
    + intros ->.
      exact (clusters_complete threshold _ (∅, []) (LoopInv_init threshold)).
  - intros q it p. apply sim_ge_number.
Qed.

Lemma dedup_clusters_witness :
  StronglySorted key_geq
    (py_sorted (PyLib := insertion) sort_key [story_3; story_1; story_2]).
Proof.
  apply (proj1 (proj2 (dedup_clusters (S := insertion) (9 # 10)
                         [story_3; story_1; story_2]))).
  apply not_nan_consistent. repeat constructor; discriminate.
Defined.

(* ===================================================================== *)
(** * Properties of [collect] *)
(* ===================================================================== *)

(** What became of each source of a list, in order: the outcome of
    [_collect_one] on it, in the state the sources before it left. *)
Fixpoint outcomes `{P : Platform} (cutoff : Z) (srcs : list Source.t)
    (st : RunState) : list (Source.t * result (list Item)) * RunState :=
  match srcs with
  | [] => ([], st)
  | src :: rest =>
      let '(r, st1) := _collect_one cutoff src st in
      let '(os, st2) := outcomes cutoff rest st1 in
      ((src, r) :: os, st2)
  end.

(** A source that raised gives no item and one error entry, with its id
    and the message of the exception; a source that returned gives its
    items and no entry. *)
Definition items_of (os : list (Source.t * result (list Item)))
    : list Item :=
  flat_map (fun o => match snd o with Ok its => its | Raise _ => [] end) os.

Definition errors_of (os : list (Source.t * result (list Item)))
    : list ErrorEntry.t :=
  flat_map
    (fun o =>
       match snd o with
       | Ok _ => []
       | Raise e => [ErrorEntry.mk (Source.id (fst o)) (exn_message e)]
       end) os.

Definition failed {A : Type} (r : result A) : Prop :=
  match r with Ok _ => False | Raise _ => True end.

(** The same for the regions, one after the other. *)
Fixpoint region_outcomes `{P : Platform} (cutoff : Z)
    (sources : list (string * list Source.t)) (st : RunState)
    : list (string * list (Source.t * result (list Item))) * RunState :=
  match sources with
  | [] => ([], st)
  | (region, srcs) :: rest =>
      let '(os, st1) := outcomes cutoff srcs st in
      let '(ros, st2) := region_outcomes cutoff rest st1 in
      ((region, os) :: ros, st2)
  end.

(** The region [collect] assembles from the outcomes of its sources. *)
Definition region_of `{S : PyLib} (threshold : pyfloat)
    (ro : string * list (Source.t * result (list Item)))
    : string * Region.t :=
  (fst ro,
   Region.mk (_dedup threshold (items_of (snd ro))) (errors_of (snd ro))
     (map (fun o => Source.id (fst o)) (snd ro))).

Section CollectFacts.

Context `{P : Platform} `{S : PyLib}.

Lemma outcomes_sources cutoff srcs : forall st,
  map fst (fst (outcomes cutoff srcs st)) = srcs.
Proof.
  induction srcs as [|src rest IH]; intros st; simpl; [reflexivity|].
  destruct (_collect_one cutoff src st) as [r st1].
  specialize (IH st1). destruct (outcomes cutoff rest st1) as [os st2].
  simpl in *. rewrite IH. reflexivity.
Qed.

Lemma collect_sources_outcomes cutoff srcs : forall all_items errors st,
  collect_sources cutoff srcs all_items errors st =
  (Ok (all_items ++ items_of (fst (outcomes cutoff srcs st)),
       errors ++ errors_of (fst (outcomes cutoff srcs st))),
   snd (outcomes cutoff srcs st)).
Proof.
  induction srcs as [|src rest IH]; intros all_items errors st; simpl.
  - unfold ret. rewrite !app_nil_r. reflexivity.
  - unfold bind, try_.
    destruct (_collect_one cutoff src st) as [[its|e] st1];
      rewrite IH; destruct (outcomes cutoff rest st1) as [os st2];
      unfold items_of, errors_of; simpl; rewrite <- ?app_assoc; reflexivity.
Qed.

Lemma collect_regions_outcomes threshold cutoff sources : forall st,
  collect_regions threshold cutoff sources st =
  (Ok (map (region_of threshold) (fst (region_outcomes cutoff sources st))),
   snd (region_outcomes cutoff sources st)).
Proof.
  induction sources as [|[region srcs] rest IH]; intros st; simpl.
  - reflexivity.
  - unfold bind at 1. rewrite collect_sources_outcomes.
    pose proof (outcomes_sources cutoff srcs st) as Hs.
    destruct (outcomes cutoff srcs st) as [os st1]. simpl in Hs |- *.
    unfold bind. rewrite IH.
    destruct (region_outcomes cutoff rest st1) as [ros st2].
    unfold ret, region_of. simpl. rewrite <- Hs, map_map. reflexivity.
Qed.

Lemma region_outcomes_sources cutoff sources : forall st,
  Forall2 (fun s ro => fst ro = fst s /\ map fst (snd ro) = snd s)
    sources (fst (region_outcomes cutoff sources st)).
Proof.
  induction sources as [|[region srcs] rest IH]; intros st; simpl.
  - constructor.
  - pose proof (outcomes_sources cutoff srcs st) as Hs.
    destruct (outcomes cutoff srcs st) as [os st1].
    specialize (IH st1).
    destruct (region_outcomes cutoff rest st1) as [ros st2].
    simpl in *. constructor; [split; [reflexivity|assumption]|assumption].
Qed.

(** [collect], step by step. *)
Lemma collect_unfold cfg window_hours st :
  collect cfg window_hours st =
  match get_threshold cfg with
  | Raise e => (Raise e, st)
  | Ok threshold =>
      match load_sources cfg with
      | Raise e => (Raise e, st)
      | Ok sources =>
          let now := fst (clock_now (world st)) in
          let w1 := snd (clock_now (world st)) in
          match minus_hours now window_hours with
          | Raise e => (Raise e, mkRun w1 (requested st))
          | Ok cutoff =>
              let generated := fst (clock_now w1) in
              let st2 := mkRun (snd (clock_now w1)) (requested st) in
              (Ok (Collection.mk (isoformat generated) window_hours
                     (isoformat cutoff)
                     (map (region_of threshold)
                        (fst (region_outcomes cutoff sources st2)))),
               snd (region_outcomes cutoff sources st2))
          end
      end
  end.
Proof.
  unfold collect, bind, lift, now_utc, ret.
  destruct (get_threshold cfg) as [threshold|e]; [|reflexivity].
  destruct (load_sources cfg) as [sources|e]; [|reflexivity].
  destruct (clock_now (world st)) as [now w1]. simpl.
  destruct (minus_hours now window_hours) as [cutoff|e]; [|reflexivity].
  destruct (clock_now w1) as [generated w2]. simpl.
  rewrite collect_regions_outcomes. reflexivity.
Qed.

End CollectFacts.

(** [it] was built from an entry whose date was read and is not before
    [cutoff]; [_dedup] may have added merge records since. *)
Definition from_dated_entry `{P : Platform} (cutoff : Z) (it : Item) : Prop :=
  exists src url e dt it0,
    entry_date e = Some dt /\ (cutoff <= dt)%Z
    /\ keep_entry cutoff src url e = Some it0
    /\ core it = core it0 /\ published_at it = isoformat dt.

Section CollectTheorems.

Context `{P : Platform} `{S : PyLib}.

Lemma keep_entry_dated cutoff src url e it :
  keep_entry cutoff src url e = Some it -> from_dated_entry cutoff it.
Proof.
  intros H. pose proof H as H'. unfold keep_entry in H.
  destruct (entry_date e) as [dt|] eqn:Ed; [|discriminate].
  destruct (dt <? cutoff)%Z eqn:Hc; [discriminate|].
  injection H as <-. apply Z.ltb_ge in Hc.
  exists src, url, e, dt. eexists.
  split; [exact Ed|]. split; [exact Hc|]. split; [exact H'|].
  split; reflexivity.
Qed.

Lemma keep_entries_dated cutoff src url parsed :
  Forall (from_dated_entry cutoff) (keep_entries cutoff src url parsed).
Proof.
  induction parsed as [|e rest IH]; simpl; [constructor|].
  destruct (keep_entry cutoff src url e) as [it|] eqn:E; [|assumption].
  constructor; [exact (keep_entry_dated _ _ _ _ _ E)|assumption].
Qed.

Lemma collect_one_dated cutoff src st its st' :
  _collect_one cutoff src st = (Ok its, st') ->
  Forall (from_dated_entry cutoff) its.
Proof.
  unfold _collect_one, bind, lift, fetch_xml, ret.
  destruct (build_url src) as [url|e]; [|discriminate].
  destruct (http_get_xml url (world st)) as [[root|e] w]; [|discriminate].
  intros [= <- _]. apply keep_entries_dated.
Qed.

Lemma outcomes_dated cutoff srcs : forall st,
  Forall (from_dated_entry cutoff) (items_of (fst (outcomes cutoff srcs st))).
Proof.
  induction srcs as [|src rest IH]; intros st; simpl; [constructor|].
  destruct (_collect_one cutoff src st) as [r st1] eqn:E.
  specialize (IH st1). destruct (outcomes cutoff rest st1) as [os st2].
  unfold items_of in *. simpl in *. apply Forall_app. split; [|assumption].
  destruct r as [its|e]; [|constructor].
  exact (collect_one_dated _ _ _ _ _ E).
Qed.

Lemma region_outcomes_dated cutoff sources : forall st,
  Forall (fun ro => Forall (from_dated_entry cutoff) (items_of (snd ro)))
    (fst (region_outcomes cutoff sources st)).
Proof.
  induction sources as [|[region srcs] rest IH]; intros st; simpl;
    [constructor|].
  pose proof (outcomes_dated cutoff srcs st) as Hd.
  destruct (outcomes cutoff srcs st) as [os st1].
  specialize (IH st1). destruct (region_outcomes cutoff rest st1) as [ros st2].
  constructor; assumption.
Qed.

Lemma merge_into_dated cutoff it k :
  from_dated_entry cutoff k -> from_dated_entry cutoff (merge_into it k).
Proof.
  intros (src & url & e & dt & it0 & H1 & H2 & H3 & H4 & H5).
  exists src, url, e, dt, it0. repeat split; assumption.
Qed.

(** C5. Every item of [regions.*.items] in the result was built from an
    entry whose [published_at] was read back as a date not before the
    cutoff, where the cutoff is the time read at the start of the run
    minus [window_hours] and [cutoff_utc] is its text; an entry whose
    [published_at] is missing, empty or does not parse gives no item. *)
Theorem collect_items_recent (cfg : pyval) (window_hours : pyfloat)
    (st st' : RunState) (doc : Collection.t) :
  collect cfg window_hours st = (Ok doc, st') ->
  exists cutoff,
    minus_hours (fst (clock_now (world st))) window_hours = Ok cutoff
    /\ Collection.cutoff_utc doc = isoformat cutoff
    /\ (forall region r it,
          In (region, r) (Collection.regions doc) -> In it (Region.items r) ->
          from_dated_entry cutoff it
          /\ exists dt, published_at it = isoformat dt /\ (cutoff <= dt)%Z)
    /\ (forall src url e,
          Entry.published_at e = None
          \/ Entry.published_at e = Some ""
          \/ (exists s, Entry.published_at e = Some s
                /\ fromisoformat_astimezone
                     (PyStr.replace_char "Z" "+00:00" s) = None) ->
          keep_entry cutoff src url e = None).
Proof.
  rewrite collect_unfold.
  destruct (get_threshold cfg) as [threshold|e]; [|discriminate].
  destruct (load_sources cfg) as [sources|e]; [|discriminate].
  simpl.
  destruct (minus_hours (fst (clock_now (world st))) window_hours)
    as [cutoff|e]; [|discriminate].
  intros [= <- _]. exists cutoff. simpl.
  split; [reflexivity|]. split; [reflexivity|]. split.
  - intros region r it Hr Hit.
    apply in_map_iff in Hr. destruct Hr as (ro & Ero & Hro).
    injection Ero as _ <-. simpl in Hit.
    pose proof (region_outcomes_dated cutoff sources
                  (mkRun (snd (clock_now (snd (clock_now (world st)))))
                     (requested st))) as Hd.
    rewrite List.Forall_forall in Hd. specialize (Hd ro Hro).
    pose proof (dedup_Forall _ threshold _ (merge_into_dated cutoff) Hd) as Hk.
    rewrite List.Forall_forall in Hk. specialize (Hk it Hit).
    split; [exact Hk|].
    destruct Hk as (_ & _ & _ & dt & _ & _ & Hc & _ & _ & Hp).
    exists dt. auto.
  - intros src url e H. unfold keep_entry.
    assert (Ed : entry_date e = None).
    { unfold entry_date.
      destruct H as [->|[->|(s & -> & Hs)]]; [reflexivity..|].
      rewrite Hs. destruct (PyStr.truthy s); reflexivity. }
    rewrite Ed. reflexivity.
Qed.

(** C8. When the configuration was read (the threshold and the sources)
    and the cutoff computed, [collect] returns a document whatever the
    sources do.  Each region of the document comes from the outcomes of
    its sources, every source being processed in turn whatever happened to
    those before it: a source that raised at any stage of [_collect_one]
    gives one error entry, with its id and the message, and no item; when
    all sources of a region raise, its item list is empty and its error
    list has one entry per source. *)
Theorem collect_survives_source_faults (cfg : pyval)
    (window_hours : pyfloat) (st : RunState) (threshold : pyfloat)
    (sources : list (string * list Source.t)) (cutoff : Z) :
  get_threshold cfg = Ok threshold ->
  load_sources cfg = Ok sources ->
  minus_hours (fst (clock_now (world st))) window_hours = Ok cutoff ->
  exists doc st' st0 ros,
    collect cfg window_hours st = (Ok doc, st')
    /\ st0 = mkRun (snd (clock_now (snd (clock_now (world st)))))
               (requested st)
    /\ (ros, st') = region_outcomes cutoff sources st0
    /\ Collection.regions doc = map (region_of threshold) ros
    /\ Forall2 (fun s ro => fst ro = fst s /\ map fst (snd ro) = snd s)
         sources ros
    /\ (forall ro, In ro ros ->
          length (errors_of (snd ro)) + length
            (List.filter
               (fun o => match snd o with Ok _ => true | Raise _ => false end)
               (snd ro)) = length (snd ro))
    /\ (forall ro, In ro ros ->
          Forall (fun o => failed (snd o)) (snd ro) ->
          Region.items (snd (region_of threshold ro)) = []
          /\ map ErrorEntry.source (Region.errors (snd (region_of threshold ro)))
             = Region.sources (snd (region_of threshold ro))).
Proof.
  intros Ht Hs Hc. rewrite collect_unfold, Ht, Hs. simpl. rewrite Hc.
  set (st0 := mkRun (snd (clock_now (snd (clock_now (world st)))))
                (requested st)).
  eexists. exists (snd (region_outcomes cutoff sources st0)), st0,
    (fst (region_outcomes cutoff sources st0)).
  split; [reflexivity|]. split; [reflexivity|].
  split; [symmetry; apply surjective_pairing|].
  split; [reflexivity|]. split; [apply region_outcomes_sources|]. split.
  - intros [region os] _. simpl. unfold errors_of.
    induction os as [|[src [its|e]] os IH]; simpl in *; lia.
  - intros [region os] _ Hf. simpl in *.
    assert (E : items_of os = []
                /\ map ErrorEntry.source (errors_of os)
                   = map (fun o => Source.id (fst o)) os).
    { unfold items_of, errors_of.
      induction Hf as [|[src [its|e]] os Hx Hf IH]; simpl in *.
      - auto.
      - contradiction.
      - destruct IH as [-> ->]. auto. }
    destruct E as [-> ->]. split; [apply dedup_nil|reflexivity].
Qed.

(** C10. The threshold is read from the second rule whatever the number
    of rules: when [global.deduplication.rules] is a list of fewer than two
    elements, [collect] raises [IndexError] and leaves the state of the run
    as it found it (no clock read, no URL requested); when the
    configuration has no [global] key, the threshold is 0.9. *)
Theorem threshold_rules_short :
  (forall (c g d : list (string * pyval)) (rules : list pyval)
          (window_hours : pyfloat) (st : RunState),
      dict_lookup "global" c = Some (PDict g) ->
      dict_lookup "deduplication" g = Some (PDict d) ->
      dict_lookup "rules" d = Some (PList rules) ->
      length rules < 2 ->
      collect (PDict c) window_hours st
      = (Raise (Exn "IndexError" "list index out of range"), st))
  /\ (forall c : list (string * pyval),
        dict_lookup "global" c = None ->
        get_threshold (PDict c) = Ok (FNum (9 # 10))).
Proof.
  split.
  - intros c g d rules window_hours st Hg Hd Hr Hlen.
    rewrite collect_unfold. unfold get_threshold. simpl.
    rewrite Hg. simpl. rewrite Hd. simpl. rewrite Hr. simpl.
    destruct rules as [|r0 [|r1 rules]]; simpl in *; try reflexivity; lia.
  - intros c Hg. unfold get_threshold. simpl. rewrite Hg. reflexivity.
Qed.

End CollectTheorems.

(* ===================================================================== *)
(** * A small platform, to run [collect] on *)
(* ===================================================================== *)

(** Instants are printed as decimal numbers of microseconds; the clock
    advances by one at each reading; two feeds exist, any other URL is out
    of reach. *)
Definition toy_print (z : Z) : string :=
  DecimalString.NilZero.string_of_int (Z.to_int z).

Definition toy_read (s : string) : option Z :=
  option_map Z.of_int (DecimalString.NilZero.int_of_string s).

Definition toy_item (title link date : string) : Element :=
  mkElement "item" [] None
    [mkElement "title" [] (Some title) [];
     mkElement "link" [] (Some link) [];
     mkElement "pubDate" [] (Some date) []].

Definition toy_feed_reuters : Element :=
  mkElement "rss" [("version", "2.0")] None
    [mkElement "channel" [] None
       [mkElement "title" [] (Some "Reuters") [];
        toy_item "Fed cuts rates" "https://reuters.example/fed" "5000";
        toy_item "Old story" "https://reuters.example/old" "50";
        mkElement "item" [] None
          [mkElement "title" [] (Some "Undated story") [];
           mkElement "link" [] (Some "https://reuters.example/undated") []]]].

Definition toy_feed_cnbc : Element :=
  mkElement "{http://www.w3.org/2005/Atom}feed" [] None
    [mkElement "{http://www.w3.org/2005/Atom}entry" [] None
       [mkElement "{http://www.w3.org/2005/Atom}title" []
          (Some " Fed Cuts Rates by 25bps ") [];
        mkElement "{http://www.w3.org/2005/Atom}link"
          [("rel", "self"); ("href", "https://cnbc.example/self")] None [];
        mkElement "{http://www.w3.org/2005/Atom}link"
          [("href", "https://cnbc.example/fed-25")] None [];
        mkElement "{http://www.w3.org/2005/Atom}updated" [] (Some "4000") []]].

Definition toy_platform : Platform := {|
  World := Z;
  clock_now := fun w => (w, (w + 1)%Z);
  http_get_xml := fun url w =>
    (if py_eqb url (PStr "https://reuters.example/rss")
     then Ok toy_feed_reuters
     else if py_eqb url (PStr "https://cnbc.example/rss")
     then Ok toy_feed_cnbc
     else Raise (Exn "ConnectionError" "host unreachable"), w);
  minus_hours := fun now h =>
    match h with
    | FNum q => Ok (now - Qfloor (q * 3600000000))%Z
    | FInf _ =>
        Raise (Exn "OverflowError" "cannot convert float infinity to integer")
    | FNaN => Raise (Exn "ValueError" "cannot convert float NaN to integer")
    end;
  isoformat := toy_print;
  parsedate_utc := toy_read;
  fromisoformat_utc := toy_read;
  fromisoformat_astimezone := toy_read;
  float_of_str := fun s => Raise (Exn "ValueError" "could not convert");
  float_of_int := fun z => Ok (FNum (inject_Z z));
  format_query := fun t q => Raise (Exn "KeyError" "query");
  py_str := fun v => match v with PStr s => s | _ => type_name v end
|}.

Definition toy_source (id name url : string) : pyval :=
  PDict [("id", PStr id); ("name", PStr name); ("type", PStr "rss");
         ("url", PStr url); ("weight", PFloat 1)].

Definition toy_cfg : pyval :=
  PDict
    [("global",
      PDict [("deduplication",
              PDict [("rules",
                      PList [PDict [("type", PStr "exact_url")];
                             PDict [("type", PStr "title_similarity");
                                    ("threshold", PFloat (6 # 10))]])])]);
     ("taiwan",
      PDict [("tier1",
              PDict [("sources",
                      PList [toy_source "reuters" "Reuters"
                               "https://reuters.example/rss";
                             toy_source "down" "Down"
                               "https://down.example/rss";
                             toy_source "cnbc" "CNBC"
                               "https://cnbc.example/rss"])])]);
     ("global_markets",
      PDict [("tier1",
              PDict [("sources",
                      PList [toy_source "down2" "Down too"
                               "https://down.example/rss2"])])])].

Definition toy_start : @RunState toy_platform :=
  @mkRun toy_platform 7200000100%Z [].

(** The sources [load_sources] reads from [toy_cfg], and the document
    [collect] returns. *)
Definition toy_sources : list (string * list Source.t) :=
  Eval vm_compute in
    match @load_sources toy_platform toy_cfg with
    | Ok s => s
    | Raise _ => []
    end.

Definition toy_doc : Collection.t :=
  Eval vm_compute in
    match fst (@collect toy_platform insertion toy_cfg 2 toy_start) with
    | Ok doc => doc
    | Raise _ => Collection.mk "" 0 "" []
    end.

Definition toy_end : @RunState toy_platform :=
  Eval vm_compute in snd (@collect toy_platform insertion toy_cfg 2 toy_start).

(** The same configuration with one rule only. *)
Definition toy_cfg_one_rule : list (string * pyval) :=
  [("global",
    PDict [("deduplication",
            PDict [("rules", PList [PDict [("type", PStr "exact_url")]])])]);
   ("taiwan", PDict []);
   ("global_markets", PDict [])].

Lemma collect_items_recent_witness :
  exists cutoff,
    Collection.cutoff_utc toy_doc = toy_print cutoff
    /\ forall region r it,
         In (region, r) (Collection.regions toy_doc) ->
         In it (Region.items r) ->
         exists dt, published_at it = toy_print dt /\ (cutoff <= dt)%Z.
Proof.
  assert (H : @collect toy_platform insertion toy_cfg 2 toy_start
              = (Ok toy_doc, toy_end)) by (vm_compute; reflexivity).
  destruct (@collect_items_recent toy_platform insertion _ _ _ _ _ H)
    as (cutoff & _ & Hc & Hi & _).
  exists cutoff. split; [exact Hc|].
  intros region r it Hr Hit. exact (proj2 (Hi region r it Hr Hit)).
Defined.

Lemma collect_survives_source_faults_witness :
  exists doc st',
    @collect toy_platform insertion toy_cfg 2 toy_start = (Ok doc, st')
    /\ map fst (Collection.regions doc) = ["taiwan"; "global"].
Proof.
  destruct (@collect_survives_source_faults toy_platform insertion toy_cfg 2 toy_start
              (6 # 10) toy_sources 100%Z eq_refl eq_refl eq_refl)
    as (doc & st' & st0 & ros & H & _ & _ & Hr & Hs & _).
  exists doc, st'. split; [exact H|].
  rewrite Hr, map_map.
  inversion Hs as [|? ro1 ? ros1 [H1 _] Hs1]; subst.
  inversion Hs1 as [|? ro2 ? ros2 [H2 _] Hs2]; subst.
  inversion Hs2; subst. simpl. rewrite H1, H2. reflexivity.
Defined.

Lemma threshold_rules_short_witness :
  @collect toy_platform insertion (PDict toy_cfg_one_rule) 2 toy_start
  = (Raise (Exn "IndexError" "list index out of range"), toy_start).
Proof.
  apply (proj1 (@threshold_rules_short toy_platform insertion)
           toy_cfg_one_rule
           [("deduplication",
             PDict [("rules", PList [PDict [("type", PStr "exact_url")]])])]
           [("rules", PList [PDict [("type", PStr "exact_url")]])]
           [PDict [("type", PStr "exact_url")]]);
    try reflexivity.
  simpl. lia.
Defined.

(* ===================================================================== *)
(** * More on strings and titles *)
(* ===================================================================== *)

Section StringFacts.

Context `{S : PyLib}.

(** ** Characters *)

Fixpoint all_cont (s : string) : bool :=
  match s with
  | EmptyString => true
  | String c r => PyStr.is_cont c && all_cont r
  end.

(** [ch] is one character: a byte and the continuation bytes after it. *)
Definition is_char (ch : string) : Prop :=
  match ch with
  | EmptyString => False
  | String _ t => all_cont t = true
  end.

(** A list of characters as [chars] returns them: every one after the
    first begins with a byte that begins a character. *)
Definition well_formed (l : list string) : Prop :=
  Forall is_char l /\ Forall (fun ch => PyStr.continues ch = false) (tl l).

Lemma chars_cons c r :
  PyStr.chars (String c r) =
  match PyStr.chars r with
  | [] => [String c EmptyString]
  | ch :: cs =>
      if PyStr.continues r then String c ch :: cs
      else String c EmptyString :: ch :: cs
  end.
Proof. reflexivity. Qed.

Lemma chars_head d r :
  exists t cs, PyStr.chars (String d r) = String d t :: cs.
Proof.
  rewrite chars_cons. destruct (PyStr.chars r) as [|ch cs]; [eauto|].
  destruct (PyStr.continues r); eauto.
Qed.

Lemma chars_well_formed s : well_formed (PyStr.chars s).
Proof.
  induction s as [|c r IH]; [split; constructor|].
  rewrite chars_cons. destruct (PyStr.chars r) as [|ch cs] eqn:E.
  - split; repeat constructor.
  - destruct r as [|d r0]; [discriminate E|].
    destruct (chars_head d r0) as (t & cs' & E'). rewrite E in E'.
    injection E' as -> ->. destruct IH as [Hc Hs]. simpl in Hs.
    inversion Hc as [|? ? Hch Hcs]; subst.
    simpl. destruct (PyStr.is_cont d) eqn:Ed.
    + split; [|exact Hs]. constructor; [|exact Hcs].
      simpl. rewrite Ed. exact Hch.
    + split; [repeat constructor; assumption|].
      simpl. constructor; [exact Ed|exact Hs].
Qed.

(** The characters of a string make up the string. *)
Lemma join_chars s : PyStr.join (PyStr.chars s) = s.
Proof.
  induction s as [|c r IH]; [reflexivity|].
  rewrite chars_cons. destruct (PyStr.chars r) as [|ch cs].
  - simpl in IH. rewrite <- IH. reflexivity.
  - destruct (PyStr.continues r);
      change (String c (PyStr.join (ch :: cs)) = String c r);
      rewrite IH; reflexivity.
Qed.

Lemma chars_char c t s :
  all_cont t = true -> PyStr.continues s = false ->
  PyStr.chars (String c (t +:+ s)) = String c t :: PyStr.chars s.
Proof.
  revert c. induction t as [|e t' IH]; intros c Ht Hs.
  - change ("" +:+ s) with s. rewrite chars_cons.
    destruct (PyStr.chars s); [reflexivity|]. rewrite Hs. reflexivity.
  - simpl in Ht. apply andb_prop in Ht as [He Ht].
    change (String e t' +:+ s) with (String e (t' +:+ s)).
    rewrite chars_cons, (IH e Ht Hs). simpl. rewrite He.
    reflexivity.
Qed.

Lemma continues_join ch l :
  is_char ch -> PyStr.continues (PyStr.join (ch :: l)) = PyStr.continues ch.
Proof. destruct ch; [intros []|reflexivity]. Qed.

Lemma well_formed_tail ch l : well_formed (ch :: l) -> well_formed l.
Proof.
  intros [Hc Hs]. inversion Hc; subst. split; [assumption|].
  simpl in Hs. destruct l; [constructor|]. inversion Hs; assumption.
Qed.

(** A well-formed list is the list of the characters of its [join]. *)
Lemma chars_join l : well_formed l -> PyStr.chars (PyStr.join l) = l.
Proof.
  induction l as [|ch r IH]; intros H; [reflexivity|].
  pose proof (well_formed_tail _ _ H) as Hr.
  destruct H as [Hc Hs]. inversion Hc as [|? ? Hch _]; subst.
  destruct ch as [|c t]; [destruct Hch|].
  change (PyStr.join (String c t :: r)) with (String c (t +:+ PyStr.join r)).
  rewrite chars_char, (IH Hr); [reflexivity|exact Hch|].
  destruct r as [|ch' r']; [reflexivity|].
  simpl in Hs. inversion Hs; subst. destruct Hr as [Hr _].
  inversion Hr; subst. rewrite continues_join; assumption.
Qed.

(** ** [strip] *)

(** [l] does not begin with white space. *)
Definition no_lead (l : list string) : Prop :=
  match l with
  | [] => True
  | ch :: _ => PyStr.isspace ch = false
  end.

(** The last character of [l] is not white space; [prev] tells whether the
    character before [l] was, and stands for the last one when [l] is
    empty. *)
Fixpoint trail_ok (prev : bool) (l : list string) : Prop :=
  match l with
  | [] => prev = false
  | ch :: r => trail_ok (PyStr.isspace ch) r
  end.

Definition strip_chars (l : list string) : list string :=
  PyStr.rstrip_chars (PyStr.lstrip_chars l).

Lemma lstrip_no_lead l : no_lead (PyStr.lstrip_chars l).
Proof.
  induction l as [|ch r IH]; simpl; [exact I|].
  destruct (PyStr.isspace ch) eqn:E; [exact IH|exact E].
Qed.

Lemma lstrip_fixed l : no_lead l -> PyStr.lstrip_chars l = l.
Proof. destruct l as [|ch r]; simpl; [reflexivity|]. intros ->. reflexivity. Qed.

Lemma rstrip_cons ch r :
  PyStr.rstrip_chars (ch :: r) =
  match PyStr.rstrip_chars r with
  | [] => if PyStr.isspace ch then [] else [ch]
  | r' => ch :: r'
  end.
Proof. reflexivity. Qed.

Lemma rstrip_no_lead l : no_lead l -> no_lead (PyStr.rstrip_chars l).
Proof.
  destruct l as [|ch r]; [trivial|]. rewrite rstrip_cons. simpl. intros E.
  destruct (PyStr.rstrip_chars r); [rewrite E|]; exact E.
Qed.

Lemma rstrip_trail_ok l : forall prev,
  PyStr.rstrip_chars l = [] \/ trail_ok prev (PyStr.rstrip_chars l).
Proof.
  induction l as [|ch r IH]; intros prev; [left; reflexivity|].
  rewrite rstrip_cons. destruct (PyStr.rstrip_chars r) as [|d r'] eqn:E.
  - destruct (PyStr.isspace ch) eqn:Ec; [left; reflexivity|].
    right. simpl. exact Ec.
  - right. destruct (IH (PyStr.isspace ch)) as [H|H]; [discriminate|].
    exact H.
Qed.

Lemma rstrip_fixed l : forall prev,
  trail_ok prev l -> PyStr.rstrip_chars l = l.
Proof.
  induction l as [|ch r IH]; intros prev H; [reflexivity|].
  rewrite rstrip_cons. simpl in H. rewrite (IH _ H).
  destruct r as [|d r']; [|reflexivity]. simpl in H. rewrite H. reflexivity.
Qed.

Lemma rstrip_idem l :
  PyStr.rstrip_chars (PyStr.rstrip_chars l) = PyStr.rstrip_chars l.
Proof.
  destruct (rstrip_trail_ok l false) as [->|H]; [reflexivity|].
  exact (rstrip_fixed _ _ H).
Qed.

Lemma strip_chars_no_lead l : no_lead (strip_chars l).
Proof. apply rstrip_no_lead, lstrip_no_lead. Qed.

Lemma strip_chars_idem l : strip_chars (strip_chars l) = strip_chars l.
Proof.
  unfold strip_chars at 1.
  rewrite (lstrip_fixed _ (strip_chars_no_lead l)). apply rstrip_idem.
Qed.

Lemma lstrip_Forall (P : string -> Prop) l :
  Forall P l -> Forall P (PyStr.lstrip_chars l).
Proof.
  induction 1 as [|ch r Hch Hr IH]; simpl; [constructor|].
  destruct (PyStr.isspace ch); [exact IH|constructor; assumption].
Qed.

Lemma rstrip_Forall (P : string -> Prop) l :
  Forall P l -> Forall P (PyStr.rstrip_chars l).
Proof.
  induction 1 as [|ch r Hch Hr IH]; [constructor|].
  rewrite rstrip_cons. destruct (PyStr.rstrip_chars r).
  - destruct (PyStr.isspace ch); repeat constructor; assumption.
  - constructor; assumption.
Qed.

Lemma strip_chars_Forall (P : string -> Prop) l :
  Forall P l -> Forall P (strip_chars l).
Proof. intros H. apply rstrip_Forall, lstrip_Forall, H. Qed.

Lemma lstrip_well_formed l :
  well_formed l -> well_formed (PyStr.lstrip_chars l).
Proof.
  induction l as [|ch r IH]; intros H; simpl; [exact H|].
  destruct (PyStr.isspace ch); [|exact H].
  apply IH, (well_formed_tail _ _ H).
Qed.

Lemma rstrip_tl l :
  PyStr.rstrip_chars l = [] \/
  exists ch r, l = ch :: r /\ PyStr.rstrip_chars l = ch :: PyStr.rstrip_chars r.
Proof.
  destruct l as [|ch r]; [left; reflexivity|]. rewrite rstrip_cons.
  destruct (PyStr.rstrip_chars r) eqn:E.
  - destruct (PyStr.isspace ch); [left; reflexivity|].
    right. exists ch, r. rewrite E. auto.
  - right. exists ch, r. rewrite E. auto.
Qed.

Lemma rstrip_well_formed l :
  well_formed l -> well_formed (PyStr.rstrip_chars l).
Proof.
  intros [Hc Hs]. split; [apply rstrip_Forall, Hc|].
  destruct (rstrip_tl l) as [->|(ch & r & -> & ->)]; [constructor|].
  simpl in *. apply rstrip_Forall, Hs.
Qed.

Lemma strip_chars_well_formed l : well_formed l -> well_formed (strip_chars l).
Proof. intros H. apply rstrip_well_formed, lstrip_well_formed, H. Qed.

(** The characters of [s.strip()]. *)
Lemma chars_strip s : PyStr.chars (PyStr.strip s) = strip_chars (PyStr.chars s).
Proof. apply chars_join, strip_chars_well_formed, chars_well_formed. Qed.

Lemma strip_strip (t : string) : PyStr.strip (PyStr.strip t) = PyStr.strip t.
Proof.
  unfold PyStr.strip at 1. fold (strip_chars (PyStr.chars (PyStr.strip t))).
  rewrite chars_strip, strip_chars_idem. reflexivity.
Qed.

(** X1. [strip] is idempotent, and so are [canonical_url] and the text
    [_text] returns: trimming a trimmed string changes nothing. *)
Theorem strip_idempotent (s : string) (el : option Element) :
  PyStr.strip (PyStr.strip s) = PyStr.strip s
  /\ canonical_url (canonical_url s) = canonical_url s
  /\ PyStr.strip (_text el) = _text el.
Proof.
  split; [apply strip_strip|]. split; [apply strip_strip|].
  destruct el as [[t a [x|] c]|]; simpl; [apply strip_strip|reflexivity..].
Qed.

(** ** Titles written in ASCII *)

(** [ch] is an ASCII character. *)
Definition ascii_char (ch : string) : Prop :=
  match ch with
  | String c EmptyString => (N_of_ascii c <? 128)%N = true
  | _ => False
  end.

(** [l] is in normal form after a character that was white space or not
    ([prev]): its white space is single blanks, none at the end, and it has
    no capital letter. *)
Fixpoint norm_ok (prev : bool) (l : list string) : Prop :=
  match l with
  | [] => prev = false
  | ch :: r =>
      (if PyStr.isspace ch then ch = " " /\ prev = false
       else PyStr.lower_ascii ch = ch)
      /\ norm_ok (PyStr.isspace ch) r
  end.

Lemma ascii_byte c :
  (N_of_ascii c <? 128)%N = true -> PyStr.is_cont c = false.
Proof.
  unfold PyStr.is_cont. intros H. apply N.ltb_lt in H.
  apply andb_false_iff. left. apply N.leb_gt. exact H.
Qed.

Lemma chars_ascii s :
  PyStr.is_ascii s = true -> Forall ascii_char (PyStr.chars s).
Proof.
  induction s as [|c r IH]; [constructor|]. simpl PyStr.is_ascii.
  intros H. apply andb_prop in H as [Hc Hr]. specialize (IH Hr).
  rewrite chars_cons. destruct (PyStr.chars r) as [|ch cs] eqn:E.
  - repeat constructor. exact Hc.
  - destruct r as [|d r0]; [discriminate E|].
    simpl in Hr. apply andb_prop in Hr as [Hd _].
    simpl. rewrite (ascii_byte _ Hd). constructor; [exact Hc|exact IH].
Qed.

Lemma ascii_well_formed l : Forall ascii_char l -> well_formed l.
Proof.
  intros H. split.
  - eapply List.Forall_impl; [|exact H].
    intros [|c [|]]; simpl; tauto.
  - assert (H' : Forall (fun ch => PyStr.continues ch = false) l).
    { eapply List.Forall_impl; [|exact H].
      intros [|c [|]]; simpl; try tauto. apply ascii_byte. }
    destruct l; [constructor|]. inversion H'; assumption.
Qed.

Lemma join_ascii l : Forall ascii_char l -> PyStr.is_ascii (PyStr.join l) = true.
Proof.
  induction 1 as [|ch r Hch Hr IH]; [reflexivity|].
  destruct ch as [|c [|]]; simpl in Hch; try tauto.
  change ((N_of_ascii c <? 128)%N && PyStr.is_ascii (PyStr.join r) = true).
  rewrite Hch. exact IH.
Qed.

Lemma lower_join l :
  Forall ascii_char l ->
  PyStr.lower_ascii (PyStr.join l) = PyStr.join (map PyStr.lower_ascii l).
Proof.
  induction 1 as [|ch r Hch Hr IH]; [reflexivity|].
  destruct ch as [|c [|]]; simpl in Hch; try tauto.
  change (String (PyStr.lower_char c) (PyStr.lower_ascii (PyStr.join r))
          = String (PyStr.lower_char c)
              (PyStr.join (map PyStr.lower_ascii r))).
  rewrite IH. reflexivity.
Qed.

Lemma isspace_lower ch :
  ascii_char ch -> PyStr.isspace (PyStr.lower_ascii ch) = PyStr.isspace ch.
Proof.
  destruct ch as [|c [|]]; simpl; try tauto.
  destruct c as [[] [] [] [] [] [] [] []]; intros H;
    solve [vm_compute; reflexivity | discriminate H].
Qed.

Lemma lower_lower ch :
  ascii_char ch ->
  PyStr.lower_ascii (PyStr.lower_ascii ch) = PyStr.lower_ascii ch.
Proof.
  destruct ch as [|c [|]]; simpl; try tauto.
  destruct c as [[] [] [] [] [] [] [] []]; intros H;
    solve [vm_compute; reflexivity | discriminate H].
Qed.

Lemma lower_ascii_char ch : ascii_char ch -> ascii_char (PyStr.lower_ascii ch).
Proof.
  destruct ch as [|c [|]]; simpl; try tauto.
  destruct c as [[] [] [] [] [] [] [] []]; intros H;
    solve [vm_compute; reflexivity | discriminate H].
Qed.

Lemma lower_Forall l :
  Forall ascii_char l -> Forall ascii_char (map PyStr.lower_ascii l).
Proof.
  intros H. apply List.Forall_map.
  eapply List.Forall_impl; [|exact H]. apply lower_ascii_char.
Qed.

Lemma lower_no_lead l :
  Forall ascii_char l -> no_lead l -> no_lead (map PyStr.lower_ascii l).
Proof.
  destruct 1 as [|ch r Hch Hr]; simpl; [trivial|].
  rewrite (isspace_lower _ Hch). trivial.
Qed.

Lemma lower_trail_ok l : forall prev,
  Forall ascii_char l ->
  trail_ok prev l -> trail_ok prev (map PyStr.lower_ascii l).
Proof.
  induction l as [|ch r IH]; intros prev Hl H; simpl in *; [exact H|].
  inversion Hl; subst. rewrite isspace_lower by assumption.
  apply IH; assumption.
Qed.

Lemma sub_spaces_Forall l : forall prev,
  Forall ascii_char l -> Forall ascii_char (PyStr.sub_spaces_from prev l).
Proof.
  induction l as [|ch r IH]; intros prev Hl; simpl; [constructor|].
  inversion Hl; subst.
  destruct (PyStr.isspace ch); [destruct prev|].
  - auto.
  - constructor; [reflexivity|auto].
  - constructor; auto.
Qed.

(** What [re.sub] returns on a lower-case string that does not end in
    white space is in normal form. *)
Lemma sub_spaces_norm l : forall prev,
  Forall ascii_char l ->
  trail_ok prev (map PyStr.lower_ascii l) ->
  norm_ok prev (PyStr.sub_spaces_from prev (map PyStr.lower_ascii l)).
Proof.
  induction l as [|ch r IH]; intros prev Hl H; simpl in *; [exact H|].
  inversion Hl as [|? ? Hch Hr]; subst.
  rewrite (isspace_lower _ Hch) in *.
  destruct (PyStr.isspace ch) eqn:E.
  - destruct prev.
    + apply IH; assumption.
    + simpl. split; [split; reflexivity|]. apply IH; assumption.
  - simpl. rewrite (isspace_lower _ Hch), E. split.
    + apply lower_lower, Hch.
    + apply IH; assumption.
Qed.

Lemma sub_spaces_no_lead l :
  no_lead l -> no_lead (PyStr.sub_spaces_from false l).
Proof.
  destruct l as [|ch r]; simpl; [trivial|]. intros E. rewrite E. simpl.
  exact E.
Qed.

Lemma norm_ok_trail l : forall prev, norm_ok prev l -> trail_ok prev l.
Proof.
  induction l as [|ch r IH]; intros prev H; simpl in *; [exact H|].
  apply IH, H.
Qed.

Lemma norm_ok_lower l : forall prev,
  norm_ok prev l -> map PyStr.lower_ascii l = l.
Proof.
  induction l as [|ch r IH]; intros prev H; [reflexivity|].
  destruct H as [Hc Hr]. simpl.
  rewrite (IH _ Hr). f_equal.
  destruct (PyStr.isspace ch); [destruct Hc as [-> _]; reflexivity|].
  exact Hc.
Qed.

Lemma norm_ok_sub_spaces l : forall prev,
  norm_ok prev l -> PyStr.sub_spaces_from prev l = l.
Proof.
  induction l as [|ch r IH]; intros prev H; [reflexivity|].
  destruct H as [Hc Hr]. simpl.
  destruct (PyStr.isspace ch) eqn:E.
  - destruct Hc as [-> ->]. rewrite (IH _ Hr). reflexivity.
  - rewrite (IH _ Hr). reflexivity.
Qed.

(** The characters of the normal form of an ASCII title. *)
Definition norm_chars (l : list string) : list string :=
  PyStr.sub_spaces_from false (map PyStr.lower_ascii (strip_chars l)).

Lemma title_norm_join l :
  Forall ascii_char l -> title_norm (PyStr.join l) = PyStr.join (norm_chars l).
Proof.
  intros Hl. unfold title_norm, PyStr.sub_spaces, PyStr.strip, norm_chars.
  rewrite (chars_join _ (ascii_well_formed _ Hl)).
  fold (strip_chars l).
  pose proof (strip_chars_Forall _ _ Hl) as Hs.
  unfold lower. rewrite (join_ascii _ Hs), (lower_join _ Hs).
  rewrite (chars_join _ (ascii_well_formed _ (lower_Forall _ Hs))).
  reflexivity.
Qed.

Lemma norm_chars_Forall l : Forall ascii_char l -> Forall ascii_char (norm_chars l).
Proof.
  intros Hl. apply sub_spaces_Forall, lower_Forall, strip_chars_Forall, Hl.
Qed.

Lemma norm_chars_idem l :
  Forall ascii_char l -> norm_chars (norm_chars l) = norm_chars l.
Proof.
  intros Hl. pose proof (strip_chars_Forall _ _ Hl) as Hs.
  destruct (rstrip_trail_ok (PyStr.lstrip_chars l) false) as [E|H].
  - unfold norm_chars, strip_chars. rewrite E. reflexivity.
  - fold (strip_chars l) in H.
    assert (Hn : norm_ok false (norm_chars l))
      by (apply sub_spaces_norm, lower_trail_ok; assumption).
    assert (Hd : no_lead (norm_chars l))
      by (apply sub_spaces_no_lead, lower_no_lead;
          [exact Hs|apply strip_chars_no_lead]).
    unfold norm_chars at 1. unfold strip_chars.
    rewrite (lstrip_fixed _ Hd).
    rewrite (rstrip_fixed _ _ (norm_ok_trail _ _ Hn)).
    rewrite (norm_ok_lower _ _ Hn).
    apply (norm_ok_sub_spaces _ _ Hn).
Qed.

Lemma title_norm_twice s :
  PyStr.is_ascii s = true -> title_norm (title_norm s) = title_norm s.
Proof.
  intros Hs. pose proof (chars_ascii _ Hs) as Hl.
  assert (E : title_norm s = PyStr.join (norm_chars (PyStr.chars s))).
  { rewrite <- (join_chars s) at 1. apply title_norm_join, Hl. }
  rewrite E, (title_norm_join _ (norm_chars_Forall _ Hl)).
  rewrite (norm_chars_idem _ Hl). reflexivity.
Qed.

(** X2. On titles written in ASCII, [title_norm] is idempotent: a
    normalized title is its own normal form, so that [title_sim] gives the
    same score on titles and on their normal forms. *)
Theorem title_norm_idempotent (a b : string) :
  PyStr.is_ascii a = true -> PyStr.is_ascii b = true ->
  title_norm (title_norm a) = title_norm a
  /\ title_sim (title_norm a) (title_norm b) = title_sim a b.
Proof.
  intros Ha Hb. split; [apply title_norm_twice, Ha|].
  unfold title_sim. rewrite !title_norm_twice by assumption. reflexivity.
Qed.

End StringFacts.

Lemma title_norm_idempotent_witness :
  title_norm (S := insertion)
    (title_norm (S := insertion) "  FED  Cuts Rates ")
  = title_norm (S := insertion) "  FED  Cuts Rates ".
Proof.
  apply (title_norm_idempotent (S := insertion)
           "  FED  Cuts Rates " "Fed cuts rates");
    reflexivity.
Defined.

(* ===================================================================== *)
(** * The range of the similarity *)
(* ===================================================================== *)

Section MatcherBounds.

Context {A : Type} (eqb : A -> A -> bool) (dflt : A).

Variables a b : list A.

(** A match that lies in the columns [blo .. bhi-1] of [b]. *)
Definition inside_b (blo bhi : nat) (m : Difflib.Match) : Prop :=
  let '(_, bestj, bestsize) := m in blo <= bestj /\ bestj + bestsize <= bhi.

(** A match recorded in [j2len] as ending in column [j] starts at [blo] or
    after. *)
Definition lengths_b (blo : nat) (j2len : list (nat * nat)) : Prop :=
  forall j, Difflib.j2len_get j2len j <= j + 1 - blo.

Lemma scan_row_inside_b j2len i blo bhi js : forall newj2len best,
  lengths_b blo j2len ->
  lengths_b blo newj2len ->
  inside_b blo bhi best ->
  lengths_b blo (fst (Difflib.scan_row j2len i blo bhi js newj2len best))
  /\ inside_b blo bhi
       (snd (Difflib.scan_row j2len i blo bhi js newj2len best)).
Proof.
  induction js as [|j rest IH]; intros newj2len best Hj Hn Hb; simpl.
  - auto.
  - destruct (j <? blo) eqn:E1; [apply IH; assumption|].
    destruct (bhi <=? j) eqn:E2; [auto|].
    apply Nat.ltb_ge in E1. apply Nat.leb_gt in E2.
    set (k := S (match j with 0 => 0 | S j' => Difflib.j2len_get j2len j' end)).
    assert (Hk : k <= j + 1 - blo).
    { unfold k. destruct j as [|j']; [lia|].
      specialize (Hj j'). lia. }
    apply IH; try assumption.
    + intros j0. simpl. destruct (j =? j0) eqn:E; [|apply Hn].
      apply Nat.eqb_eq in E. subst j0. exact Hk.
    + destruct best as [[besti bestj] bestsize].
      destruct (bestsize <? k); [|exact Hb].
      unfold inside_b. lia.
Qed.

Lemma scan_rows_inside_b n : forall i blo bhi j2len best,
  lengths_b blo j2len ->
  inside_b blo bhi best ->
  inside_b blo bhi (Difflib.scan_rows eqb dflt a b n i blo bhi j2len best).
Proof.
  induction n as [|n IH]; intros i blo bhi j2len best Hj Hb; simpl.
  - exact Hb.
  - destruct (Difflib.scan_row j2len i blo bhi
                (Difflib.b2j eqb b (Difflib.at_ dflt a i)) [] best)
      as [newj2len best'] eqn:E.
    pose proof (scan_row_inside_b j2len i blo bhi
                  (Difflib.b2j eqb b (Difflib.at_ dflt a i)) [] best Hj
                  (fun j => Nat.le_0_l _) Hb) as [H1 H2].
    rewrite E in H1, H2. apply IH; assumption.
Qed.

Lemma extend_left_inside_b fuel : forall junk alo blo bhi m,
  inside_b blo bhi m ->
  inside_b blo bhi (Difflib.extend_left eqb dflt a b fuel junk alo blo m).
Proof.
  induction fuel as [|fuel IH]; intros junk alo blo bhi m Hm; simpl;
    [exact Hm|].
  destruct (Difflib.can_extend_left eqb dflt a b junk alo blo m) eqn:E; [|exact Hm].
  destruct m as [[besti bestj] bestsize]. unfold Difflib.can_extend_left in E.
  rewrite !andb_true_iff in E. destruct E as [[[_ E] _] _].
  apply Nat.ltb_lt in E. apply IH. unfold inside_b in *. lia.
Qed.

Lemma extend_right_inside_b fuel : forall junk blo ahi bhi m,
  inside_b blo bhi m ->
  inside_b blo bhi (Difflib.extend_right eqb dflt a b fuel junk ahi bhi m).
Proof.
  induction fuel as [|fuel IH]; intros junk blo ahi bhi m Hm; simpl;
    [exact Hm|].
  destruct (Difflib.can_extend_right eqb dflt a b junk ahi bhi m) eqn:E; [|exact Hm].
  destruct m as [[besti bestj] bestsize]. unfold Difflib.can_extend_right in E.
  rewrite !andb_true_iff in E. destruct E as [[[_ E] _] _].
  apply Nat.ltb_lt in E. apply IH. unfold inside_b in *. lia.
Qed.

Lemma find_longest_match_inside_b alo ahi blo bhi :
  blo <= bhi ->
  inside_b blo bhi (Difflib.find_longest_match eqb dflt a b alo ahi blo bhi).
Proof.
  intros H. unfold Difflib.find_longest_match.
  apply extend_right_inside_b, extend_left_inside_b, extend_right_inside_b,
    extend_left_inside_b, scan_rows_inside_b.
  - intros j. simpl. lia.
  - unfold inside_b. lia.
Qed.

(** The sizes of the blocks, and the rows and columns of the windows. *)
Definition blocks_size (blocks : list Difflib.Match) : nat :=
  list_sum (map (fun m : Difflib.Match => snd m) blocks).

Definition queue_rows (queue : list (nat * nat * nat * nat)) : nat :=
  list_sum (map (fun w => let '(alo, ahi, _, _) := w in ahi - alo) queue).

Definition queue_cols (queue : list (nat * nat * nat * nat)) : nat :=
  list_sum (map (fun w => let '(_, _, blo, bhi) := w in bhi - blo) queue).

Definition window_ok2 (w : nat * nat * nat * nat) : Prop :=
  let '(alo, ahi, blo, bhi) := w in alo <= ahi /\ blo <= bhi.

Lemma queue_rows_cons alo ahi blo bhi queue :
  queue_rows ((alo, ahi, blo, bhi) :: queue) = ahi - alo + queue_rows queue.
Proof. reflexivity. Qed.

Lemma queue_cols_cons alo ahi blo bhi queue :
  queue_cols ((alo, ahi, blo, bhi) :: queue) = bhi - blo + queue_cols queue.
Proof. reflexivity. Qed.

Lemma blocks_size_cons i j k blocks :
  blocks_size ((i, j, k) :: blocks) = k + blocks_size blocks.
Proof. reflexivity. Qed.

(** The blocks found take no more rows and no more columns than the
    windows offer. *)
Lemma matching_loop_size fuel : forall queue blocks r,
  Forall window_ok2 queue ->
  Difflib.matching_loop eqb dflt a b fuel queue blocks = Some r ->
  blocks_size r <= blocks_size blocks + queue_rows queue
  /\ blocks_size r <= blocks_size blocks + queue_cols queue.
Proof.
  induction fuel as [|fuel IH]; intros queue blocks r Hq Hr.
  - destruct queue as [|[[[alo ahi] blo] bhi] queue]; simpl in Hr;
      [|discriminate].
    injection Hr as <-. unfold queue_rows, queue_cols. simpl. lia.
  - destruct queue as [|[[[alo ahi] blo] bhi] queue]; simpl in Hr.
    + injection Hr as <-. unfold queue_rows, queue_cols. simpl. lia.
    + inversion Hq as [|? ? Hw Hq']; subst. simpl in Hw.
      destruct Hw as [Hwa Hwb].
      rewrite queue_rows_cons, queue_cols_cons.
      pose proof (find_longest_match_inside eqb dflt a b alo ahi blo bhi Hwa)
        as Ha.
      pose proof (find_longest_match_inside_b alo ahi blo bhi Hwb) as Hb.
      destruct (Difflib.find_longest_match eqb dflt a b alo ahi blo bhi)
        as [[i j] k]. simpl in Ha, Hb.
      destruct (k =? 0) eqn:Ek.
      * apply IH in Hr; [lia|assumption].
      * apply IH in Hr.
        -- rewrite blocks_size_cons in Hr.
           destruct ((i + k <? ahi) && (j + k <? bhi)) eqn:E2;
             destruct ((alo <? i) && (blo <? j)) eqn:E1;
             rewrite ?queue_rows_cons, ?queue_cols_cons in Hr; lia.
        -- destruct ((i + k <? ahi) && (j + k <? bhi)) eqn:E2;
             destruct ((alo <? i) && (blo <? j)) eqn:E1;
             rewrite ?andb_true_iff, ?Nat.ltb_lt in *;
             repeat constructor; simpl; try assumption; lia.
Qed.

Lemma matches_le :
  Difflib.matches eqb dflt a b <= length a /\ Difflib.matches eqb dflt a b <= length b.
Proof.
  unfold Difflib.matches.
  destruct (Difflib.get_matching_blocks eqb dflt a b) as [r|] eqn:E; [|lia].
  unfold Difflib.get_matching_blocks in E.
  apply matching_loop_size in E.
  - unfold queue_rows, queue_cols, blocks_size in E. simpl in E.
    fold (blocks_size r) in E. unfold blocks_size in *. lia.
  - repeat constructor; simpl; lia.
Qed.

Lemma ratio_range : (0 <= Difflib.ratio eqb dflt a b <= 1)%Q.
Proof.
  unfold Difflib.ratio, Difflib.calculate_ratio.
  destruct matches_le as [Ha Hb].
  destruct (length a + length b) as [|n] eqn:En.
  - split; discriminate.
  - assert (Hpos : (0 < inject_Z (Z.of_nat (S n)))%Q).
    { rewrite <- (Zlt_Qlt 0). lia. }
    split.
    + apply Qle_shift_div_l; [exact Hpos|]. rewrite Qmult_0_l.
      change 2%Q with (inject_Z 2). rewrite <- inject_Z_mult.
      rewrite <- (Zle_Qle 0). lia.
    + apply Qle_shift_div_r; [exact Hpos|]. rewrite Qmult_1_l.
      change 2%Q with (inject_Z 2). rewrite <- inject_Z_mult.
      rewrite <- Zle_Qle. lia.
Qed.

End MatcherBounds.

(** X3. The similarity of two titles is between 0 and 1. *)
Theorem title_sim_range `{S : PyLib} (t1 t2 : string) :
  (0 <= title_sim t1 t2 <= 1)%Q.
Proof.
  unfold title_sim.
  destruct (negb (PyStr.truthy (title_norm t1))
            || negb (PyStr.truthy (title_norm t2))).
  - split; discriminate.
  - apply ratio_range.
Qed.

(* ===================================================================== *)
(** * A sequence compared with itself *)
(* ===================================================================== *)

(** [SequenceMatcher(None, s, s)] finds one block, the whole of [s]: the
    first longest match free of popular elements lies on the diagonal, and
    the loops that extend it run along the diagonal to both ends. *)
Section MatcherSelf.

Context {A : Type} (eqb : A -> A -> bool) (dflt : A).

(** [eqb] is the equality of the elements. *)
Hypothesis eqb_eq : forall x y, eqb x y = true <-> x = y.

Variable s : list A.

Lemma eqb_refl' x : eqb x x = true.
Proof. apply eqb_eq. reflexivity. Qed.

Lemma eqb_spec' x y : reflect (x = y) (eqb x y).
Proof.
  destruct (eqb x y) eqn:E; constructor.
  - apply eqb_eq, E.
  - intros H. apply eqb_eq in H. congruence.
Qed.

(** [c] has an entry in [b2j]: it occurs in [s] and is not popular. *)
Definition live (c : A) : bool :=
  match Difflib.b2j eqb s c with [] => false | _ => true end.

(** The length of the run of live elements that ends at position [c]. *)
Fixpoint run (c : nat) : nat :=
  match c with
  | 0 => if live (Difflib.at_ dflt s 0) then 1 else 0
  | S c' => if live (Difflib.at_ dflt s (S c')) then S (run c') else 0
  end.

Definition prev_run (i : nat) : nat :=
  match i with 0 => 0 | S i' => run i' end.

(** The length [scan_row] computes for column [j]. *)
Definition next_len (j2len : list (nat * nat)) (j : nat) : nat :=
  S (match j with 0 => 0 | S j' => Difflib.j2len_get j2len j' end).

Lemma run_le c : run c <= c + 1.
Proof.
  induction c as [|c IH]; simpl.
  - destruct (live _); lia.
  - destruct (live _); lia.
Qed.

Lemma run_live i :
  live (Difflib.at_ dflt s i) = true -> run i = S (prev_run i).
Proof. destruct i; simpl; intros ->; reflexivity. Qed.

Lemma run_dead i : live (Difflib.at_ dflt s i) = false -> run i = 0.
Proof. destruct i; simpl; intros ->; reflexivity. Qed.

Lemma In_indices_from c l : forall start j,
  In j (Difflib.indices_from eqb c l start) <->
  start <= j /\ j < start + length l /\ nth (j - start) l dflt = c.
Proof.
  induction l as [|x r IH]; intros start j.
  - simpl. split; [tauto|lia].
  - assert (Hn : start < j ->
                 nth (j - start) (x :: r) dflt
                 = nth (j - S start) r dflt).
    { intros H. replace (j - start) with (S (j - S start)) by lia.
      reflexivity. }
    assert (H0 : nth (start - start) (x :: r) dflt = x)
      by (rewrite Nat.sub_diag; reflexivity).
    cbn [Difflib.indices_from length].
    destruct (eqb_spec' x c) as [Hx|Hx]; cbn [In]; rewrite IH.
    + split.
      * intros [<-|(H1 & H2 & H3)].
        -- rewrite H0. repeat split; [lia|lia|exact Hx].
        -- rewrite Hn by lia. repeat split; [lia|lia|assumption].
      * intros (H1 & H2 & H3).
        destruct (Nat.eq_dec start j) as [E|E]; [left; exact E|right].
        rewrite Hn in H3 by lia. repeat split; [lia|lia|assumption].
    + split.
      * intros (H1 & H2 & H3). rewrite Hn by lia.
        repeat split; [lia|lia|assumption].
      * intros (H1 & H2 & H3).
        destruct (Nat.eq_dec start j) as [E|E].
        -- subst j. rewrite H0 in H3. contradiction.
        -- rewrite Hn in H3 by lia. repeat split; [lia|lia|assumption].
Qed.

Lemma indices_from_sorted c l : forall start,
  StronglySorted lt (Difflib.indices_from eqb c l start).
Proof.
  induction l as [|x r IH]; intros start; simpl; [constructor|].
  destruct (eqb x c); [|apply IH].
  constructor; [apply IH|].
  apply List.Forall_forall. intros j Hj. apply In_indices_from in Hj. lia.
Qed.

Lemma live_b2j c :
  live c = true -> Difflib.b2j eqb s c = Difflib.indices_from eqb c s 0.
Proof.
  unfold live, Difflib.b2j.
  destruct ((200 <=? length s)
            && (length s / 100 + 1 <? length (Difflib.indices_from eqb c s 0)));
    [discriminate|reflexivity].
Qed.

Lemma dead_b2j c : live c = false -> Difflib.b2j eqb s c = [].
Proof. unfold live. destruct (Difflib.b2j eqb s c); [reflexivity|discriminate]. Qed.

Lemma j2len_get_le (B : nat -> nat) l :
  Forall (fun e : nat * nat => snd e <= B (fst e)) l ->
  forall j, Difflib.j2len_get l j <= B j.
Proof.
  induction 1 as [|[j' k] l He Hl IH]; intros j; simpl; [lia|].
  destruct (j' =? j) eqn:E; [|apply IH].
  apply Nat.eqb_eq in E. subst. exact He.
Qed.

Lemma j2len_get_skip l1 l2 j :
  Forall (fun e : nat * nat => fst e <> j) l1 ->
  Difflib.j2len_get (l1 ++ l2) j = Difflib.j2len_get l2 j.
Proof.
  induction 1 as [|[j' k] l He Hl IH]; simpl; [reflexivity|].
  simpl in He. apply Nat.eqb_neq in He. rewrite He. exact IH.
Qed.

(** A stretch of a row in which no column gives a longer match. *)
Lemma scan_row_quiet j2len i js : forall newj2len best,
  (forall j, In j js -> j < length s /\ next_len j2len j <= snd best) ->
  Difflib.scan_row j2len i 0 (length s) js newj2len best
  = (rev (map (fun j => (j, next_len j2len j)) js) ++ newj2len, best).
Proof.
  induction js as [|j rest IH]; intros newj2len best H; [reflexivity|].
  destruct (H j (or_introl eq_refl)) as [Hj Hk].
  cbn [Difflib.scan_row]. replace (j <? 0) with false by reflexivity.
  replace (length s <=? j) with false by (symmetry; apply Nat.leb_gt; lia).
  fold (next_len j2len j). destruct best as [[bi bj] bs]. simpl in Hk.
  replace (bs <? next_len j2len j) with false
    by (symmetry; apply Nat.ltb_ge; lia).
  rewrite IH by (intros j0 Hj0; apply H; right; exact Hj0).
  simpl. rewrite <- app_assoc. reflexivity.
Qed.

(** The state of the scan when it enters row [i]. *)
Definition row_inv (i : nat) (j2len : list (nat * nat)) : Prop :=
  (forall j, Difflib.j2len_get j2len j <= run j)
  /\ (forall j, Difflib.j2len_get j2len j <= prev_run i)
  /\ match i with
     | 0 => True
     | S i' => Difflib.j2len_get j2len i' = run i'
     end.

Definition best_inv (i d bs : nat) : Prop :=
  (forall c, c < i -> run c <= bs) /\ d + bs <= i.

Lemma next_len_bounds i j2len j :
  row_inv i j2len ->
  live (Difflib.at_ dflt s i) = true ->
  Difflib.at_ dflt s j = Difflib.at_ dflt s i ->
  next_len j2len j <= run j /\ next_len j2len j <= run i.
Proof.
  intros (H1 & H2 & _) Hl Hj. split.
  - rewrite (run_live j) by (rewrite Hj; exact Hl).
    unfold next_len. destruct j as [|j']; simpl; [lia|].
    specialize (H1 j'). lia.
  - rewrite (run_live i Hl). unfold next_len.
    destruct j as [|j']; [lia|]. specialize (H2 j'). lia.
Qed.

Lemma next_len_diag i j2len :
  row_inv i j2len ->
  live (Difflib.at_ dflt s i) = true ->
  next_len j2len i = run i.
Proof.
  intros (_ & _ & H3) Hl. rewrite (run_live i Hl). unfold next_len.
  destruct i as [|i']; simpl; [reflexivity|]. rewrite H3. reflexivity.
Qed.

Lemma row_step i j2len d bs :
  i < length s -> row_inv i j2len -> best_inv i d bs ->
  exists newj2len d' bs',
    Difflib.scan_row j2len i 0 (length s) (Difflib.b2j eqb s (Difflib.at_ dflt s i))
      [] (d, d, bs) = (newj2len, (d', d', bs'))
    /\ row_inv (S i) newj2len /\ best_inv (S i) d' bs'.
Proof.
  intros Hi Hr [Hb1 Hb2].
  destruct (live (Difflib.at_ dflt s i)) eqn:Hl.
  - (* the element of row [i] has an entry: its columns, in order *)
    rewrite (live_b2j _ Hl).
    set (js := Difflib.indices_from eqb (Difflib.at_ dflt s i) s 0).
    assert (Hin : In i js).
    { apply In_indices_from. rewrite Nat.sub_0_r. repeat split; lia. }
    assert (Hjs : forall j, In j js ->
                  j < length s /\ Difflib.at_ dflt s j = Difflib.at_ dflt s i).
    { intros j Hj. apply In_indices_from in Hj. rewrite Nat.sub_0_r in Hj.
      split; [lia|]. unfold Difflib.at_. tauto. }
    pose proof (indices_from_sorted (Difflib.at_ dflt s i) s 0) as Hsorted.
    fold js in Hsorted.
    destruct (in_split _ _ Hin) as (js1 & js2 & Ejs).
    rewrite Ejs in Hsorted, Hjs |- *.
    apply StronglySorted_app in Hsorted.
    destruct Hsorted as (H12 & _ & Hs2).
    apply StronglySorted_cons in Hs2. destruct Hs2 as [Hs2 _].
    rewrite Forall_forall in Hs2.
    assert (Hlt1 : forall j, In j js1 -> j < i).
    { intros j Hj. apply (H12 j i); [apply list_elem_of_In, Hj|left]. }
    assert (Hlt2 : forall j, In j js2 -> i < j).
    { intros j Hj. apply Hs2, list_elem_of_In, Hj. }
    set (k := run i).
    set (best' := if bs <? k then (i + 1 - k, i + 1 - k, k) else (d, d, bs)).
    assert (Hk : next_len j2len i = k) by (apply next_len_diag; assumption).
    assert (Hstep :
      Difflib.scan_row j2len i 0 (length s) (js1 ++ i :: js2) [] (d, d, bs)
      = (rev (map (fun j => (j, next_len j2len j)) js2)
           ++ (i, k) :: rev (map (fun j => (j, next_len j2len j)) js1),
         best')).
    { assert (Happ : forall l1 l2 new best,
               (forall j, In j l1 -> j < length s
                                     /\ next_len j2len j <= snd best) ->
               Difflib.scan_row j2len i 0 (length s) (l1 ++ l2) new best
               = Difflib.scan_row j2len i 0 (length s) l2
                   (rev (map (fun j => (j, next_len j2len j)) l1) ++ new)
                   best).
      { induction l1 as [|j l1 IH]; intros l2 new best H; [reflexivity|].
        destruct (H j (or_introl eq_refl)) as [Hj Hkj].
        cbn [app Difflib.scan_row].
        replace (j <? 0) with false by reflexivity.
        replace (length s <=? j) with false
          by (symmetry; apply Nat.leb_gt; lia).
        fold (next_len j2len j). destruct best as [[bi bj] bs0].
        simpl in Hkj.
        replace (bs0 <? next_len j2len j) with false
          by (symmetry; apply Nat.ltb_ge; lia).
        rewrite IH by (intros j0 Hj0; apply H; right; exact Hj0).
        simpl. rewrite <- app_assoc. reflexivity. }
      rewrite Happ.
      - cbn [Difflib.scan_row]. replace (i <? 0) with false by reflexivity.
        replace (length s <=? i) with false
          by (symmetry; apply Nat.leb_gt; lia).
        fold (next_len j2len i). rewrite Hk. rewrite app_nil_r.
        fold best'. rewrite scan_row_quiet; [reflexivity|].
        intros j Hj. split; [apply Hjs, in_or_app; right; right; exact Hj|].
        assert (next_len j2len j <= k).
        { apply (next_len_bounds i); try assumption.
          apply Hjs, in_or_app. right. right. exact Hj. }
        unfold best'. destruct (bs <? k) eqn:E; simpl; [lia|].
        apply Nat.ltb_ge in E. lia.
      - intros j Hj. split; [apply Hjs, in_or_app; left; exact Hj|].
        simpl. assert (next_len j2len j <= run j).
        { apply (next_len_bounds i); try assumption.
          apply Hjs, in_or_app. left. exact Hj. }
        specialize (Hb1 j (Hlt1 j Hj)). lia. }
    rewrite Hstep.
    assert (Hbest : exists d' bs', best' = (d', d', bs')
                                   /\ best_inv (S i) d' bs').
    { unfold best'. pose proof (run_le i) as Hle. fold k in Hle.
      destruct (bs <? k) eqn:E.
      - apply Nat.ltb_lt in E. exists (i + 1 - k), k. split; [reflexivity|].
        split; [|lia]. intros c Hc.
        destruct (Nat.eq_dec c i) as [->|Hne]; [unfold k; lia|].
        specialize (Hb1 c). lia.
      - apply Nat.ltb_ge in E. exists d, bs. split; [reflexivity|].
        split; [|lia]. intros c Hc.
        destruct (Nat.eq_dec c i) as [->|Hne]; [unfold k in E; lia|].
        specialize (Hb1 c). lia. }
    destruct Hbest as (d' & bs' & -> & Hb').
    eexists _, d', bs'. split; [reflexivity|]. split; [|exact Hb'].
    assert (Hall : forall l, (forall j, In j l -> In j (js1 ++ i :: js2)) ->
              Forall (fun e : nat * nat =>
                        snd e <= run (fst e) /\ snd e <= k)
                (rev (map (fun j => (j, next_len j2len j)) l))).
    { intros l Hl'. apply List.Forall_forall. intros e He.
      apply in_rev, in_map_iff in He. destruct He as (j & <- & Hj).
      simpl. apply (next_len_bounds i); try assumption.
      apply Hjs, Hl', Hj. }
    assert (Hall' :
      Forall (fun e : nat * nat => snd e <= run (fst e) /\ snd e <= k)
        (rev (map (fun j => (j, next_len j2len j)) js2)
         ++ (i, k) :: rev (map (fun j => (j, next_len j2len j)) js1))).
    { apply Forall_app. split.
      - apply Hall. intros j Hj. apply in_or_app. right. right. exact Hj.
      - constructor; [simpl; split; [unfold k|]; lia|].
        apply Hall. intros j Hj. apply in_or_app. left. exact Hj. }
    split; [|split].
    + apply (j2len_get_le run). eapply List.Forall_impl; [|exact Hall'].
      intros e [H _]. exact H.
    + apply (j2len_get_le (fun _ => k)). eapply List.Forall_impl; [|exact Hall'].
      intros e [_ H]. exact H.
    + rewrite j2len_get_skip.
      * simpl. rewrite Nat.eqb_refl. reflexivity.
      * apply List.Forall_forall. intros e He.
        apply in_rev, in_map_iff in He. destruct He as (j & <- & Hj).
        simpl. specialize (Hlt2 j Hj). lia.
  - (* the element of row [i] has no entry: the row is empty *)
    rewrite (dead_b2j _ Hl). simpl. exists [], d, bs.
    split; [reflexivity|]. pose proof (run_dead i Hl) as H0.
    split; [split; [|split]|split].
    + intros j. simpl. lia.
    + intros j. simpl. lia.
    + simpl. symmetry. exact H0.
    + intros c Hc. destruct (Nat.eq_dec c i) as [->|Hne]; [lia|].
      apply Hb1. lia.
    + lia.
Qed.

Lemma scan_rows_diag m : forall i j2len d bs,
  i + m = length s -> row_inv i j2len -> best_inv i d bs ->
  exists d' bs',
    Difflib.scan_rows eqb dflt s s m i 0 (length s) j2len (d, d, bs) = (d', d', bs')
    /\ d' + bs' <= length s.
Proof.
  induction m as [|m IH]; intros i j2len d bs Hm Hr Hb.
  - exists d, bs. split; [reflexivity|]. destruct Hb. lia.
  - simpl.
    destruct (row_step i j2len d bs) as (new & d' & bs' & -> & Hr' & Hb');
      [lia|assumption|assumption|].
    apply IH; [lia|assumption|assumption].
Qed.

Lemma extend_left_diag fuel : forall d bs,
  d <= fuel ->
  Difflib.extend_left eqb dflt s s fuel false 0 0 (d, d, bs) = (0, 0, bs + d).
Proof.
  induction fuel as [|fuel IH]; intros d bs Hd.
  - replace d with 0 by lia. rewrite Nat.add_0_r. reflexivity.
  - cbn [Difflib.extend_left]. unfold Difflib.can_extend_left.
    destruct d as [|d].
    + simpl. rewrite Nat.add_0_r. reflexivity.
    + replace (0 <? S d) with true by reflexivity.
      unfold Difflib.isbjunk. rewrite eqb_refl'. simpl.
      rewrite Nat.sub_0_r. rewrite IH by lia. f_equal. lia.
Qed.

Lemma extend_right_diag fuel : forall k,
  k <= length s -> length s - k <= fuel ->
  Difflib.extend_right eqb dflt s s fuel false (length s) (length s) (0, 0, k)
  = (0, 0, length s).
Proof.
  induction fuel as [|fuel IH]; intros k Hk Hf.
  - replace k with (length s) by lia. reflexivity.
  - cbn [Difflib.extend_right]. unfold Difflib.can_extend_right.
    simpl "+". destruct (k <? length s) eqn:E.
    + unfold Difflib.isbjunk. rewrite eqb_refl'. simpl.
      apply Nat.ltb_lt in E. apply IH; lia.
    + apply Nat.ltb_ge in E. simpl. f_equal. lia.
Qed.

Lemma extend_junk_left fuel alo blo m :
  Difflib.extend_left eqb dflt s s fuel true alo blo m = m.
Proof.
  destruct fuel; [reflexivity|]. cbn [Difflib.extend_left].
  unfold Difflib.can_extend_left, Difflib.isbjunk.
  destruct m as [[i j] k]. simpl. rewrite andb_false_r. reflexivity.
Qed.

Lemma extend_junk_right fuel ahi bhi m :
  Difflib.extend_right eqb dflt s s fuel true ahi bhi m = m.
Proof.
  destruct fuel; [reflexivity|]. cbn [Difflib.extend_right].
  unfold Difflib.can_extend_right, Difflib.isbjunk.
  destruct m as [[i j] k]. simpl. rewrite andb_false_r. reflexivity.
Qed.

Lemma find_longest_match_self :
  Difflib.find_longest_match eqb dflt s s 0 (length s) 0 (length s)
  = (0, 0, length s).
Proof.
  unfold Difflib.find_longest_match. rewrite Nat.sub_0_r.
  destruct (scan_rows_diag (length s) 0 [] 0 0) as (d & bs & -> & Hd).
  - reflexivity.
  - repeat split; simpl; lia.
  - split; [intros c Hc; lia|lia].
  - rewrite extend_left_diag by lia.
    rewrite extend_right_diag by lia.
    rewrite extend_junk_left, extend_junk_right. reflexivity.
Qed.

Lemma matches_self : Difflib.matches eqb dflt s s = length s.
Proof.
  unfold Difflib.matches, Difflib.get_matching_blocks.
  replace (2 * length s + 1) with (S (2 * length s)) by lia.
  cbn [Difflib.matching_loop]. rewrite find_longest_match_self.
  destruct (length s) as [|n] eqn:En.
  - reflexivity.
  - replace (S n =? 0) with false by reflexivity.
    replace (0 <? 0) with false by reflexivity. cbn [andb].
    replace (0 + S n <? S n) with false
      by (symmetry; apply Nat.ltb_ge; lia).
    cbn [andb]. destruct (2 * S n) eqn:E2; simpl; lia.
Qed.

Lemma ratio_self : (Difflib.ratio eqb dflt s s == 1)%Q.
Proof.
  unfold Difflib.ratio. rewrite matches_self. unfold Difflib.calculate_ratio.
  destruct (length s + length s) as [|m] eqn:E; [reflexivity|].
  assert (Hpos : ~ (inject_Z (Z.of_nat (S m)) == 0)%Q).
  { intros H. unfold Qeq, inject_Z in H. cbn [Qnum Qden] in H. lia. }
  apply (Qmult_inj_r _ _ _ Hpos). rewrite Qmult_1_l.
  unfold Qdiv. rewrite <- Qmult_assoc.
  rewrite (Qmult_comm (/ _)), Qmult_inv_r, Qmult_1_r by exact Hpos.
  change 2%Q with (inject_Z 2). rewrite <- inject_Z_mult, <- E.
  apply inject_Z_injective. lia.
Qed.

End MatcherSelf.

(** X4. A sequence compared with itself has ratio 1, whatever its
    elements are: so [title_sim] is 1 for two titles whose normal forms are
    the same string, not empty (for an empty one it is 0). *)
Theorem title_sim_same `{S : PyLib} :
  (forall (A : Type) (eqb : A -> A -> bool) (dflt : A) (s : list A),
      (forall x y, eqb x y = true <-> x = y) ->
      (Difflib.ratio eqb dflt s s == 1)%Q)
  /\ (forall t1 t2 : string,
        title_norm t1 = title_norm t2 -> title_norm t1 <> "" ->
        (title_sim t1 t2 == 1)%Q).
Proof.
  split.
  - intros A eqb dflt s Heq. apply ratio_self; assumption.
  - intros t1 t2 E Hne. unfold title_sim. rewrite <- E.
    destruct (title_norm t1) as [|c r] eqn:Et; [contradiction|].
    cbn [PyStr.truthy negb orb]. apply ratio_self. exact String.eqb_eq.
Qed.

Lemma title_sim_same_witness :
  (title_sim (S := insertion) "Fed cuts rates" "  FED  Cuts
rates " == 1)%Q.
Proof.
  apply (proj2 (title_sim_same (S := insertion)));
    [reflexivity|discriminate].
Defined.

(** The ideographic space U+3000 is white space: a title made of it has an
    empty normal form, whatever the library, and its similarity to itself
    is 0. *)
Definition ideographic_space : string :=
  String (ascii_of_N 227) (String (ascii_of_N 128)
    (String (ascii_of_N 128) EmptyString)).

Lemma title_sim_ideographic_space `{S : PyLib} :
  PyStr.chars ideographic_space = [ideographic_space]
  /\ PyStr.ord ideographic_space = 12288%N
  /\ title_norm ideographic_space = ""
  /\ title_sim ideographic_space ideographic_space = 0%Q.
Proof. repeat split; reflexivity. Qed.

(* ===================================================================== *)
(** * More properties of [_dedup] *)
(* ===================================================================== *)

Lemma title_sim_bounds `{S : PyLib} (t1 t2 : string) :
  (0 <= title_sim t1 t2 <= 1)%Q.
Proof.
  unfold title_sim.
  destruct (negb (PyStr.truthy (title_norm t1))
            || negb (PyStr.truthy (title_norm t2))).
  - split; discriminate.
  - apply ratio_range.
Qed.

(** [_dedup] with the similarity test left out: an item is dropped when
    its non-empty link is the link of an item before it, and kept as it is
    otherwise.  [earlier] holds the links of the items kept so far. *)
Fixpoint uniq_links (earlier : list string) (l : list Item) : list Item :=
  match l with
  | [] => []
  | x :: r =>
      if PyStr.truthy (link x) && str_in (link x) earlier
      then uniq_links earlier r
      else x :: uniq_links (link x :: earlier) r
  end.

(** The link [u] is in the kept list, as the link of an item or in the
    [alt_links] of one. *)
Definition link_recorded (kept : list Item) (u : string) : Prop :=
  exists k, In k kept /\ (link k = u \/ In u (alt_links_of k)).

(** Where the links in the [alt_links] of the kept item [k] come from.
    [k] is an item [x] of the list [done], in the order the items were
    taken, with merge records added; each of its [alt_links] was there in
    [x], or is the link of an item taken after [x] that reached the
    threshold against [k]. *)
Definition alt_link_after `{S : PyLib} (threshold : pyfloat) (done : list Item)
    (k : Item) : Prop :=
  exists l1 x l2, done = l1 ++ x :: l2 /\ core x = core k
    /\ forall u, In u (alt_links_of k) ->
         In u (alt_links_of x)
         \/ (u <> "" /\ u <> link k
             /\ exists it, In it l2 /\ link it = u
                  /\ similar threshold it k = true).

(** The same in terms of the keys: the item the link comes from is not
    above [k]. *)
Definition alt_link_origin `{S : PyLib} (threshold : pyfloat) (done : list Item)
    (k : Item) : Prop :=
  exists x, In x done /\ core x = core k
    /\ forall u, In u (alt_links_of k) ->
         In u (alt_links_of x)
         \/ (u <> "" /\ u <> link k
             /\ exists it, In it done /\ link it = u
                  /\ similar threshold it k = true /\ key_geq k it).

Section DedupMore.

Variable threshold : pyfloat.

Context `{S : PyLib}.

Lemma dedup_loop_sublist its : forall seen kept,
  exists l',
    map core (snd (dedup_loop threshold its (seen, kept)))
    = map core kept ++ l'
    /\ sublist l' (map core its).
Proof.
  induction its as [|it its IH]; intros seen kept.
  - exists []. rewrite app_nil_r. split; [reflexivity|constructor].
  - rewrite dedup_loop_cons.
    destruct (dedup_step_cases threshold seen kept it)
      as [(_ & _ & E)|[(_ & kept' & M & E)|(_ & _ & E)]]; rewrite E.
    + destruct (IH seen kept) as (l' & H1 & H2). exists l'.
      split; [exact H1|]. simpl. apply sublist_cons, H2.
    + destruct (IH seen kept') as (l' & H1 & H2). exists l'.
      rewrite H1, (merge_first_core _ _ _ _ M).
      split; [reflexivity|]. simpl. apply sublist_cons, H2.
    + match goal with
      | |- context [dedup_loop _ _ (?s', _)] =>
          destruct (IH s' (kept ++ [it])) as (l' & H1 & H2)
      end.
      exists (core it :: l'). rewrite H1, map_app, <- app_assoc.
      split; [reflexivity|]. simpl. apply sublist_skip, H2.
Qed.

Lemma dedup_loop_head its : forall seen k0 kept,
  exists k kept',
    snd (dedup_loop threshold its (seen, k0 :: kept)) = k :: kept'
    /\ core k = core k0.
Proof.
  induction its as [|it its IH]; intros seen k0 kept.
  - exists k0, kept. auto.
  - rewrite dedup_loop_cons.
    destruct (dedup_step_cases threshold seen (k0 :: kept) it)
      as [(_ & _ & E)|[(_ & kept' & M & E)|(_ & _ & E)]]; rewrite E.
    + apply IH.
    + pose proof (merge_first_core _ _ _ _ M) as C.
      destruct kept' as [|k1 kept1]; [discriminate|].
      simpl in C.
      assert (C1 : core k1 = core k0) by congruence.
      destruct (IH seen k1 kept1) as (k & kept2 & H1 & H2).
      exists k, kept2. split; [exact H1|congruence].
    + simpl. apply IH.
Qed.

(** X5. [_dedup] invents nothing: up to the merge records, the kept list is
    a sublist of the sorted input (so it is no longer than the input and
    every kept item is an input item); and the item that sorts first is
    always kept, at the head. *)
Theorem dedup_keeps_input_items (items : list Item) :
  sublist (map core (_dedup threshold items))
    (map core (py_sorted sort_key items))
  /\ length (_dedup threshold items) <= length items
  /\ (forall k, In k (_dedup threshold items) ->
        exists x, In x items /\ core k = core x)
  /\ (forall x rest, py_sorted sort_key items = x :: rest ->
        exists k out, _dedup threshold items = k :: out /\ core k = core x)
  /\ _dedup threshold [] = [].
Proof.
  destruct (dedup_loop_sublist (py_sorted sort_key items) ∅ [])
    as (l' & H1 & H2). simpl in H1. fold (_dedup threshold items) in H1.
  assert (Hsub : sublist (map core (_dedup threshold items))
                   (map core (py_sorted sort_key items)))
    by (rewrite H1; exact H2).
  split; [exact Hsub|]. split; [|split; [|split]].
  - apply sublist_length in Hsub. rewrite !length_map in Hsub.
    rewrite (Permutation_length (py_sorted_perm sort_key items)) in Hsub.
    exact Hsub.
  - intros k Hk. apply sublist_subseteq in Hsub.
    assert (Hc : In (core k) (map core (py_sorted sort_key items))).
    { apply list_elem_of_In, Hsub, list_elem_of_In, in_map, Hk. }
    apply in_map_iff in Hc. destruct Hc as (x & Hx & Hin).
    exists x. split; [|symmetry; exact Hx].
    apply py_sorted_In in Hin. exact Hin.
  - intros x rest Hs. unfold _dedup. rewrite Hs, dedup_loop_cons.
    destruct (dedup_step_cases threshold ∅ [] x)
      as [(_ & Hin & _)|[(_ & kept' & M & _)|(_ & _ & E)]].
    + destruct (not_elem_of_empty (C:=gset string) _ Hin).
    + discriminate.
    + rewrite E. simpl. apply dedup_loop_head.
  - apply dedup_nil.
Qed.

(** X6. On a list whose keys [<] orders consistently (as when no weight
    is NaN), the kept list is in decreasing order of
    [(published_at, weight)]: no kept item is below one that follows it. *)
Theorem dedup_output_sorted (items : list Item) :
  consistent sort_key items ->
  StronglySorted key_geq (_dedup threshold items).
Proof.
  intros Hc. apply key_sorted_map. unfold _dedup. apply dedup_loop_sorted.
  simpl. apply key_sorted_map, py_sorted_sorted, Hc.
Qed.

Lemma similar_always it k :
  fle threshold 0 = true -> similar threshold it k = true.
Proof.
  intros H. unfold similar.
  pose proof (proj1 (title_sim_bounds (title it) (title k))) as H0.
  destruct threshold as [q|n|]; [|destruct n; [reflexivity|discriminate]
                                 |discriminate].
  apply fle_number. apply fle_number in H. exact (Qle_trans _ _ _ H H0).
Qed.

Lemma similar_never it k :
  flt 1 threshold = true -> similar threshold it k = false.
Proof.
  intros H. unfold similar.
  pose proof (proj2 (title_sim_bounds (title it) (title k))) as H1.
  destruct threshold as [q|n|]; [|destruct n; [discriminate|reflexivity]
                                 |discriminate].
  apply fle_number. simpl in H. apply Qltb_lt in H.
  exact (Qle_lt_trans _ _ _ H1 H).
Qed.

Lemma dedup_loop_single its : forall seen k0,
  fle threshold 0 = true ->
  exists k, snd (dedup_loop threshold its (seen, [k0])) = [k]
            /\ core k = core k0.
Proof.
  induction its as [|it its IH]; intros seen k0 Ht.
  - exists k0. auto.
  - rewrite dedup_loop_cons.
    destruct (dedup_step_cases threshold seen [k0] it)
      as [(_ & _ & E)|[(_ & kept' & M & E)|(_ & M & _)]].
    + rewrite E. apply IH, Ht.
    + rewrite E. simpl in M. rewrite (similar_always it k0 Ht) in M.
      injection M as <-.
      destruct (IH seen (merge_into it k0) Ht) as (k & H1 & H2).
      exists k. split; [exact H1|]. rewrite H2. apply merge_into_core.
    + simpl in M. rewrite (similar_always it k0 Ht) in M. discriminate.
Qed.

(** X7. With a threshold of 0 or less every pair of titles is similar
    enough: whatever the input, one item is kept at most, the one that
    sorts first, and all the others are merged into it or dropped. *)
Theorem dedup_threshold_nonpositive (items : list Item) :
  fle threshold 0 = true ->
  length (_dedup threshold items) <= 1
  /\ forall x rest, py_sorted sort_key items = x :: rest ->
       exists k, _dedup threshold items = [k] /\ core k = core x.
Proof.
  intros Ht.
  assert (H : forall x rest, py_sorted sort_key items = x :: rest ->
              exists k, _dedup threshold items = [k] /\ core k = core x).
  { intros x rest Hs. unfold _dedup. rewrite Hs, dedup_loop_cons.
    destruct (dedup_step_cases threshold ∅ [] x)
      as [(_ & Hin & _)|[(_ & kept' & M & _)|(_ & _ & E)]].
    - destruct (not_elem_of_empty (C:=gset string) _ Hin).
    - discriminate.
    - rewrite E. simpl. apply dedup_loop_single, Ht. }
  split; [|exact H].
  destruct (py_sorted sort_key items) as [|x rest] eqn:Hs.
  - unfold _dedup. rewrite Hs. simpl. lia.
  - destruct (H x rest eq_refl) as (k & -> & _). simpl. lia.
Qed.

Lemma dedup_loop_uniq its : forall seen kept earlier,
  Forall (fun it => forall k, similar threshold it k = false) its ->
  (forall u, u <> "" -> u ∈ seen <-> In u earlier) ->
  snd (dedup_loop threshold its (seen, kept)) = kept ++ uniq_links earlier its.
Proof.
  induction its as [|it its IH]; intros seen kept earlier Ht Hs.
  - simpl. rewrite app_nil_r. reflexivity.
  - rewrite dedup_loop_cons. cbn [uniq_links].
    inversion Ht as [|? ? Hit Ht']; subst.
    assert (M : merge_first threshold it kept = None).
    { apply merge_first_None, List.Forall_forall. intros k _. apply Hit. }
    destruct (dedup_step_cases threshold seen kept it)
      as [(Hne & Hin & E)|[(_ & kept' & M' & _)|(Hu & _ & E)]].
    + rewrite E.
      assert (Hb : PyStr.truthy (link it) && str_in (link it) earlier = true).
      { apply andb_true_iff. split; [apply truthy_iff, Hne|].
        apply str_in_In, Hs; assumption. }
      rewrite Hb. apply IH; assumption.
    + congruence.
    + rewrite E.
      assert (Hb : PyStr.truthy (link it) && str_in (link it) earlier = false).
      { apply not_true_iff_false. intros Hb. apply andb_true_iff in Hb.
        destruct Hb as [Hb1 Hb2]. apply truthy_iff in Hb1.
        apply str_in_In in Hb2. destruct Hu as [Hu|Hu]; [contradiction|].
        apply Hu, Hs; assumption. }
      rewrite Hb.
      rewrite (IH _ (kept ++ [it]) (link it :: earlier) Ht').
      * rewrite <- app_assoc. reflexivity.
      * intros u Hne. simpl.
        destruct (PyStr.truthy (link it)) eqn:T.
        -- rewrite elem_of_union, elem_of_singleton, (Hs u Hne).
           split; intros [H|H]; auto.
        -- assert (link it = "")
             by (destruct (link it); [reflexivity|discriminate]).
           rewrite (Hs u Hne). split; [auto|]. intros [H'|H']; [congruence|auto].
Qed.

Lemma dedup_uniq items :
  Forall (fun it => forall k, similar threshold it k = false) items ->
  _dedup threshold items = uniq_links [] (py_sorted sort_key items).
Proof.
  intros H. unfold _dedup. rewrite (dedup_loop_uniq _ ∅ [] []).
  - reflexivity.
  - apply List.Forall_forall. intros x Hx.
    rewrite List.Forall_forall in H. apply H.
    apply py_sorted_In in Hx. exact Hx.
  - intros u _. split; [|intros []].
    intros Hin. destruct (not_elem_of_empty (C:=gset string) _ Hin).
Qed.

Lemma uniq_links_In l : forall earlier k,
  In k (uniq_links earlier l) -> In k l.
Proof.
  induction l as [|x r IH]; intros earlier k Hk; simpl in Hk; [contradiction|].
  destruct (PyStr.truthy (link x) && str_in (link x) earlier).
  - right. exact (IH _ _ Hk).
  - destruct Hk as [->|Hk]; [left; reflexivity|right; exact (IH _ _ Hk)].
Qed.

(** X8. With a threshold above 1 no pair of titles is similar enough: only
    the exact-link check is left.  The result is the sorted input without
    the items whose non-empty link occurred before; every kept item is an
    input item as it was, with no merge record added. *)
Theorem dedup_threshold_above_one (items : list Item) :
  flt 1 threshold = true ->
  _dedup threshold items = uniq_links [] (py_sorted sort_key items)
  /\ forall k, In k (_dedup threshold items) -> In k items.
Proof.
  intros Ht.
  assert (E : _dedup threshold items
              = uniq_links [] (py_sorted sort_key items)).
  { apply dedup_uniq, List.Forall_forall. intros it _ k.
    apply similar_never, Ht. }
  split; [exact E|]. rewrite E. intros k Hk.
  apply (py_sorted_In sort_key). exact (uniq_links_In _ _ _ Hk).
Qed.

(** X9. An item whose title is empty once normalized (blank, or white
    space only) is similar to nothing, since [title_sim] is 0 for it: with
    a threshold above 0, a list of such items goes through the exact-link
    check only, and is never merged. *)
Theorem dedup_blank_titles (items : list Item) :
  flt 0 threshold = true ->
  Forall (fun it => title_norm (title it) = "") items ->
  _dedup threshold items = uniq_links [] (py_sorted sort_key items).
Proof.
  intros Ht H. apply dedup_uniq.
  apply (List.Forall_impl _ (P:=fun it => title_norm (title it) = "")); [|exact H].
  intros it Hit k. unfold similar, title_sim. rewrite Hit. simpl.
  destruct threshold as [q|n|]; [|destruct n; [discriminate|reflexivity]
                                 |discriminate].
  apply fle_number. simpl in Ht. apply Qltb_lt in Ht. exact Ht.
Qed.

Lemma merge_into_alt_links_own it k :
  link it <> "" ->
  link it = link k \/ In (link it) (alt_links_of (merge_into it k)).
Proof.
  intros Hne. unfold merge_into, alt_links_of. simpl.
  apply truthy_iff in Hne. rewrite Hne. simpl.
  destruct (str_in (link it) match alt_links k with Some l => l | None => [] end)
    eqn:I; simpl.
  - right. apply str_in_In, I.
  - destruct (String.eqb_spec (link it) (link k)); simpl; [left; assumption|].
    right. apply in_or_app. right. left. reflexivity.
Qed.

Lemma merge_into_alt_links_incl it k u :
  In u (alt_links_of k) -> In u (alt_links_of (merge_into it k)).
Proof.
  intros H. destruct (merge_into_alt_links it k) as [->|[_ ->]];
    [exact H|apply in_or_app; left; exact H].
Qed.

Lemma link_recorded_step seen kept it u :
  link_recorded kept u ->
  link_recorded (snd (dedup_step threshold (seen, kept) it)) u.
Proof.
  intros (k & Hk & Hu).
  destruct (dedup_step_cases threshold seen kept it)
    as [(_ & _ & E)|[(_ & kept' & M & E)|(_ & _ & E)]]; rewrite E; simpl.
  - exists k. auto.
  - apply merge_first_Some in M.
    destruct M as (pre & k0 & post & -> & _ & _ & ->).
    apply in_app_or in Hk. destruct Hk as [Hk|[<-|Hk]].
    + exists k. split; [apply in_or_app; left; exact Hk|exact Hu].
    + exists (merge_into it k0).
      split; [apply in_or_app; right; left; reflexivity|].
      destruct Hu as [Hu|Hu]; [left; exact Hu|right].
      apply merge_into_alt_links_incl, Hu.
    + exists k. split; [apply in_or_app; right; right; exact Hk|exact Hu].
  - exists k. split; [apply in_or_app; left; exact Hk|exact Hu].
Qed.

Lemma link_recorded_own seen kept it :
  LoopInv threshold (seen, kept) -> link it <> "" ->
  link_recorded (snd (dedup_step threshold (seen, kept) it)) (link it).
Proof.
  intros Hinv Hne.
  destruct (dedup_step_cases threshold seen kept it)
    as [(_ & Hin & E)|[(_ & kept' & M & E)|(_ & _ & E)]]; rewrite E; simpl.
  - apply (inv_seen _ _ Hinv) in Hin. destruct Hin as [_ Hin]. simpl in Hin.
    apply in_map_iff in Hin. destruct Hin as (k & Hk & Hin).
    exists k. auto.
  - apply merge_first_Some in M.
    destruct M as (pre & k0 & post & -> & _ & _ & ->).
    exists (merge_into it k0).
    split; [apply in_or_app; right; left; reflexivity|].
    destruct (merge_into_alt_links_own it k0 Hne) as [H|H]; auto.
  - exists it. split; [apply in_or_app; right; left; reflexivity|auto].
Qed.

Lemma link_recorded_loop its : forall st,
  LoopInv threshold st ->
  (forall u, link_recorded (snd st) u ->
             link_recorded (snd (dedup_loop threshold its st)) u)
  /\ (forall it, In it its -> link it <> "" ->
        link_recorded (snd (dedup_loop threshold its st)) (link it)).
Proof.
  induction its as [|it its IH]; intros [seen kept] Hinv.
  - split; [auto|intros it []].
  - rewrite dedup_loop_cons.
    pose proof (dedup_step_inv threshold _ it Hinv) as Hinv'.
    destruct (IH _ Hinv') as [IH1 IH2]. split.
    + intros u Hu. apply IH1.
      destruct (dedup_step threshold (seen, kept) it) as [s' k'] eqn:E.
      pose proof (link_recorded_step seen kept it u Hu) as H.
      rewrite E in H. exact H.
    + intros it' [<-|Hin] Hne; [|apply IH2; assumption].
      apply IH1. exact (link_recorded_own seen kept it Hinv Hne).
Qed.

(** X10. No link is lost: the non-empty link of every input item is in the
    output, as the link of a kept item or in the [alt_links] of one. *)
Theorem dedup_records_every_link (items : list Item) (it : Item) :
  In it items -> link it <> "" ->
  exists k, In k (_dedup threshold items)
            /\ (link k = link it \/ In (link it) (alt_links_of k)).
Proof.
  intros Hin Hne.
  destruct (link_recorded_loop (py_sorted sort_key items) (∅, [])
              (LoopInv_init threshold)) as [_ H].
  apply H; [|exact Hne]. apply py_sorted_In. exact Hin.
Qed.

End DedupMore.

Lemma dedup_output_sorted_witness :
  StronglySorted key_geq
    (_dedup (S := insertion) (9 # 10) [story_3; story_1; story_2]).
Proof.
  apply (dedup_output_sorted (9 # 10) (S := insertion)
           [story_3; story_1; story_2]).
  apply not_nan_consistent. repeat constructor; discriminate.
Defined.

Lemma dedup_threshold_nonpositive_witness :
  length (_dedup (S := insertion) 0 [story_1; story_2; story_3]) <= 1.
Proof.
  apply (dedup_threshold_nonpositive 0 (S := insertion)
           [story_1; story_2; story_3]).
  reflexivity.
Defined.

Lemma dedup_threshold_above_one_witness :
  _dedup (S := insertion) 2 [story_1; story_2; story_3]
  = uniq_links []
      (py_sorted (PyLib := insertion) sort_key
         [story_1; story_2; story_3]).
Proof.
  apply (dedup_threshold_above_one 2 (S := insertion)
           [story_1; story_2; story_3]).
  reflexivity.
Defined.

Lemma dedup_records_every_link_witness :
  exists k, In k (_dedup (S := insertion) (6 # 10) [fed_b; fed_a])
            /\ (link k = link fed_b \/ In (link fed_b) (alt_links_of k)).
Proof.
  apply (dedup_records_every_link (6 # 10) (S := insertion)
           [fed_b; fed_a] fed_b).
  - left. reflexivity.
  - discriminate.
Defined.

Section DedupOrigin.

Variable threshold : pyfloat.

Context `{S : PyLib}.

Lemma merge_into_alt_links_new it k :
  alt_links_of (merge_into it k) = alt_links_of k
  \/ (link it <> "" /\ link it <> link k /\ ~ In (link it) (alt_links_of k)
      /\ alt_links_of (merge_into it k) = alt_links_of k ++ [link it]).
Proof.
  unfold merge_into, alt_links_of. simpl.
  destruct (PyStr.truthy (link it)) eqn:T; simpl; [|left; reflexivity].
  apply truthy_iff in T.
  destruct (str_in (link it) match alt_links k with Some l => l | None => [] end)
    eqn:I; simpl; [left; reflexivity|].
  destruct (String.eqb_spec (link it) (link k)); simpl; [left; reflexivity|].
  right. repeat split; auto.
  intros H. apply str_in_In in H. congruence.
Qed.

Lemma after_mono done it k :
  alt_link_after threshold done k ->
  alt_link_after threshold (done ++ [it]) k.
Proof.
  intros (l1 & x & l2 & -> & Hc & Hu). exists l1, x, (l2 ++ [it]).
  split; [rewrite <- app_assoc; reflexivity|]. split; [exact Hc|].
  intros u Hin.
  destruct (Hu u Hin) as [H|(H1 & H2 & it0 & Hit & H3 & H4)];
    [left; exact H|right].
  split; [exact H1|]. split; [exact H2|]. exists it0.
  split; [apply in_or_app; left; exact Hit|auto].
Qed.

Lemma after_merge done it k :
  similar threshold it k = true ->
  alt_link_after threshold done k ->
  alt_link_after threshold (done ++ [it]) (merge_into it k).
Proof.
  intros Hsim (l1 & x & l2 & -> & Hc & Hu). exists l1, x, (l2 ++ [it]).
  split; [rewrite <- app_assoc; reflexivity|].
  split; [rewrite merge_into_core; exact Hc|]. intros u Hin.
  assert (Hold : In u (alt_links_of k) ->
            In u (alt_links_of x)
            \/ (u <> "" /\ u <> link (merge_into it k)
                /\ exists it0, In it0 (l2 ++ [it]) /\ link it0 = u
                     /\ similar threshold it0 (merge_into it k) = true)).
  { intros H. destruct (Hu u H) as [H0|(H1 & H2 & it0 & Hit & H3 & H4)];
      [left; exact H0|right].
    split; [exact H1|]. split; [exact H2|]. exists it0.
    split; [apply in_or_app; left; exact Hit|]. split; [exact H3|exact H4]. }
  destruct (merge_into_alt_links_new it k) as [E'|(Hne & Hnk & _ & E')];
    rewrite E' in Hin; [exact (Hold Hin)|].
  apply in_app_or in Hin. destruct Hin as [Hin|[<-|[]]]; [exact (Hold Hin)|].
  right. split; [exact Hne|]. split; [exact Hnk|]. exists it.
  split; [apply in_or_app; right; left; reflexivity|].
  split; [reflexivity|exact Hsim].
Qed.

Lemma after_loop its : forall done seen kept,
  Forall (alt_link_after threshold done) kept ->
  Forall (alt_link_after threshold (done ++ its))
    (snd (dedup_loop threshold its (seen, kept))).
Proof.
  induction its as [|it its IH]; intros done seen kept Ho.
  - simpl. rewrite app_nil_r. exact Ho.
  - rewrite dedup_loop_cons.
    replace (done ++ it :: its) with ((done ++ [it]) ++ its)
      by (rewrite <- app_assoc; reflexivity).
    pose proof (fun k => after_mono done it k) as Hmono.
    destruct (dedup_step_cases threshold seen kept it)
      as [(_ & _ & E)|[(_ & kept' & M & E)|(_ & _ & E)]]; rewrite E.
    + apply IH. exact (List.Forall_impl _ Hmono Ho).
    + apply IH. apply merge_first_Some in M.
      destruct M as (pre & k & post & -> & _ & Hsim & ->).
      apply Forall_app in Ho. destruct Ho as [Ho1 Ho2].
      inversion Ho2 as [|? ? Hk Ho3]; subst.
      apply Forall_app. split; [exact (List.Forall_impl _ Hmono Ho1)|].
      constructor; [|exact (List.Forall_impl _ Hmono Ho3)].
      apply after_merge; assumption.
    + cbn [snd]. apply IH.
      apply Forall_app. split; [exact (List.Forall_impl _ Hmono Ho)|].
      constructor; [|constructor].
      exists done, it, []. split; [reflexivity|].
      split; [reflexivity|]. intros u H. left. exact H.
Qed.

(** In a list in decreasing order an item is not below one after it. *)
Lemma sorted_after l1 x l2 it :
  StronglySorted key_geq (l1 ++ x :: l2) -> In it l2 -> key_geq x it.
Proof.
  intros Hs Hit. apply StronglySorted_app in Hs.
  destruct Hs as (_ & _ & Hs). inversion Hs as [|? ? _ Hall]; subst.
  rewrite List.Forall_forall in Hall. exact (Hall it Hit).
Qed.

(** X11. Where [alt_links] come from.  Every kept item [k] is an input item
    [x] with merge records added, and every link in its [alt_links] was in
    those of [x] already, or is the non-empty link, other than the link of
    [k], of an input item whose title reached the threshold against the
    title of [k] and which [_dedup] took after [x]; on a list whose keys
    [<] orders consistently (as when no weight is NaN), that item is not
    above [k]. *)
Theorem dedup_alt_links_origin (items : list Item) :
  Forall (alt_link_after threshold (py_sorted sort_key items))
    (_dedup threshold items)
  /\ (consistent sort_key items ->
      Forall (alt_link_origin threshold items) (_dedup threshold items)).
Proof.
  assert (H : Forall (alt_link_after threshold (py_sorted sort_key items))
                (_dedup threshold items)).
  { pose proof (after_loop (py_sorted sort_key items) [] ∅ []) as H.
    simpl in H. apply H. constructor. }
  split; [exact H|]. intros Hc.
  pose proof (py_sorted_sorted items Hc) as Hs.
  eapply List.Forall_impl; [|exact H].
  intros k (l1 & x & l2 & E & Hx & Hu). exists x.
  split.
  { apply (py_sorted_In sort_key). rewrite E. apply in_or_app.
    right. left. reflexivity. }
  split; [exact Hx|]. intros u Hin.
  destruct (Hu u Hin) as [H0|(H1 & H2 & it & Hit & H3 & H4)];
    [left; exact H0|right].
  split; [exact H1|]. split; [exact H2|]. exists it.
  split.
  { apply (py_sorted_In sort_key). rewrite E. apply in_or_app.
    right. right. exact Hit. }
  split; [exact H3|]. split; [exact H4|].
  rewrite E in Hs. pose proof (sorted_after _ _ _ _ Hs Hit) as Hg.
  unfold key_geq in *. rewrite <- (core_sort_key _ _ Hx). exact Hg.
Qed.

Lemma merge_into_alt_nodup it k :
  NoDup (alt_links_of k) -> NoDup (alt_links_of (merge_into it k)).
Proof.
  intros H.
  destruct (merge_into_alt_links_new it k) as [->|(_ & _ & Hnin & ->)];
    [exact H|].
  apply NoDup_app. split; [exact H|]. split; [|apply NoDup_singleton].
  intros u Hu Hu'. apply list_elem_of_In in Hu, Hu'.
  destruct Hu' as [<-|[]]. exact (Hnin Hu).
Qed.

(** X12. A link is recorded once: if no input item has a link twice in its
    [alt_links] (as when it has none), no kept item has. *)
Theorem dedup_alt_links_nodup (items : list Item) :
  Forall (fun k => NoDup (alt_links_of k)) items ->
  Forall (fun k => NoDup (alt_links_of k)) (_dedup threshold items).
Proof. apply dedup_Forall. exact merge_into_alt_nodup. Qed.

End DedupOrigin.

Lemma dedup_alt_links_origin_witness :
  Forall (alt_link_origin (S := insertion) (6 # 10) [fed_b; fed_a])
    (_dedup (S := insertion) (6 # 10) [fed_b; fed_a]).
Proof.
  apply (proj2 (dedup_alt_links_origin (6 # 10) (S := insertion)
                  [fed_b; fed_a])).
  apply not_nan_consistent. repeat constructor; discriminate.
Defined.

Lemma dedup_alt_links_nodup_witness :
  Forall (fun k => NoDup (alt_links_of k))
    (_dedup (S := insertion) (6 # 10) [fed_b; fed_a]).
Proof.
  apply (dedup_alt_links_nodup (6 # 10) (S := insertion) [fed_b; fed_a]).
  repeat constructor; simpl; apply NoDup_nil_2.
Defined.

(** Two items without a title, from the same feed. *)
Definition untitled_1 : Item :=
  mkItem "" "https://wire.example/a" "2024-05-01T12:00:00+00:00"
    (PStr "Wire") (PStr "wire") PNone 1 [] "" (PStr "https://wire.example/rss")
    None None.

Definition untitled_2 : Item :=
  mkItem "   " "https://wire.example/b" "2024-05-01T11:00:00+00:00"
    (PStr "Wire") (PStr "wire") PNone 1 [] "" (PStr "https://wire.example/rss")
    None None.

Lemma dedup_blank_titles_witness :
  _dedup (S := insertion) (6 # 10) [untitled_1; untitled_2]
  = uniq_links []
      (py_sorted (PyLib := insertion) sort_key [untitled_1; untitled_2]).
Proof.
  apply (dedup_blank_titles (6 # 10) (S := insertion)
           [untitled_1; untitled_2]).
  - reflexivity.
  - repeat constructor.
Defined.

(* ===================================================================== *)
(** * More properties of the feed reader *)
(* ===================================================================== *)

Lemma text_stripped (el : option Element) : PyStr.strip (_text el) = _text el.
Proof.
  destruct el as [[t a [x|] c]|]; simpl; [apply strip_strip|reflexivity..].
Qed.

Lemma truthy_false (s : string) : PyStr.truthy s = false <-> s = "".
Proof. destruct s; simpl; split; congruence. Qed.

(** The [href] of a link element that [parse_items] takes as the link of
    an Atom entry at once: not empty, and [rel] is "alternate" or absent. *)
Definition alternate_href (l : Element) : option string :=
  match attrib_get "href" (attrib l) with
  | Some h =>
      if PyStr.truthy h
         && String.eqb match attrib_get "rel" (attrib l) with
                       | Some r => r
                       | None => "alternate"
                       end "alternate"
      then Some h else None
  | None => None
  end.

Lemma after_first_app (ns rest : string) :
  after_first "}" ns = None ->
  after_first "}" (ns ++ String "}" rest) = Some rest.
Proof.
  induction ns as [|c r IH]; simpl; [reflexivity|].
  destruct (Ascii.eqb c "}"); [discriminate|exact IH].
Qed.

(** X13. [strip_ns] takes the namespace off a tag in Clark notation: from
    "{ns}local" it leaves "local" (the namespace has no closing brace), and
    a tag without a closing brace is left as it is; so the children of an
    element are found by their local names in any namespace. *)
Theorem strip_ns_clark (ns local : string) :
  after_first "}" ns = None ->
  strip_ns ("{" ++ (ns ++ ("}" ++ local))) = local
  /\ strip_ns ns = ns
  /\ forall a t c rest,
       first_child [local]
         (mkElement "e" [] None
            (mkElement ("{" ++ (ns ++ ("}" ++ local))) a t c :: rest))
       = Some (mkElement ("{" ++ (ns ++ ("}" ++ local))) a t c).
Proof.
  intros H.
  assert (E : strip_ns ("{" ++ (ns ++ ("}" ++ local))) = local).
  { unfold strip_ns.
    change (after_first "}" ("{" ++ (ns ++ ("}" ++ local))))
      with (after_first "}" (ns ++ String "}" local)).
    rewrite (after_first_app ns local H). reflexivity. }
  split; [exact E|]. split.
  - unfold strip_ns. rewrite H. reflexivity.
  - intros a t c rest. unfold first_child. cbn [children List.find tag].
    rewrite E. unfold str_in. simpl. rewrite String.eqb_refl. reflexivity.
Qed.

Lemma strip_ns_clark_witness :
  strip_ns "{http://www.w3.org/2005/Atom}entry" = "entry".
Proof.
  apply (strip_ns_clark "http://www.w3.org/2005/Atom" "entry").
  reflexivity.
Defined.

Lemma atom_alternate_href (links : list Element) :
  atom_alternate links = ""
  \/ exists l, In l links
       /\ attrib_get "href" (attrib l) = Some (atom_alternate links).
Proof.
  induction links as [|l rest IH]; simpl; [left; reflexivity|].
  assert (Hrest : atom_alternate rest = ""
            \/ exists l0, In l0 (l :: rest)
                 /\ attrib_get "href" (attrib l0) = Some (atom_alternate rest)).
  { destruct IH as [IH|(l0 & H1 & H2)]; [left; exact IH|right].
    exists l0. split; [right; exact H1|exact H2]. }
  destruct (attrib_get "href" (attrib l)) as [h|] eqn:Eh; [|exact Hrest].
  destruct (PyStr.truthy h && _); [|exact Hrest].
  right. exists l. split; [left; reflexivity|exact Eh].
Qed.

Lemma atom_alternate_first (pre : list Element) : forall l post h,
  Forall (fun l' => alternate_href l' = None) pre ->
  alternate_href l = Some h ->
  atom_alternate (pre ++ l :: post) = h.
Proof.
  induction pre as [|p pre IH]; intros l post h Hpre Hl; simpl.
  - unfold alternate_href in Hl.
    destruct (attrib_get "href" (attrib l)) as [h0|]; [|discriminate].
    destruct (PyStr.truthy h0 && _); [|discriminate].
    congruence.
  - inversion Hpre as [|? ? Hp Hpre']; subst. unfold alternate_href in Hp.
    destruct (attrib_get "href" (attrib p)) as [h0|]; [|exact (IH _ _ _ Hpre' Hl)].
    destruct (PyStr.truthy h0 && _); [discriminate|exact (IH _ _ _ Hpre' Hl)].
Qed.

Lemma alternate_href_nonempty l h : alternate_href l = Some h -> h <> "".
Proof.
  unfold alternate_href.
  destruct (attrib_get "href" (attrib l)) as [h0|]; [|discriminate].
  destruct (PyStr.truthy h0) eqn:T; simpl; [|discriminate].
  destruct (String.eqb _ _); [|discriminate].
  intros [= <-]. apply truthy_iff, T.
Qed.

(** X14. The link of an Atom entry.  It is empty or the [href] of one of
    the entry's link elements; it is the [href] of the first link element
    whose [href] is not empty and whose [rel] is "alternate" or absent,
    when there is one; and it is not empty as soon as the first link
    element has an [href] that is not. *)
Theorem atom_link_href (it : Element) :
  (atom_link it = ""
   \/ exists l, In l (findall_link it)
        /\ attrib_get "href" (attrib l) = Some (atom_link it))
  /\ (forall pre l post h,
        findall_link it = pre ++ l :: post ->
        Forall (fun l' => alternate_href l' = None) pre ->
        alternate_href l = Some h ->
        atom_link it = h)
  /\ (forall l rest h,
        findall_link it = l :: rest ->
        attrib_get "href" (attrib l) = Some h -> h <> "" ->
        atom_link it <> "").
Proof.
  split; [|split].
  - unfold atom_link.
    destruct (atom_alternate_href (findall_link it)) as [E|H].
    + rewrite E. simpl.
      destruct (findall_link it) as [|l rest] eqn:F; [left; reflexivity|].
      destruct (attrib_get "href" (attrib l)) as [h|] eqn:Eh;
        [|left; reflexivity].
      destruct (PyStr.truthy h); [|left; reflexivity].
      right. exists l. split; [left; reflexivity|exact Eh].
    + destruct H as (l & H1 & H2).
      destruct (PyStr.truthy (atom_alternate (findall_link it))) eqn:T.
      * simpl. right. exists l. auto.
      * apply truthy_false in T. rewrite T. simpl.
        destruct (findall_link it) as [|l0 rest] eqn:F; [left; reflexivity|].
        destruct (attrib_get "href" (attrib l0)) as [h|] eqn:Eh;
          [|left; reflexivity].
        destruct (PyStr.truthy h); [|left; reflexivity].
        right. exists l0. split; [left; reflexivity|exact Eh].
  - intros pre l post h F Hpre Hl. unfold atom_link. rewrite F.
    rewrite (atom_alternate_first pre l post h Hpre Hl).
    apply alternate_href_nonempty, truthy_iff in Hl. rewrite Hl. reflexivity.
  - intros l rest h F Eh Hne. unfold atom_link. rewrite F, Eh.
    apply truthy_iff in Hne. rewrite Hne.
    destruct (PyStr.truthy (atom_alternate (l :: rest))) eqn:T; simpl.
    + apply truthy_iff, T.
    + apply truthy_iff, Hne.
Qed.

Lemma atom_link_href_witness :
  atom_link
    (mkElement "entry" [] None
       [mkElement "link" [("rel", "self"); ("href", "https://x.example/self")]
          None [];
        mkElement "link" [("href", "https://x.example/story")] None []])
  = "https://x.example/story".
Proof.
  apply (proj1 (proj2 (atom_link_href _))
           [mkElement "link" [("rel", "self"); ("href", "https://x.example/self")]
              None []]
           (mkElement "link" [("href", "https://x.example/story")] None [])
           []).
  - reflexivity.
  - repeat constructor.
  - reflexivity.
Defined.

(** The URLs [build_url] gives for the sources of a list, in order; a
    source for which it raises gives none. *)
Definition resolved_urls `{P : Platform} (srcs : list Source.t)
    : list pyval :=
  flat_map
    (fun src => match build_url src with Ok url => [url] | Raise _ => [] end)
    srcs.

Section FeedFacts.

Context `{P : Platform} `{S : PyLib}.

Lemma parse_items_titles (root : Element) :
  Forall (fun e => PyStr.strip (Entry.title e) = Entry.title e)
    (parse_items root).
Proof.
  unfold parse_items. apply List.Forall_flat_map, List.Forall_forall.
  intros it _. destruct (negb _ && negb _); constructor; [|constructor].
  apply text_stripped.
Qed.

(** X15. What [parse_items] returns: every entry has a title or a link;
    its title and summary are trimmed, and so is its link unless the
    document is an Atom feed, where the link is an [href] taken as it is. *)
Theorem parse_items_entries (root : Element) :
  Forall
    (fun e =>
       (Entry.title e <> "" \/ Entry.link e <> "")
       /\ PyStr.strip (Entry.title e) = Entry.title e
       /\ PyStr.strip (Entry.raw_summary e) = Entry.raw_summary e
       /\ (strip_ns (tag root) <> "feed" ->
           PyStr.strip (Entry.link e) = Entry.link e))
    (parse_items root).
Proof.
  unfold parse_items. apply List.Forall_flat_map, List.Forall_forall.
  intros it _.
  destruct (negb (PyStr.truthy (_text (first_child ["title"] it)))
            && negb (PyStr.truthy
                       (if String.eqb (strip_ns (tag root)) "feed"
                        then atom_link it
                        else _text (first_child ["link"] it)))) eqn:E;
    constructor; [|constructor].
  cbn [Entry.title Entry.link Entry.raw_summary].
  split; [|split; [apply text_stripped|split; [apply text_stripped|]]].
  - apply andb_false_iff in E. rewrite !negb_false_iff in E.
    destruct E as [E|E]; apply truthy_iff in E; auto.
  - intros Hf. apply String.eqb_neq in Hf. rewrite Hf. apply text_stripped.
Qed.

(** X16. A document that is neither an RSS nor an Atom feed, or an RSS
    document without a channel, gives no entry (and no error). *)
Theorem parse_items_not_a_feed (root : Element) :
  (strip_ns (tag root) <> "rss" /\ strip_ns (tag root) <> "feed")
  \/ (strip_ns (tag root) = "rss" /\ first_child ["channel"] root = None) ->
  parse_items root = [].
Proof.
  unfold parse_items. intros [[H1 H2]|[H1 H2]].
  - apply String.eqb_neq in H1, H2. rewrite H1, H2. reflexivity.
  - rewrite H1, H2. reflexivity.
Qed.

(** X17. [parse_dt_str] does not see the white space around a date, and
    gives [None] for a blank string without calling a parser. *)
Theorem parse_dt_str_trims (s : string) :
  parse_dt_str (PyStr.strip s) = parse_dt_str s
  /\ (PyStr.strip s = "" -> parse_dt_str s = None).
Proof.
  unfold parse_dt_str. rewrite strip_strip. split; [reflexivity|].
  intros ->. reflexivity.
Qed.

(** ** One source *)

Lemma keep_entries_In cutoff src url parsed it :
  In it (keep_entries cutoff src url parsed) <->
  exists e, In e parsed /\ keep_entry cutoff src url e = Some it.
Proof.
  induction parsed as [|e rest IH]; simpl.
  - split; [intros []|intros (e & [] & _)].
  - destruct (keep_entry cutoff src url e) as [it0|] eqn:E; simpl;
      rewrite IH; split.
    + intros [<-|(e' & H1 & H2)]; [exists e; auto|exists e'; auto].
    + intros (e' & [<-|H1] & H2); [left; congruence|right; exists e'; auto].
    + intros (e' & H1 & H2). exists e'; auto.
    + intros (e' & [<-|H1] & H2); [congruence|exists e'; auto].
Qed.

Lemma keep_entries_length cutoff src url parsed :
  length (keep_entries cutoff src url parsed) <= length parsed.
Proof.
  induction parsed as [|e rest IH]; simpl; [lia|].
  destruct (keep_entry cutoff src url e); simpl; lia.
Qed.

Lemma collect_one_cases cutoff src st :
  (exists e, build_url src = Raise e
     /\ _collect_one cutoff src st = (Raise e, st))
  \/ (exists url w e, build_url src = Ok url
        /\ http_get_xml url (world st) = (Raise e, w)
        /\ _collect_one cutoff src st
           = (Raise e, mkRun w (requested st ++ [url])))
  \/ (exists url w root, build_url src = Ok url
        /\ http_get_xml url (world st) = (Ok root, w)
        /\ _collect_one cutoff src st
           = (Ok (keep_entries cutoff src url (parse_items root)),
              mkRun w (requested st ++ [url]))).
Proof.
  unfold _collect_one, bind, lift, fetch_xml, ret.
  destruct (build_url src) as [url|e]; [|left; exists e; auto].
  right. destruct (http_get_xml url (world st)) as [[root|e] w] eqn:E.
  - right. exists url, w, root. rewrite E. auto.
  - left. exists url, w, e. rewrite E. auto.
Qed.

(** X18. The items of one source.  When [_collect_one] returns, the feed
    was requested once, at the URL of the source; every item carries the
    name, id, language, weight and tags of the source and that URL, has no
    merge record, and has a trimmed title, link and summary; the items are
    no more than the entries of the feed; and every entry of the feed whose
    date reads back as an instant not before the cutoff has its item. *)
Theorem collect_one_items (cutoff : Z) (src : Source.t) (st st' : RunState)
    (its : list Item) :
  _collect_one cutoff src st = (Ok its, st') ->
  exists url root,
    build_url src = Ok url
    /\ fst (http_get_xml url (world st)) = Ok root
    /\ requested st' = requested st ++ [url]
    /\ Forall
         (fun it =>
            source it = Source.name src /\ source_id it = Source.id src
            /\ language it = Source.language src
            /\ weight it = Source.weight src /\ tags it = Source.tags src
            /\ feed_url it = url
            /\ alt_links it = None /\ alt_sources it = None
            /\ PyStr.strip (title it) = title it
            /\ PyStr.strip (link it) = link it
            /\ PyStr.strip (raw_summary it) = raw_summary it) its
    /\ length its <= length (parse_items root)
    /\ (forall e dt,
          In e (parse_items root) -> entry_date e = Some dt ->
          (cutoff <= dt)%Z ->
          exists it, In it its
            /\ title it = Entry.title e
            /\ link it = PyStr.strip (Entry.link e)
            /\ published_at it = isoformat dt).
Proof.
  intros H.
  destruct (collect_one_cases cutoff src st)
    as [(e & _ & E)|[(url & w & e & _ & _ & E)|(url & w & root & Hu & Hx & E)]];
    rewrite E in H; try discriminate.
  injection H as <- <-. exists url, root.
  split; [exact Hu|]. split; [rewrite Hx; reflexivity|].
  split; [reflexivity|]. split; [|split].
  - apply List.Forall_forall. intros it Hin.
    apply keep_entries_In in Hin. destruct Hin as (e & _ & Hk).
    unfold keep_entry in Hk.
    destruct (entry_date e) as [dt|]; [|discriminate].
    destruct (dt <? cutoff)%Z; [discriminate|].
    injection Hk as <-. cbn.
    repeat split; try reflexivity; apply strip_strip.
  - apply keep_entries_length.
  - intros e dt Hin Hd Hc.
    pose proof (parse_items_titles root) as Hp.
    rewrite List.Forall_forall in Hp. specialize (Hp e Hin).
    eexists. split.
    + apply keep_entries_In. exists e. split; [exact Hin|].
      unfold keep_entry. rewrite Hd.
      apply Z.ltb_ge in Hc. rewrite Hc. reflexivity.
    + cbn. split; [exact Hp|]. split; reflexivity.
Qed.

(** X19. A source that cannot be asked.  A source whose type is not "rss"
    makes [_collect_one] raise [ValueError] before any request, and so
    does an "rss" source with neither a URL nor a template with a query;
    a source with a URL is asked at that URL, whatever its template. *)
Theorem collect_one_unsupported (cutoff : Z) (src : Source.t)
    (st : RunState) :
  (py_eqb (Source.type src) (PStr "rss") = false ->
   _collect_one cutoff src st
   = (Raise (Exn "ValueError"
               ("Unsupported source type: " ++ py_str (Source.type src))),
      st))
  /\ (py_eqb (Source.type src) (PStr "rss") = true ->
      py_truthy (Source.url src) = false ->
      py_truthy (Source.url_template src) = false
      \/ Source.query src = PNone ->
      _collect_one cutoff src st
      = (Raise (Exn "ValueError"
                  ("Source " ++ py_str (Source.id src)
                   ++ " missing url or url_template")),
         st))
  /\ (py_eqb (Source.type src) (PStr "rss") = true ->
      py_truthy (Source.url src) = true ->
      build_url src = Ok (Source.url src)
      /\ requested (snd (_collect_one cutoff src st))
         = requested st ++ [Source.url src]).
Proof.
  split; [|split].
  - intros Ht. unfold _collect_one, bind, lift, build_url. rewrite Ht.
    reflexivity.
  - intros Ht Hu Hq. unfold _collect_one, bind, lift, build_url.
    rewrite Ht, Hu. simpl.
    destruct Hq as [Hq|Hq]; rewrite Hq; [reflexivity|].
    rewrite andb_false_r. reflexivity.
  - intros Ht Hu.
    assert (E : build_url src = Ok (Source.url src)).
    { unfold build_url. rewrite Ht, Hu. reflexivity. }
    split; [exact E|].
    destruct (collect_one_cases cutoff src st)
      as [(e & Hb & _)|[(url & w & e & Hb & _ & ->)
                       |(url & w & root & Hb & _ & ->)]];
      rewrite E in Hb; [discriminate|..]; injection Hb as <-; reflexivity.
Qed.

(** ** All sources *)

Lemma collect_one_requested cutoff src st :
  requested (snd (_collect_one cutoff src st))
  = requested st
    ++ match build_url src with Ok url => [url] | Raise _ => [] end.
Proof.
  destruct (collect_one_cases cutoff src st)
    as [(e & Hb & ->)|[(url & w & e & Hb & _ & ->)
                     |(url & w & root & Hb & _ & ->)]];
    rewrite Hb; simpl; rewrite ?app_nil_r; reflexivity.
Qed.

Lemma outcomes_requested cutoff srcs : forall st,
  requested (snd (outcomes cutoff srcs st))
  = requested st ++ resolved_urls srcs.
Proof.
  induction srcs as [|src rest IH]; intros st; simpl.
  - rewrite app_nil_r. reflexivity.
  - pose proof (collect_one_requested cutoff src st) as H1.
    destruct (_collect_one cutoff src st) as [r st1].
    specialize (IH st1). destruct (outcomes cutoff rest st1) as [os st2].
    simpl in *. rewrite IH, H1, <- app_assoc. reflexivity.
Qed.

Lemma region_outcomes_requested cutoff sources : forall st,
  requested (snd (region_outcomes cutoff sources st))
  = requested st ++ flat_map (fun s => resolved_urls (snd s)) sources.
Proof.
  induction sources as [|[region srcs] rest IH]; intros st; simpl.
  - rewrite app_nil_r. reflexivity.
  - pose proof (outcomes_requested cutoff srcs st) as H1.
    destruct (outcomes cutoff srcs st) as [os st1].
    specialize (IH st1). destruct (region_outcomes cutoff rest st1) as [ros st2].
    simpl in *. rewrite IH, H1, <- app_assoc. reflexivity.
Qed.

(** X20. The requests of a run.  [collect] asks each source whose URL can
    be built once, in the order of the configuration (the sources of
    "taiwan", then those of "global"), whether the sources before it
    answered or not; it asks nothing else, and nothing twice; and when it
    raises, it has asked nothing. *)
Theorem collect_requests (cfg : pyval) (window_hours : pyfloat)
    (st : RunState) :
  (forall doc st', collect cfg window_hours st = (Ok doc, st') ->
     exists sources,
       load_sources cfg = Ok sources
       /\ requested st'
          = requested st ++ flat_map (fun s => resolved_urls (snd s)) sources)
  /\ (forall e st', collect cfg window_hours st = (Raise e, st') ->
        requested st' = requested st).
Proof.
  rewrite collect_unfold.
  destruct (get_threshold cfg) as [threshold|e0].
  2:{ split; intros ? ? [= ]; subst; reflexivity. }
  destruct (load_sources cfg) as [sources|e0].
  2:{ split; intros ? ? [= ]; subst; reflexivity. }
  cbv zeta.
  destruct (minus_hours (fst (clock_now (world st))) window_hours)
    as [cutoff|e0].
  2:{ split; intros ? ? [= ]; subst; reflexivity. }
  split; [|intros ? ? [= ]].
  intros doc st' [= _ <-]. exists sources. split; [reflexivity|].
  rewrite region_outcomes_requested. reflexivity.
Qed.

End FeedFacts.

(** [isinstance(v, dict)] *)
Definition is_dict (v : pyval) : bool :=
  match v with PDict _ => true | _ => false end.

(** The item and the error entry come from the source [src]. *)
Definition item_from (src : Source.t) (it : Item) : Prop :=
  source_id it = Source.id src /\ source it = Source.name src
  /\ language it = Source.language src /\ weight it = Source.weight src
  /\ tags it = Source.tags src.

Definition error_from (src : Source.t) (er : ErrorEntry.t) : Prop :=
  ErrorEntry.source er = Source.id src.

Section CollectMore.

Context `{P : Platform} `{S : PyLib}.

Lemma read_tiers_filter (tiers : list pyval) :
  read_tiers tiers = read_tiers (List.filter is_dict tiers).
Proof.
  induction tiers as [|t rest IH]; [reflexivity|].
  destruct t; simpl; try exact IH.
  rewrite IH. reflexivity.
Qed.

Lemma read_sources_not_dict (l : list pyval) (s : pyval) :
  In s l -> is_dict s = false -> exists e, read_sources l = Raise e.
Proof.
  induction l as [|x rest IH]; intros Hin Hs; [destruct Hin|].
  destruct Hin as [->|Hin]; simpl.
  - destruct s; try discriminate; eexists; reflexivity.
  - destruct (read_source x) as [src|e]; [|exists e; reflexivity]. simpl.
    destruct (IH Hin Hs) as (e & ->). exists e. reflexivity.
Qed.

Lemma load_sources_shape cfg sources :
  load_sources cfg = Ok sources ->
  exists taiwan global, sources = [("taiwan", taiwan); ("global", global)].
Proof.
  unfold load_sources.
  destruct (dict_get cfg "taiwan" (PDict [])) as [b1|e]; [|discriminate].
  simpl. destruct (_read_block b1) as [taiwan|e]; [|discriminate]. simpl.
  destruct (dict_get cfg "global_markets" (PDict [])) as [b2|e];
    [|discriminate].
  simpl. destruct (_read_block b2) as [global|e]; [|discriminate]. simpl.
  intros [= <-]. exists taiwan, global. reflexivity.
Qed.

Lemma load_sources_missing (c : list (string * pyval)) :
  dict_lookup "taiwan" c = None -> dict_lookup "global_markets" c = None ->
  load_sources (PDict c) = Ok [("taiwan", []); ("global", [])].
Proof.
  intros H1 H2. unfold load_sources. simpl. rewrite H1, H2. reflexivity.
Qed.

(** X21. Reading the sources.  The values of a section that are not
    mappings are passed over; a source entry that is not a mapping makes
    the reading raise; and what [load_sources] returns has the regions
    "taiwan" and "global", in this order, each empty when its section
    ("taiwan", "global_markets") is missing. *)
Theorem load_sources_sections :
  (forall d, _read_block (PDict d)
             = _read_block
                 (PDict (List.filter (fun kv => is_dict (snd kv)) d)))
  /\ (forall l s, In s l -> is_dict s = false ->
        exists e, read_sources l = Raise e)
  /\ (forall cfg sources, load_sources cfg = Ok sources ->
        exists taiwan global,
          sources = [("taiwan", taiwan); ("global", global)])
  /\ (forall c, dict_lookup "taiwan" c = None ->
        dict_lookup "global_markets" c = None ->
        load_sources (PDict c) = Ok [("taiwan", []); ("global", [])]).
Proof.
  split; [|split; [|split]].
  - intros d. simpl. rewrite read_tiers_filter. f_equal.
    induction d as [|[k v] d IH]; simpl; [reflexivity|].
    destruct (is_dict v); simpl; rewrite IH; reflexivity.
  - exact read_sources_not_dict.
  - exact load_sources_shape.
  - exact load_sources_missing.
Qed.

(** X22. A configuration without the two sections gives a document with
    two empty regions; the clock was read twice and nothing was
    requested. *)
Theorem collect_no_sources (c : list (string * pyval))
    (window_hours : pyfloat) (st : RunState) (threshold : pyfloat)
    (cutoff : Z) :
  dict_lookup "taiwan" c = None ->
  dict_lookup "global_markets" c = None ->
  get_threshold (PDict c) = Ok threshold ->
  minus_hours (fst (clock_now (world st))) window_hours = Ok cutoff ->
  collect (PDict c) window_hours st
  = (Ok (Collection.mk
           (isoformat (fst (clock_now (snd (clock_now (world st))))))
           window_hours (isoformat cutoff)
           [("taiwan", Region.mk [] [] []); ("global", Region.mk [] [] [])]),
     mkRun (snd (clock_now (snd (clock_now (world st))))) (requested st)).
Proof.
  intros H1 H2 Ht Hc. rewrite collect_unfold, Ht.
  rewrite (load_sources_missing c H1 H2).
  cbv zeta. rewrite Hc. simpl. unfold region_of. simpl.
  rewrite dedup_nil. reflexivity.
Qed.

Lemma keep_entries_from cutoff src url parsed :
  Forall (item_from src) (keep_entries cutoff src url parsed).
Proof.
  apply List.Forall_forall. intros it Hin.
  apply keep_entries_In in Hin. destruct Hin as (e & _ & Hk).
  unfold keep_entry in Hk.
  destruct (entry_date e) as [dt|]; [|discriminate].
  destruct (dt <? cutoff)%Z; [discriminate|].
  injection Hk as <-. repeat split.
Qed.

Lemma outcomes_from cutoff srcs : forall st,
  Forall (fun it => exists src, In src srcs /\ item_from src it)
    (items_of (fst (outcomes cutoff srcs st)))
  /\ Forall (fun er => exists src, In src srcs /\ error_from src er)
       (errors_of (fst (outcomes cutoff srcs st))).
Proof.
  induction srcs as [|src rest IH]; intros st; simpl;
    [split; constructor|].
  pose proof (collect_one_cases cutoff src st) as Hc.
  destruct (_collect_one cutoff src st) as [r st1].
  specialize (IH st1). destruct (outcomes cutoff rest st1) as [os st2].
  destruct IH as [IH1 IH2]. unfold items_of, errors_of in *. simpl in *.
  assert (M1 : forall it, (exists s, In s rest /\ item_from s it) ->
                 exists s, (src = s \/ In s rest) /\ item_from s it).
  { intros it (s & H1 & H2). exists s. auto. }
  assert (M2 : forall er, (exists s, In s rest /\ error_from s er) ->
                 exists s, (src = s \/ In s rest) /\ error_from s er).
  { intros er (s & H1 & H2). exists s. auto. }
  split; apply Forall_app; split;
    try exact (List.Forall_impl _ M1 IH1);
    try exact (List.Forall_impl _ M2 IH2).
  - destruct Hc as [(e & _ & E)|[(url & w & e & _ & _ & E)
                                |(url & w & root & _ & _ & E)]];
      injection E as -> _; [constructor..|].
    eapply List.Forall_impl; [|apply keep_entries_from].
    intros it H. exists src. auto.
  - destruct r as [its|e]; constructor; [|constructor].
    exists src. split; [auto|reflexivity].
Qed.

Lemma merge_into_from (srcs : list Source.t) it k :
  (exists src, In src srcs /\ item_from src k) ->
  exists src, In src srcs /\ item_from src (merge_into it k).
Proof. intros (src & H1 & H2). exists src. split; [exact H1|exact H2]. Qed.

Lemma region_outcomes_from threshold cutoff sources : forall st,
  Forall2
    (fun s rr =>
       fst rr = fst s
       /\ Region.sources (snd rr) = map Source.id (snd s)
       /\ Forall (fun it => exists src, In src (snd s) /\ item_from src it)
            (Region.items (snd rr))
       /\ Forall (fun er => exists src, In src (snd s) /\ error_from src er)
            (Region.errors (snd rr)))
    sources
    (map (region_of threshold) (fst (region_outcomes cutoff sources st))).
Proof.
  induction sources as [|[region srcs] rest IH]; intros st; simpl;
    [constructor|].
  pose proof (outcomes_from cutoff srcs st) as [H1 H2].
  pose proof (outcomes_sources cutoff srcs st) as Hs.
  destruct (outcomes cutoff srcs st) as [os st1].
  specialize (IH st1). destruct (region_outcomes cutoff rest st1) as [ros st2].
  simpl in *. constructor; [|exact IH]. simpl.
  split; [reflexivity|]. split; [rewrite <- Hs, map_map; reflexivity|].
  split; [|exact H2].
  apply dedup_Forall; [apply merge_into_from|exact H1].
Qed.

(** X23. The document [collect] returns.  It has the regions "taiwan" and
    "global", in this order, with the window it was given; each region
    lists the ids of its sources as configured; every item of a region
    carries the id, name, language, weight and tags of a source of that
    region, and every error entry the id of one: nothing crosses from one
    region to the other. *)
Theorem collect_document (cfg : pyval) (window_hours : pyfloat)
    (st st' : RunState) (doc : Collection.t) :
  collect cfg window_hours st = (Ok doc, st') ->
  exists taiwan global rt rg,
    load_sources cfg = Ok [("taiwan", taiwan); ("global", global)]
    /\ Collection.regions doc = [("taiwan", rt); ("global", rg)]
    /\ Collection.window_hours doc = window_hours
    /\ Region.sources rt = map Source.id taiwan
    /\ Region.sources rg = map Source.id global
    /\ Forall (fun it => exists src, In src taiwan /\ item_from src it)
         (Region.items rt)
    /\ Forall (fun it => exists src, In src global /\ item_from src it)
         (Region.items rg)
    /\ Forall (fun er => exists src, In src taiwan /\ error_from src er)
         (Region.errors rt)
    /\ Forall (fun er => exists src, In src global /\ error_from src er)
         (Region.errors rg).
Proof.
  rewrite collect_unfold.
  destruct (get_threshold cfg) as [threshold|e]; [|discriminate].
  destruct (load_sources cfg) as [sources|e] eqn:Hl; [|discriminate].
  cbv zeta.
  destruct (minus_hours (fst (clock_now (world st))) window_hours)
    as [cutoff|e]; [|discriminate].
  intros [= <- _].
  destruct (load_sources_shape _ _ Hl) as (taiwan & global & ->).
  pose proof (region_outcomes_from threshold cutoff
                [("taiwan", taiwan); ("global", global)]
                (mkRun (snd (clock_now (snd (clock_now (world st)))))
                   (requested st))) as H.
  cbn [Collection.regions Collection.window_hours].
  remember (map (region_of threshold)
              (fst (region_outcomes cutoff
                      [("taiwan", taiwan); ("global", global)]
                      (mkRun (snd (clock_now (snd (clock_now (world st)))))
                         (requested st))))) as regs eqn:Er.
  clear Er.
  inversion H as [|s1 [n1 rt] l1 l1' (E1 & S1 & I1 & R1) H']; subst.
  inversion H' as [|s2 [n2 rg] l2 l2' (E2 & S2 & I2 & R2) H'']; subst.
  inversion H''; subst. simpl in *. subst.
  exists taiwan, global, rt, rg. repeat split; assumption || reflexivity.
Qed.

End CollectMore.

(** ** On the small platform *)

Definition toy_reuters : Source.t :=
  Source.mk (PStr "reuters") (PStr "Reuters") (PStr "rss")
    (PStr "https://reuters.example/rss") PNone PNone PNone 1 [].

(** A source of a type the collector does not read. *)
Definition toy_api : Source.t :=
  Source.mk (PStr "api") (PStr "Api") (PStr "json")
    (PStr "https://api.example/news") PNone PNone PNone 1 [].

Definition toy_reuters_items : list Item :=
  Eval vm_compute in
    match fst (@_collect_one toy_platform 100 toy_reuters toy_start) with
    | Ok its => its
    | Raise _ => []
    end.

Definition toy_reuters_end : @RunState toy_platform :=
  Eval vm_compute in snd (@_collect_one toy_platform 100 toy_reuters toy_start).

Lemma parse_items_not_a_feed_witness :
  @parse_items toy_platform (mkElement "html" [] None []) = [].
Proof.
  apply (@parse_items_not_a_feed toy_platform (mkElement "html" [] None [])).
  left. split; discriminate.
Defined.

Lemma parse_dt_str_trims_witness : @parse_dt_str toy_platform "   " = None.
Proof.
  apply (proj2 (@parse_dt_str_trims toy_platform "   ")). reflexivity.
Defined.

Lemma collect_one_items_witness :
  exists url,
    @build_url toy_platform toy_reuters = Ok url
    /\ requested toy_reuters_end = requested toy_start ++ [url]
    /\ Forall (fun it => feed_url it = url /\ alt_links it = None)
         toy_reuters_items.
Proof.
  assert (H : @_collect_one toy_platform 100 toy_reuters toy_start
              = (Ok toy_reuters_items, toy_reuters_end))
    by (vm_compute; reflexivity).
  destruct (@collect_one_items toy_platform 100 toy_reuters toy_start
              toy_reuters_end toy_reuters_items H)
    as (url & root & H1 & _ & H2 & H3 & _).
  exists url. split; [exact H1|]. split; [exact H2|].
  eapply List.Forall_impl; [|exact H3].
  intros it Hit. split; [apply Hit|apply Hit].
Defined.

Lemma collect_one_unsupported_witness :
  @_collect_one toy_platform 100 toy_api toy_start
  = (Raise (Exn "ValueError" "Unsupported source type: json"), toy_start).
Proof.
  apply (proj1 (@collect_one_unsupported toy_platform 100 toy_api toy_start)).
  reflexivity.
Defined.

Lemma collect_requests_witness :
  exists sources,
    @load_sources toy_platform toy_cfg = Ok sources
    /\ requested toy_end
       = requested toy_start
         ++ flat_map (fun s => @resolved_urls toy_platform (snd s)) sources.
Proof.
  assert (H : @collect toy_platform insertion toy_cfg 2 toy_start
              = (Ok toy_doc, toy_end)) by (vm_compute; reflexivity).
  exact (proj1 (@collect_requests toy_platform insertion toy_cfg 2 toy_start)
           toy_doc toy_end H).
Defined.

Lemma load_sources_sections_witness :
  @load_sources toy_platform (PDict [])
  = Ok [("taiwan", []); ("global", [])].
Proof.
  apply (proj2 (proj2 (proj2 (@load_sources_sections toy_platform))) []);
    reflexivity.
Defined.

Lemma collect_no_sources_witness :
  exists doc st',
    @collect toy_platform insertion (PDict []) 2 toy_start = (Ok doc, st')
    /\ Collection.regions doc
       = [("taiwan", Region.mk [] [] []); ("global", Region.mk [] [] [])]
    /\ requested st' = requested toy_start.
Proof.
  eexists. eexists. split.
  - apply (@collect_no_sources toy_platform insertion [] 2 toy_start (9 # 10) 100%Z);
      reflexivity.
  - split; reflexivity.
Defined.

Lemma collect_document_witness :
  exists rt rg,
    Collection.regions toy_doc = [("taiwan", rt); ("global", rg)]
    /\ Forall (fun it => In (source_id it) (Region.sources rt))
         (Region.items rt).
Proof.
  assert (H : @collect toy_platform insertion toy_cfg 2 toy_start
              = (Ok toy_doc, toy_end)) by (vm_compute; reflexivity).
  destruct (@collect_document toy_platform insertion toy_cfg 2 toy_start toy_end
              toy_doc H)
    as (taiwan & global & rt & rg & _ & Hr & _ & Hs & _ & Hi & _).
  exists rt, rg. split; [exact Hr|].
  eapply List.Forall_impl; [|exact Hi].
  intros it (src & Hin & Hf). rewrite Hs. destruct Hf as [-> _].
  apply in_map. exact Hin.
Defined.

(* ===================================================================== *)
(** * The digest: [pick] (bin/finance_news_render_digest.py) *)
(* ===================================================================== *)

(** The digest reads the document of [collect] back and takes the first
    items of each region in [pick]. *)

(** The key of [pick]:
    [(it.get("published_at") or "", it.get("weight") or 0)].  A weight
    that is zero gives 0; any other, NaN too, is taken as it is. *)
Definition pick_key (it : Item) : string * pyfloat :=
  (published_at it, if feq (weight it) 0 then FNum 0 else weight it).

(** [l[:n]]: the first [n] elements, and all but the last [-n] when [n] is
    negative. *)
Definition slice_to (n : Z) (l : list Item) : list Item :=
  if (0 <=? n)%Z then firstn (Z.to_nat n) l
  else firstn (length l - Z.to_nat (- n)) l.

(** [pick] *)
Definition pick `{S : PyLib} (items : list Item) (n : Z) : list Item :=
  slice_to n (py_sorted pick_key items).

Section PickFacts.

Context `{S : PyLib}.

Lemma Qltb_compat (x x' y y' : Q) :
  (x == x')%Q -> (y == y')%Q -> Qltb x y = Qltb x' y'.
Proof.
  intros H1 H2. apply eq_true_iff_eq. rewrite !Qltb_lt, H1, H2. reflexivity.
Qed.

Lemma Qeq_bool_compat (x x' y y' : Q) :
  (x == x')%Q -> (y == y')%Q -> Qeq_bool x y = Qeq_bool x' y'.
Proof.
  intros H1 H2. apply eq_true_iff_eq. rewrite !Qeq_bool_iff, H1, H2.
  reflexivity.
Qed.

(** Two floats that the comparisons do not tell apart. *)
Definition same_float (a b : pyfloat) : Prop :=
  match a, b with
  | FNum x, FNum y => (x == y)%Q
  | _, _ => a = b
  end.

Lemma same_float_cmp (a a' b b' : pyfloat) :
  same_float a a' -> same_float b b' ->
  flt a b = flt a' b' /\ feq a b = feq a' b'.
Proof.
  destruct a as [x|n1|], a' as [x'|n1'|]; simpl; try discriminate;
    destruct b as [y|n2|], b' as [y'|n2'|]; simpl; try discriminate;
    intros H1 H2; try (injection H1 as ->); try (injection H2 as ->);
    try (split; reflexivity).
  split; [apply Qltb_compat|apply Qeq_bool_compat]; assumption.
Qed.

Lemma pick_key_weight (x : Item) : same_float (snd (pick_key x)) (weight x).
Proof.
  unfold pick_key. simpl. destruct (weight x) as [q|n|]; simpl.
  - destruct (Qeq_bool q 0) eqn:E; simpl; [|reflexivity].
    apply Qeq_bool_iff in E. symmetry. exact E.
  - reflexivity.
  - reflexivity.
Qed.

Lemma pick_key_ltb (x y : Item) :
  key_ltb (pick_key x) (pick_key y) = key_ltb (sort_key x) (sort_key y).
Proof.
  destruct (same_float_cmp _ _ _ _ (pick_key_weight x) (pick_key_weight y))
    as [H1 H2].
  unfold key_ltb. cbn [fst snd pick_key sort_key] in *.
  rewrite H1, H2. reflexivity.
Qed.

Lemma sorted_by_pick_key (items : list Item) :
  sorted_by pick_key items = sorted_desc items.
Proof.
  unfold sorted_by, sorted_desc.
  induction items as [|x l IH]; simpl; [reflexivity|]. rewrite IH.
  generalize (fold_right insert_desc [] l). intros l'.
  induction l' as [|y r IHr]; simpl; [reflexivity|].
  rewrite pick_key_ltb, IHr. reflexivity.
Qed.

Lemma pick_key_consistent (items : list Item) :
  consistent sort_key items -> consistent pick_key items.
Proof.
  intros Hc x y z Hx Hy Hz. rewrite !pick_key_ltb. apply Hc; assumption.
Qed.

Lemma py_sorted_pick_key (items : list Item) :
  consistent sort_key items ->
  py_sorted pick_key items = py_sorted sort_key items.
Proof.
  intros Hc.
  rewrite (py_sorted_consistent _ _ (pick_key_consistent _ Hc)).
  rewrite (py_sorted_desc _ Hc). apply sorted_by_pick_key.
Qed.

(** X24. [pick] on a list of the collector whose keys [<] orders
    consistently (as when no weight is NaN).  It sorts as [_dedup] does (a
    weight of 0 taken as 0 changes no comparison), so that on the items of
    a region, which [_dedup] left sorted, it changes no order and takes the
    first [n] as they stand; the items it returns are in decreasing order
    of [(published_at, weight)]. *)
Theorem pick_after_dedup (threshold : pyfloat) (items : list Item) (n : Z) :
  consistent sort_key items ->
  pick items n = slice_to n (py_sorted sort_key items)
  /\ pick (_dedup threshold items) n = slice_to n (_dedup threshold items)
  /\ StronglySorted key_geq (pick items n)
  /\ length (pick items n) <= length items.
Proof.
  intros Hc.
  assert (E : forall l, consistent sort_key l ->
                pick l n = slice_to n (sorted_desc l)).
  { intros l Hl. unfold pick.
    rewrite (py_sorted_pick_key _ Hl), (py_sorted_desc _ Hl). reflexivity. }
  assert (Hf : forall m l, StronglySorted key_geq l ->
                 StronglySorted key_geq (firstn m l)).
  { intros m l Hl. revert m.
    induction Hl as [|x l Hl IH Hx]; intros [|m]; simpl; try constructor.
    - apply IH.
    - rewrite List.Forall_forall in *. intros y Hy. apply Hx.
      rewrite <- (firstn_skipn m l). apply in_or_app. left. exact Hy. }
  split; [rewrite (E _ Hc), (py_sorted_desc _ Hc); reflexivity|].
  split; [|split].
  - rewrite (E _ (dedup_consistent threshold items Hc)). f_equal.
    apply sorted_desc_fixed, dedup_sorted, Hc.
  - rewrite (E _ Hc). unfold slice_to.
    destruct (0 <=? n)%Z; apply Hf, sorted_desc_sorted, Hc.
  - rewrite (E _ Hc). unfold slice_to.
    rewrite <- (Permutation_length (sorted_desc_perm items)).
    destruct (0 <=? n)%Z; rewrite length_firstn; lia.
Qed.

End PickFacts.

Lemma pick_after_dedup_witness :
  pick (S := insertion) (_dedup (S := insertion) (6 # 10) [fed_b; fed_a]) 8
  = slice_to 8 (_dedup (S := insertion) (6 # 10) [fed_b; fed_a]).
Proof.
  apply (pick_after_dedup (S := insertion) (6 # 10) [fed_b; fed_a] 8).
  apply not_nan_consistent. repeat constructor; discriminate.
Defined.

Lemma dedup_keeps_input_items_witness :
  exists k out,
    _dedup (S := insertion) (6 # 10) [fed_b; fed_a] = k :: out
    /\ core k = core fed_a.
Proof.
  apply (proj1 (proj2 (proj2 (proj2
           (dedup_keeps_input_items (6 # 10) (S := insertion)
              [fed_b; fed_a]))))
           fed_a [fed_b]).
  reflexivity.
Defined.
